(** * Football-scores gateway provider: a shallow embedding

    The development follows [src/protocol/gateway-provider.ts]
    ([GatewayProviderImplementation]) and [src/protocol/utils.ts]
    ([makePredictionRequest]).  The TypeScript code leans on three pieces of
    the JavaScript run time, which are modelled first:

    - property access, object spread and property order of plain objects;
    - [JSON.parse] and [JSON.stringify];
    - [new Date(v)], [Date.prototype.toISOString] and [String.prototype.split].

    Conventions of the model.

    - JavaScript text is a list of 16-bit code units ([text]); [txt] gives
      the text of a literal of the program.
    - A JavaScript number is an IEEE 754 binary64 value ([number]): zero with
      its sign, the finite numbers as an odd mantissa and a binary exponent,
      the two infinities and NaN.  A numeric literal is rounded to the
      nearest number, the even one of two ([of_decimal]); a number is
      written with the fewest digits that read back as the number
      ([number_to_string]).
    - A computation returns ([Ok]) or throws ([Throw]).  [JSON.parse] is
      defined on every text: it returns a value or throws a [SyntaxError].
    - The asynchronous functions run from start to end with no interleaving;
      what they do to the outside (requests, log lines) is kept as a trace. *)

From Stdlib Require Import ZArith List String Ascii Bool Lia.
Import ListNotations.
Local Open Scope string_scope.
Local Open Scope list_scope.
Local Open Scope Z_scope.

(** ** Text

    A JavaScript string is a sequence of 16-bit code units.  A code unit is
    kept as its high and its low byte. *)

Definition char16 : Type := (ascii * ascii)%type.
Definition text : Type := list char16.

Definition code (c : char16) : Z :=
  256 * Z.of_nat (nat_of_ascii (fst c)) + Z.of_nat (nat_of_ascii (snd c)).

Definition char_of_code (n : Z) : char16 :=
  (ascii_of_nat (Z.to_nat (n / 256)), ascii_of_nat (Z.to_nat (n mod 256))).

(** The text of a literal of the program: every character of the literals
    used here is below 256. *)
Fixpoint txt (s : string) : text :=
  match s with
  | EmptyString => []
  | String a r => (zero, a) :: txt r
  end.

Definition char_eqb (c d : char16) : bool :=
  Ascii.eqb (fst c) (fst d) && Ascii.eqb (snd c) (snd d).

Fixpoint text_eqb (s t : text) : bool :=
  match s, t with
  | [], [] => true
  | c :: s', d :: t' => char_eqb c d && text_eqb s' t'
  | _, _ => false
  end.

Definition digit_char (d : Z) : char16 := char_of_code (48 + d).

Definition digit_of_char (c : char16) : option Z :=
  let n := code c in
  if (48 <=? n) && (n <=? 57) then Some (n - 48) else None.

Definition is_digit (c : char16) : bool :=
  match digit_of_char c with Some _ => true | None => false end.

(** [pad w n]: the [w] low decimal digits of [n], most significant first (the
    zero-padded fields of [toISOString]). *)
Fixpoint pad (w : nat) (n : Z) : text :=
  match w with
  | O => []
  | S w' => digit_char (n / 10 ^ Z.of_nat w' mod 10) :: pad w' n
  end.

(** Number of decimal digits of a natural number, at least one. *)
Fixpoint ndigits_fuel (fuel : nat) (n : Z) : nat :=
  match fuel with
  | O => 1%nat
  | S f => if n <? 10 then 1%nat else S (ndigits_fuel f (n / 10))
  end.

Definition ndigits (n : Z) : nat := ndigits_fuel (Z.to_nat (Z.log2 n)) n.

(** The decimal text of an integer, with a minus sign when it is negative. *)
Definition Z_to_string (z : Z) : text :=
  if z <? 0 then char_of_code 45 :: pad (ndigits (- z)) (- z) else pad (ndigits z) z.

(** Reads exactly [w] decimal digits. *)
Fixpoint read_fixed (w : nat) (s : text) : option (Z * text) :=
  match w with
  | O => Some (0, s)
  | S w' =>
      match s with
      | c :: r =>
          match digit_of_char c, read_fixed w' r with
          | Some d, Some (m, rest) => Some (d * 10 ^ Z.of_nat w' + m, rest)
          | _, _ => None
          end
      | [] => None
      end
  end.

(** Reads decimal digits as long as there are some. *)
Fixpoint read_digits (s : text) (acc : Z) : Z * text :=
  match s with
  | c :: r =>
      match digit_of_char c with
      | Some d => read_digits r (acc * 10 + d)
      | None => (acc, s)
      end
  | [] => (acc, s)
  end.

(** [s.split(".")[0]]: the text before the first dot, all of [s] when it has
    no dot. *)
Fixpoint split_dot_head (s : text) : text :=
  match s with
  | [] => []
  | c :: r => if code c =? 46 then [] else c :: split_dot_head r
  end.

(** [Array.prototype.join]. *)
Fixpoint join (sep : text) (l : list text) : text :=
  match l with
  | [] => []
  | [x] => x
  | x :: r => x ++ sep ++ join sep r
  end.

(** ** Dates

    A time value is a number of milliseconds since 1970-01-01T00:00:00Z; an
    invalid date (time value NaN) is [None]. *)

Definition msPerDay : Z := 86400000.
Definition maxTime : Z := 8640000000000000.

Definition is_leap (y : Z) : bool :=
  (y mod 4 =? 0) && (negb (y mod 100 =? 0) || (y mod 400 =? 0)).

Definition days_in_month (y m : Z) : Z :=
  if m =? 2 then (if is_leap y then 29 else 28)
  else if (m =? 4) || (m =? 6) || (m =? 9) || (m =? 11) then 30
  else 31.

(** Day number (days since the epoch) of a calendar date of the proleptic
    Gregorian calendar, and back.  The year is counted from March, so that the
    leap day is the last day of the counted year; 146097 is the number of days
    of 400 years, 719468 the day number of 0000-03-01 taken negative. *)
Definition days_from_civil (y m d : Z) : Z :=
  let y' := if m <=? 2 then y - 1 else y in
  let era := y' / 400 in
  let yoe := y' - era * 400 in
  let mp := if 2 <? m then m - 3 else m + 9 in
  let doy := (153 * mp + 2) / 5 + d - 1 in
  let doe := yoe * 365 + yoe / 4 - yoe / 100 + doy in
  era * 146097 + doe - 719468.

Definition civil_from_days (z : Z) : Z * Z * Z :=
  let z' := z + 719468 in
  let era := z' / 146097 in
  let doe := z' - era * 146097 in
  let yoe := (doe - doe / 1460 + doe / 36524 - doe / 146096) / 365 in
  let doy := doe - (365 * yoe + yoe / 4 - yoe / 100) in
  let mp := (5 * doy + 2) / 153 in
  let d := doy - (153 * mp + 2) / 5 + 1 in
  let m := if mp <? 10 then mp + 3 else mp - 9 in
  (yoe + era * 400 + (if m <=? 2 then 1 else 0), m, d).

(** The year field of [toISOString]: four digits for the years 0..9999, a
    sign and six digits for the others. *)
Definition year_string (y : Z) : text :=
  if (0 <=? y) && (y <=? 9999) then pad 4 y
  else char_of_code (if y <? 0 then 45 else 43) :: pad 6 (Z.abs y).

(** [Date.prototype.toISOString] on a valid time value. *)
Definition iso_string (t : Z) : text :=
  let '(y, m, d) := civil_from_days (t / msPerDay) in
  let tod := t mod msPerDay in
  year_string y ++ txt "-" ++ pad 2 m ++ txt "-" ++ pad 2 d ++ txt "T"
    ++ pad 2 (tod / 3600000) ++ txt ":" ++ pad 2 (tod / 60000 mod 60) ++ txt ":"
    ++ pad 2 (tod / 1000 mod 60) ++ txt "." ++ pad 3 (tod mod 1000) ++ txt "Z".

(** The part of [Date.parse] on which every engine agrees and which the
    program itself produces: the complete UTC form of the date-time string
    format, [YYYY-MM-DDTHH:mm:ssZ] or [YYYY-MM-DDTHH:mm:ss.sssZ], the year
    either of four digits or signed with six ("-000000" is not a year), and
    every field in its calendar range.  [None] means that the text is not of
    this form, not that the date is invalid. *)
Definition read_year (s : text) : option (Z * text) :=
  match s with
  | c :: r =>
      if code c =? 43 then read_fixed 6 r
      else if code c =? 45 then
        match read_fixed 6 r with
        | Some (y, r') => if y =? 0 then None else Some (- y, r')
        | None => None
        end
      else read_fixed 4 s
  | [] => None
  end.

Definition expect (n : Z) (s : text) : option text :=
  match s with
  | c :: r => if code c =? n then Some r else None
  | [] => None
  end.

Definition read_millis (s : text) : option Z :=
  match s with
  | c :: r =>
      if code c =? 90 then match r with [] => Some 0 | _ => None end
      else if code c =? 46 then
        match read_fixed 3 r with
        | Some (ms, [z]) => if code z =? 90 then Some ms else None
        | _ => None
        end
      else None
  | [] => None
  end.

Definition utc_date_time (s : text) : option Z :=
  match read_year s with
  | Some (y, s1) =>
  match expect 45 s1 with Some s2 =>
  match read_fixed 2 s2 with Some (m, s3) =>
  match expect 45 s3 with Some s4 =>
  match read_fixed 2 s4 with Some (d, s5) =>
  match expect 84 s5 with Some s6 =>
  match read_fixed 2 s6 with Some (hh, s7) =>
  match expect 58 s7 with Some s8 =>
  match read_fixed 2 s8 with Some (mi, s9) =>
  match expect 58 s9 with Some s10 =>
  match read_fixed 2 s10 with Some (ss, s11) =>
  match read_millis s11 with Some ms =>
    if (1 <=? m) && (m <=? 12) && (1 <=? d) && (d <=? days_in_month y m)
       && (hh <=? 23) && (mi <=? 59) && (ss <=? 59)
    then Some (days_from_civil y m d * msPerDay
               + hh * 3600000 + mi * 60000 + ss * 1000 + ms)
    else None
  | None => None end | None => None end | None => None end
  | None => None end | None => None end | None => None end
  | None => None end | None => None end | None => None end
  | None => None end | None => None end
  | None => None
  end.

Definition TimeClip (t : Z) : option Z :=
  if (- maxTime <=? t) && (t <=? maxTime) then Some t else None.

(** ** Numbers

    A JavaScript number is an IEEE 754 binary64 value.  A finite number other
    than zero is [m * 2 ^ e] with an odd [m] below [2 ^ 53], [e] at least
    [-1074] and the product below [2 ^ 1024]; the odd mantissa makes the
    pair unique. *)
Inductive number : Type :=
| Zero (negative : bool)
| Finite (negative : bool) (m : positive) (e : Z)
| Infinite (negative : bool)
| NaN.

Definition odd_mantissa (m : positive) : bool :=
  match m with
  | xO _ => false
  | _ => true
  end.

Definition number_ok (x : number) : bool :=
  match x with
  | Finite _ m e =>
      odd_mantissa m && (Z.pos m <? 2 ^ 53) && (-1074 <=? e)
      && (e + Z.log2 (Z.pos m) + 1 <=? 1024)
  | _ => true
  end.

Definition number_eqb (x y : number) : bool :=
  match x, y with
  | Zero a, Zero b => Bool.eqb a b
  | Finite a m e, Finite b m' e' => Bool.eqb a b && Pos.eqb m m' && (e =? e')
  | Infinite a, Infinite b => Bool.eqb a b
  | NaN, NaN => true
  | _, _ => false
  end.

Fixpoint normalize (m : positive) (e : Z) : positive * Z :=
  match m with
  | xO p => normalize p (e + 1)
  | _ => (m, e)
  end.

(** The number nearest to the rational [N / M] ([N] and [M] positive), the
    one with the even mantissa when two are as near.  In units of
    [2 ^ -1074], the least positive number, the rational is
    [N * 2 ^ 1074 / M]; the result is an integer count [q] of units
    [2 ^ u] of these, where the unit leaves 53 bits of the integer part.
    Past the largest number the result is infinite, below half of the least
    it is zero. *)
Definition round_ratio (negative : bool) (N M : Z) : number :=
  let N' := N * 2 ^ 1074 in
  let u := Z.max (Z.log2 (N' / M) - 52) 0 in
  let den := M * 2 ^ u in
  let '(q, r) := Z.div_eucl N' den in
  let q' := if (den <? 2 * r) || ((den =? 2 * r) && Z.odd q) then q + 1 else q in
  match q' with
  | Zpos p =>
      let '(m, e) := normalize p (u - 1074) in
      if e + Z.log2 (Z.pos m) + 1 <=? 1024 then Finite negative m e
      else Infinite negative
  | _ => Zero negative
  end.

(** The number of the decimal [D * 10 ^ E], [D] a natural number (the
    mathematical value of a numeric literal, rounded). *)
Definition of_decimal (negative : bool) (D E : Z) : number :=
  if D <=? 0 then Zero negative
  else if 0 <=? E then round_ratio negative (D * 10 ^ E) 1
  else round_ratio negative D (10 ^ (- E)).

Definition number_of_Z (z : Z) : number :=
  of_decimal (z <? 0) (Z.abs z) 0.

(** [ToIntegerOrInfinity] on a finite number: the fraction is cut off. *)
Definition trunc (x : number) : option Z :=
  match x with
  | Zero _ => Some 0
  | Finite s m e =>
      let a := if 0 <=? e then Z.pos m * 2 ^ e else Z.pos m / 2 ^ (- e) in
      Some (if s then - a else a)
  | Infinite _ | NaN => None
  end.

(** *** Number::toString

    For a positive finite [x] the digits are the integers [n], [k] and [s]
    with [k >= 1], [10 ^ (k - 1) <= s < 10 ^ k], [s * 10 ^ (n - k)] a
    decimal that reads as [x], and [k] as small as possible; of two such [s]
    the one nearer to [x] is taken. *)

(** The [n] with [10 ^ (n - 1) <= vn / vd < 10 ^ n]. *)
Fixpoint leading_zeros (fuel : nat) (vn vd : Z) : Z :=
  match fuel with
  | O => 0
  | S f => if vd <=? vn * 10 then 0 else 1 + leading_zeros f (vn * 10) vd
  end.

Definition magnitude (vn vd : Z) : Z :=
  if vd <=? vn then Z.of_nat (ndigits (vn / vd))
  else - leading_zeros 400 vn vd.

(** The decimal of the digits [s] with the point after [n] places reads as
    [x]. *)
Definition reads_as (x : number) (s n : Z) : bool :=
  number_eqb (of_decimal false s (n - Z.of_nat (ndigits s))) x.

(** The digits of [k] places, if there are any. *)
Definition digits_of_length (x : number) (vn vd n0 k : Z) : option (Z * Z) :=
  let p := n0 - k in
  let tn := if 0 <=? p then vn else vn * 10 ^ (- p) in
  let td := if 0 <=? p then vd * 10 ^ p else vd in
  let lo := (tn / td, n0) in
  let hi := if tn / td + 1 =? 10 ^ k then (10 ^ (k - 1), n0 + 1)
            else (tn / td + 1, n0) in
  let r := tn mod td in
  let lo_first := (2 * r <? td) || ((2 * r =? td) && Z.even (tn / td)) in
  let first := if lo_first then lo else hi in
  let second := if lo_first then hi else lo in
  if reads_as x (fst first) (snd first) then Some first
  else if reads_as x (fst second) (snd second) then Some second
  else None.

(** The decimal expansion of [m * 2 ^ e] in full. *)
Definition exact_digits (m : positive) (e : Z) : Z * Z :=
  if 0 <=? e then
    let s := Z.pos m * 2 ^ e in (s, Z.of_nat (ndigits s))
  else
    let s := Z.pos m * 5 ^ (- e) in (s, Z.of_nat (ndigits s) + e).

(** Seventeen places are enough for every number; should the search end
    without digits, the full expansion is what is left. *)
Fixpoint shortest_digits (fuel : nat) (x : number) (m : positive) (e : Z)
    (vn vd n0 k : Z) : Z * Z :=
  match fuel with
  | O => exact_digits m e
  | S f =>
      match digits_of_length x vn vd n0 k with
      | Some sn => sn
      | None => shortest_digits f x m e vn vd n0 (k + 1)
      end
  end.

Definition digits (m : positive) (e : Z) : Z * Z :=
  let vn := if 0 <=? e then Z.pos m * 2 ^ e else Z.pos m in
  let vd := if 0 <=? e then 1 else 2 ^ (- e) in
  shortest_digits 17 (Finite false m e) m e vn vd (magnitude vn vd) 1.

Definition zeros (n : Z) : text := pad (Z.to_nat n) 0.

(** The text of the digits [s] with the decimal point after [n] places. *)
Definition layout (s n : Z) : text :=
  let k := ndigits s in
  let kz := Z.of_nat k in
  if (kz <=? n) && (n <=? 21) then pad k s ++ zeros (n - kz)
  else if (0 <? n) && (n <=? 21) then
    pad (Z.to_nat n) (s / 10 ^ (kz - n)) ++ txt "." ++ pad (Z.to_nat (kz - n)) s
  else if (-6 <? n) && (n <=? 0) then
    txt "0." ++ zeros (- n) ++ pad k s
  else
    let exponent :=
      txt "e" ++ (if 0 <=? n - 1 then txt "+" else txt "-")
        ++ pad (ndigits (Z.abs (n - 1))) (Z.abs (n - 1)) in
    if kz =? 1 then pad k s ++ exponent
    else pad 1 (s / 10 ^ (kz - 1)) ++ txt "." ++ pad (k - 1) s ++ exponent.

Definition number_to_string (x : number) : text :=
  match x with
  | NaN => txt "NaN"
  | Zero _ => txt "0"
  | Infinite s => if s then txt "-Infinity" else txt "Infinity"
  | Finite s m e =>
      let '(d, n) := digits m e in
      (if s then txt "-" else []) ++ layout d n
  end.

(** ** Values, thrown values and outcomes *)

(** The values that reach the program: what [JSON.parse] builds, and
    [undefined]. *)
Unset Elimination Schemes.
Inductive value : Type :=
| VUndefined
| VNull
| VBool (b : bool)
| VNum (x : number)
| VStr (s : text)
| VArr (xs : list value)
| VObj (ps : list (text * value)).
Set Elimination Schemes.

(** Induction on a value with the hypothesis on every element of an array
    and on every property value of an object. *)
Section ValueInduction.
Variable P : value -> Prop.
Hypothesis Hundefined : P VUndefined.
Hypothesis Hnull : P VNull.
Hypothesis Hbool : forall b, P (VBool b).
Hypothesis Hnum : forall x, P (VNum x).
Hypothesis Hstr : forall s, P (VStr s).
Hypothesis Harr : forall xs, Forall P xs -> P (VArr xs).
Hypothesis Hobj : forall ps, Forall (fun kv => P (snd kv)) ps -> P (VObj ps).

Fixpoint value_ind (v : value) : P v :=
  match v with
  | VUndefined => Hundefined
  | VNull => Hnull
  | VBool b => Hbool b
  | VNum x => Hnum x
  | VStr s => Hstr s
  | VArr xs =>
      Harr xs ((fix each (l : list value) : Forall P l :=
                  match l with
                  | [] => Forall_nil P
                  | x :: r => Forall_cons x (value_ind x) (each r)
                  end) xs)
  | VObj ps =>
      Hobj ps ((fix each (l : list (text * value))
                  : Forall (fun kv => P (snd kv)) l :=
                  match l with
                  | [] => Forall_nil _
                  | kv :: r => Forall_cons kv (value_ind (snd kv)) (each r)
                  end) ps)
  end.
End ValueInduction.

(** The two members of the SDK's [PipeResponseCodes] that the code names. *)
Inductive PipeResponseCode : Type := OK | INTERNAL_SERVER_ERROR.

(** What [fetch] or the read of a body rejects with on a transport failure
    (network error, abort by the timeout signal); [failure_cause] is the text
    that [error.cause] gives inside a template literal. *)
Record fetch_failure : Type := {
  failure_name : text;
  failure_message : text;
  failure_cause : text
}.

(** What a function of the program can throw: the SDK's [PipeError] with its
    response code and its payload, the errors of the run time, a plain
    [Error] with its message, and a transport failure passed on as it is. *)
Inductive thrown : Type :=
| PipeError (code : PipeResponseCode) (payload : value)
| SyntaxError
| TypeError
| RangeError
| PlainError (message : text)
| Rejected (e : fetch_failure).

Inductive outcome (A : Type) : Type :=
| Ok (a : A)
| Throw (e : thrown).
Arguments Ok {A} a.
Arguments Throw {A} e.

Definition obind {A B : Type} (m : outcome A) (f : A -> outcome B) : outcome B :=
  match m with
  | Ok a => f a
  | Throw e => Throw e
  end.

(** ** Plain objects

    The own properties of a plain object, in the order in which the language
    enumerates them: the array-index keys in ascending numeric order, then
    the other keys in the order of their creation. *)

Definition max_array_index : Z := 4294967294.

(** A key is an array index when it is the decimal text of an integer of
    0..2^32-2. *)
Definition array_index (k : text) : option Z :=
  let '(v, rest) := read_digits k 0 in
  if text_eqb rest [] && text_eqb (Z_to_string v) k && (v <=? max_array_index)
  then Some v else None.

Section Properties.
Context {A : Type}.

Fixpoint own (ps : list (text * A)) (k : text) : option A :=
  match ps with
  | [] => None
  | (k', v) :: r => if text_eqb k k' then Some v else own r k
  end.

Fixpoint replace (k : text) (v : A) (ps : list (text * A)) : list (text * A) :=
  match ps with
  | [] => []
  | (k', v') :: r =>
      if text_eqb k k' then (k', v) :: r else (k', v') :: replace k v r
  end.

Fixpoint insert_index (i : Z) (k : text) (v : A) (ps : list (text * A))
  : list (text * A) :=
  match ps with
  | [] => [(k, v)]
  | (k', v') :: r =>
      match array_index k' with
      | Some j => if i <? j then (k, v) :: ps else (k', v') :: insert_index i k v r
      | None => (k, v) :: ps
      end
  end.

(** [CreateDataProperty]: an existing property keeps its place and takes the
    new value, a new one goes to its place in the enumeration order. *)
Definition define (k : text) (v : A) (ps : list (text * A)) : list (text * A) :=
  match own ps k with
  | Some _ => replace k v ps
  | None =>
      match array_index k with
      | Some i => insert_index i k v ps
      | None => ps ++ [(k, v)]
      end
  end.

Definition define_all (kvs acc : list (text * A)) : list (text * A) :=
  fold_left (fun o kv => define (fst kv) (snd kv) o) kvs acc.
End Properties.

(** ** JSON.stringify *)

Definition dquote : char16 := char_of_code 34.
Definition backslash : char16 := char_of_code 92.

Definition hex_char (d : Z) : char16 :=
  if d <? 10 then digit_char d else char_of_code (87 + d).

Definition is_lead (c : char16) : bool := (55296 <=? code c) && (code c <=? 56319).
Definition is_trail (c : char16) : bool := (56320 <=? code c) && (code c <=? 57343).

(** [UnicodeEscape]: a backslash, "u" and four hexadecimal digits in lower
    case. *)
Definition unicode_escape (c : char16) : text :=
  let n := code c in
  [backslash; char_of_code 117; hex_char (n / 4096); hex_char (n / 256 mod 16);
   hex_char (n / 16 mod 16); hex_char (n mod 16)].

(** One code unit inside a JSON string literal ([QuoteJSONString]) when it
    is not half of a surrogate pair: the control characters and a surrogate
    on its own are written as escapes. *)
Definition quote_char (c : char16) : text :=
  let n := code c in
  if n =? 34 then [backslash; dquote]
  else if n =? 92 then [backslash; backslash]
  else if n =? 8 then [backslash; char_of_code 98]
  else if n =? 12 then [backslash; char_of_code 102]
  else if n =? 10 then [backslash; char_of_code 110]
  else if n =? 13 then [backslash; char_of_code 114]
  else if n =? 9 then [backslash; char_of_code 116]
  else if (n <? 32) || is_lead c || is_trail c then unicode_escape c
  else [c].

(** A leading surrogate with a trailing one after it is a code point of its
    own and is written as it is. *)
Fixpoint quote_chars (s : text) : text :=
  match s with
  | [] => []
  | c :: r =>
      match r with
      | d :: r' =>
          if is_lead c && is_trail d then c :: d :: quote_chars r'
          else quote_char c ++ quote_chars r
      | [] => quote_char c
      end
  end.

Definition quote (s : text) : text := dquote :: quote_chars s ++ [dquote].

(** [JSON.stringify(v)] with no replacer and no indentation; [None] is the
    [undefined] that it returns on [undefined].  Inside an array [undefined]
    is written as null, inside an object a property holding it is left out.
    A number that is not finite is written as null. *)
Definition number_text (x : number) : text :=
  match x with
  | Infinite _ | NaN => txt "null"
  | _ => number_to_string x
  end.

Fixpoint stringify (v : value) : option text :=
  match v with
  | VUndefined => None
  | VNull => Some (txt "null")
  | VBool b => Some (if b then txt "true" else txt "false")
  | VNum x => Some (number_text x)
  | VStr s => Some (quote s)
  | VArr xs =>
      Some (txt "[" ++ join (txt ",")
              (map (fun x => match stringify x with Some t => t | None => txt "null" end) xs)
            ++ txt "]")
  | VObj ps =>
      Some (txt "{" ++ join (txt ",")
              (flat_map (fun kv => match stringify (snd kv) with
                                   | Some t => [quote (fst kv) ++ txt ":" ++ t]
                                   | None => []
                                   end) ps)
            ++ txt "}")
  end.

Definition JSON_stringify (v : value) : option text := stringify v.

(** [JSON.stringify] of an array, which is always a text. *)
Definition stringify_array (xs : list value) : text :=
  txt "[" ++ join (txt ",")
    (map (fun x => match stringify x with Some t => t | None => txt "null" end) xs)
  ++ txt "]".

(** ** JSON.parse *)

Inductive parsed (A : Type) : Type :=
| POk (a : A) (rest : text)
| PSyntax
| PFuel.
Arguments POk {A} a rest.
Arguments PSyntax {A}.
Arguments PFuel {A}.

Definition pmap {A B : Type} (f : A -> B) (p : parsed A) : parsed B :=
  match p with
  | POk a rest => POk (f a) rest
  | PSyntax => PSyntax
  | PFuel => PFuel
  end.

Definition is_ws (c : char16) : bool :=
  let n := code c in (n =? 32) || (n =? 9) || (n =? 10) || (n =? 13).

Fixpoint skip_ws (s : text) : text :=
  match s with
  | c :: r => if is_ws c then skip_ws r else s
  | [] => s
  end.

Definition hex_value (c : char16) : option Z :=
  let n := code c in
  if (48 <=? n) && (n <=? 57) then Some (n - 48)
  else if (97 <=? n) && (n <=? 102) then Some (n - 87)
  else if (65 <=? n) && (n <=? 70) then Some (n - 55)
  else None.

(** The characters of a string literal after its opening quote, up to and
    with the closing quote. *)
Fixpoint parse_chars (s : text) : parsed text :=
  match s with
  | [] => PSyntax
  | c :: r =>
      if code c =? 34 then POk [] r
      else if code c =? 92 then
        match r with
        | [] => PSyntax
        | e :: r1 =>
            let n := code e in
            if n =? 34 then pmap (cons dquote) (parse_chars r1)
            else if n =? 92 then pmap (cons backslash) (parse_chars r1)
            else if n =? 47 then pmap (cons (char_of_code 47)) (parse_chars r1)
            else if n =? 98 then pmap (cons (char_of_code 8)) (parse_chars r1)
            else if n =? 102 then pmap (cons (char_of_code 12)) (parse_chars r1)
            else if n =? 110 then pmap (cons (char_of_code 10)) (parse_chars r1)
            else if n =? 114 then pmap (cons (char_of_code 13)) (parse_chars r1)
            else if n =? 116 then pmap (cons (char_of_code 9)) (parse_chars r1)
            else if n =? 117 then
              match r1 with
              | h1 :: h2 :: h3 :: h4 :: r2 =>
                  match hex_value h1, hex_value h2, hex_value h3, hex_value h4 with
                  | Some a, Some b, Some c', Some d =>
                      pmap (cons (char_of_code (((a * 16 + b) * 16 + c') * 16 + d)))
                        (parse_chars r2)
                  | _, _, _, _ => PSyntax
                  end
              | _ => PSyntax
              end
            else PSyntax
        end
      else if code c <? 32 then PSyntax
      else pmap (cons c) (parse_chars r)
  end.

(** Reads decimal digits as long as there are some, and counts them. *)
Fixpoint read_places (s : text) (acc places : Z) : Z * Z * text :=
  match s with
  | c :: r =>
      match digit_of_char c with
      | Some d => read_places r (acc * 10 + d) (places + 1)
      | None => (acc, places, s)
      end
  | [] => (acc, places, s)
  end.

Definition starts_with_digit (s : text) : bool :=
  match s with
  | c :: _ => is_digit c
  | [] => false
  end.

(** The fraction of a number literal, if there is one, after the integer
    part [i]: the digits of both as one natural number, and the number of
    places after the point.  [None]: a point with no digit after it. *)
Definition read_fraction (i : Z) (s : text) : option (Z * Z * text) :=
  match s with
  | c :: r =>
      if code c =? 46 then
        if starts_with_digit r then Some (read_places r i 0) else None
      else Some (i, 0, s)
  | [] => Some (i, 0, s)
  end.

Definition read_signed (negative : bool) (s : text) : option (Z * text) :=
  if starts_with_digit s then
    let '(v, rest) := read_digits s 0 in Some (if negative then - v else v, rest)
  else None.

(** The exponent part of a number literal, 0 if there is none.  [None]: an
    "e" or "E" with no digit after it and its sign. *)
Definition read_exponent (s : text) : option (Z * text) :=
  match s with
  | c :: r =>
      if (code c =? 101) || (code c =? 69) then
        match r with
        | g :: r' =>
            if code g =? 43 then read_signed false r'
            else if code g =? 45 then read_signed true r'
            else read_signed false r
        | [] => None
        end
      else Some (0, s)
  | [] => Some (0, s)
  end.

(** A number literal without its sign; [s] starts at its first character.
    The integer part is a single 0 or starts with another digit. *)
Definition parse_unsigned (negative : bool) (s : text) : parsed number :=
  match s with
  | [] => PSyntax
  | c :: r =>
      match digit_of_char c with
      | None => PSyntax
      | Some d =>
          let '(i, s1) := if d =? 0 then (0, r) else read_digits s 0 in
          match read_fraction i s1 with
          | None => PSyntax
          | Some (D, places, s2) =>
              match read_exponent s2 with
              | None => PSyntax
              | Some (X, s3) => POk (of_decimal negative D (X - places)) s3
              end
          end
      end
  end.

Definition parse_number (s : text) : parsed number :=
  match s with
  | c :: r => if code c =? 45 then parse_unsigned true r else parse_unsigned false s
  | [] => PSyntax
  end.

Fixpoint drop_prefix (w s : text) : option text :=
  match w with
  | [] => Some s
  | a :: w' =>
      match s with
      | b :: s' => if char_eqb a b then drop_prefix w' s' else None
      | [] => None
      end
  end.

Definition expect_word (w : text) (v : value) (s : text) : parsed value :=
  match drop_prefix w s with
  | Some rest => POk v rest
  | None => PSyntax
  end.

Fixpoint parse_value (fuel : nat) (s : text) {struct fuel} : parsed value :=
  match fuel with
  | O => PFuel
  | S f =>
      match skip_ws s with
      | [] => PSyntax
      | c :: r =>
          let n := code c in
          if n =? 123 then
            match skip_ws r with
            | c' :: r' =>
                if code c' =? 125 then POk (VObj []) r'
                else pmap (fun kvs => VObj (define_all kvs []))
                       (parse_members f (c' :: r'))
            | [] => PSyntax
            end
          else if n =? 91 then
            match skip_ws r with
            | c' :: r' =>
                if code c' =? 93 then POk (VArr []) r'
                else pmap VArr (parse_elements f (c' :: r'))
            | [] => PSyntax
            end
          else if n =? 34 then pmap VStr (parse_chars r)
          else if (n =? 45) || is_digit c then pmap VNum (parse_number (c :: r))
          else if n =? 116 then expect_word (txt "true") (VBool true) (c :: r)
          else if n =? 102 then expect_word (txt "false") (VBool false) (c :: r)
          else if n =? 110 then expect_word (txt "null") VNull (c :: r)
          else PSyntax
      end
  end
with parse_elements (fuel : nat) (s : text) {struct fuel} : parsed (list value) :=
  match fuel with
  | O => PFuel
  | S f =>
      match parse_value f s with
      | POk v rest =>
          match skip_ws rest with
          | c :: r =>
              if code c =? 44 then pmap (cons v) (parse_elements f r)
              else if code c =? 93 then POk [v] r
              else PSyntax
          | [] => PSyntax
          end
      | PSyntax => PSyntax
      | PFuel => PFuel
      end
  end
with parse_members (fuel : nat) (s : text) {struct fuel}
  : parsed (list (text * value)) :=
  match fuel with
  | O => PFuel
  | S f =>
      match skip_ws s with
      | q :: r =>
          if code q =? 34 then
            match parse_chars r with
            | POk k rest =>
                match skip_ws rest with
                | c :: r1 =>
                    if code c =? 58 then
                      match parse_value f r1 with
                      | POk v rest1 =>
                          match skip_ws rest1 with
                          | c2 :: r2 =>
                              if code c2 =? 44
                              then pmap (cons (k, v)) (parse_members f r2)
                              else if code c2 =? 125 then POk [(k, v)] r2
                              else PSyntax
                          | [] => PSyntax
                          end
                      | PSyntax => PSyntax
                      | PFuel => PFuel
                      end
                    else PSyntax
                | [] => PSyntax
                end
            | PSyntax => PSyntax
            | PFuel => PFuel
            end
          else PSyntax
      | [] => PSyntax
      end
  end.

(** [JSON.parse(s)]: one value, white space around it, nothing else.  Each
    level of nesting takes two units of fuel and at least one character, so
    a fuel of twice the length of the text and two is never used up
    ([parse_value_fuel] below): the last case does not occur. *)
Definition parse_fuel (s : text) : nat := S (S (List.length s + List.length s)).

Definition JSON_parse (s : text) : outcome value :=
  match parse_value (parse_fuel s) s with
  | POk v rest => if text_eqb (skip_ws rest) [] then Ok v else Throw SyntaxError
  | PSyntax => Throw SyntaxError
  | PFuel => Throw SyntaxError
  end.

(** ** The operations of the language that the program uses *)

Definition typeof (v : value) : text :=
  match v with
  | VUndefined => (txt "undefined")
  | VNull => (txt "object")
  | VBool _ => (txt "boolean")
  | VNum _ => (txt "number")
  | VStr _ => (txt "string")
  | VArr _ => (txt "object")
  | VObj _ => (txt "object")
  end.

(** [ToBoolean]. *)
Definition truthy (v : value) : bool :=
  match v with
  | VUndefined | VNull => false
  | VBool b => b
  | VNum (Zero _) | VNum NaN => false
  | VNum _ => true
  | VStr s => negb (text_eqb s [])
  | VArr _ | VObj _ => true
  end.

Fixpoint chars (s : text) : list value :=
  match s with
  | [] => []
  | c :: r => VStr [c] :: chars r
  end.

Definition element (xs : list value) (k : text) : value :=
  match array_index k with
  | Some i => nth (Z.to_nat i) xs VUndefined
  | None => if text_eqb k (txt "length")
            then VNum (number_of_Z (Z.of_nat (List.length xs)))
            else VUndefined
  end.

(** [v[k]] and [v.k]: reading a property of [undefined] or [null] throws.
    The properties that a value inherits from its prototype are methods and
    the like; the program reads the keys "params", "Number of Predictions",
    "value" and "kickoffTime", none of which is inherited, so an own
    property or [undefined] is what it gets. *)
Definition get (v : value) (k : text) : outcome value :=
  match v with
  | VUndefined | VNull => Throw TypeError
  | VBool _ | VNum _ => Ok VUndefined
  | VStr s => Ok (element (chars s) k)
  | VArr xs => Ok (element xs k)
  | VObj ps => Ok (match own ps k with Some x => x | None => VUndefined end)
  end.

Fixpoint indexed (i : Z) (xs : list value) : list (text * value) :=
  match xs with
  | [] => []
  | x :: r => (Z_to_string i, x) :: indexed (i + 1) r
  end.

(** [{...v}]: a new object with the own enumerable properties of [v], each
    created by [CreateDataProperty] in enumeration order. *)
Definition spread (v : value) : list (text * value) :=
  match v with
  | VObj ps => define_all ps []
  | VArr xs => define_all (indexed 0 xs) []
  | VStr s => define_all (indexed 0 (chars s)) []
  | VUndefined | VNull | VBool _ | VNum _ => []
  end.

(** [ToString] of a value.  An object built by [JSON.parse] has no callable
    property of its own: with an own "toString" the conversion finds nothing
    to call and throws, without one it reaches [Object.prototype.toString].
    An array is joined with commas, [undefined] and [null] giving the empty
    text. *)
Fixpoint to_text (v : value) : outcome text :=
  match v with
  | VUndefined => Ok (txt "undefined")
  | VNull => Ok (txt "null")
  | VBool b => Ok (if b then (txt "true") else (txt "false"))
  | VNum x => Ok (number_to_string x)
  | VStr s => Ok s
  | VArr xs =>
      obind
        ((fix each (l : list value) : outcome (list text) :=
            match l with
            | [] => Ok []
            | x :: r =>
                obind (match x with
                       | VUndefined | VNull => Ok []
                       | _ => to_text x
                       end)
                  (fun t => obind (each r) (fun ts => Ok (t :: ts)))
            end) xs)
        (fun ts => Ok (join (txt ",") ts))
  | VObj ps =>
      match own ps (txt "toString") with
      | Some _ => Throw TypeError
      | None => Ok (txt "[object Object]")
      end
  end.

(** What the program runs in: the answer of the engine's [Date.parse] on a
    text that is not of the form of [utc_date_time] (the language leaves it
    to the engine, and a form without "Z" depends on the local time zone),
    and the reply of the network to a request. *)
Record response : Type := {
  status : Z;
  body : text + fetch_failure
}.

Record request : Type := {
  req_url : text;
  req_method : text;
  req_headers : list (text * text);
  req_body : text;
  req_timeout : Z
}.

Record world : Type := {
  date_fallback : text -> option Z;
  fetch_reply : request -> response + fetch_failure
}.

Definition Date_parse (w : world) (s : text) : option Z :=
  match utc_date_time s with
  | Some t => Some t
  | None => date_fallback w s
  end.

Definition clip (t : option Z) : option Z :=
  match t with
  | Some z => TimeClip z
  | None => None
  end.

(** [new Date(v)]: the time value of the date, [None] for an invalid date. *)
Definition new_Date (w : world) (v : value) : outcome (option Z) :=
  match v with
  | VUndefined => Ok None
  | VNull => Ok (TimeClip 0)
  | VBool b => Ok (TimeClip (if b then 1 else 0))
  | VNum x => Ok (clip (trunc x))
  | VStr s => Ok (clip (Date_parse w s))
  | VArr _ | VObj _ => obind (to_text v) (fun s => Ok (clip (Date_parse w s)))
  end.

(** [d.toISOString()] throws a [RangeError] on an invalid date. *)
Definition toISOString (d : option Z) : outcome text :=
  match d with
  | Some t => Ok (iso_string t)
  | None => Throw RangeError
  end.

Fixpoint map_outcome {A B : Type} (f : A -> outcome B) (l : list A) : outcome (list B) :=
  match l with
  | [] => Ok []
  | x :: r => obind (f x) (fun y => obind (map_outcome f r) (fun ys => Ok (y :: ys)))
  end.

(** [v.map(f)] on a value that [JSON.parse] built: only an array has a
    callable "map". *)
Definition array_map (f : value -> outcome value) (v : value)
  : outcome (list value) :=
  match v with
  | VArr xs => map_outcome f xs
  | _ => Throw TypeError
  end.

(** ** Traces *)

Inductive level : Type := LevelDebug | LevelError.

Inductive event : Type :=
| Fetch (r : request)
| Log (l : level) (message : text).

Definition M (A : Type) : Type := (list event * outcome A)%type.

Definition ret {A : Type} (a : A) : M A := ([], Ok a).
Definition throw {A : Type} (e : thrown) : M A := ([], Throw e).
Definition lift {A : Type} (o : outcome A) : M A := ([], o).
Definition emit (e : event) : M unit := ([e], Ok tt).

Definition bind {A B : Type} (m : M A) (f : A -> M B) : M B :=
  match m with
  | (t, Ok a) => let '(t', r) := f a in ((t ++ t')%list, r)
  | (t, Throw e) => (t, Throw e)
  end.

(** [promise.catch(handler)]. *)
Definition catch {A : Type} (m : M A) (handler : thrown -> M A) : M A :=
  match m with
  | (t, Throw e) => let '(t', r) := handler e in ((t ++ t')%list, r)
  | _ => m
  end.

Notation "x <- m ;; k" := (bind m (fun x => k))
  (at level 61, m at next level, right associativity).
Notation "m ;;; k" := (bind m (fun _ => k))
  (at level 61, right associativity).

Definition fetch (w : world) (r : request) : M response :=
  ([Fetch r],
   match fetch_reply w r with
   | inl resp => Ok resp
   | inr e => Throw (Rejected e)
   end).

Definition response_ok (r : response) : bool :=
  (200 <=? status r) && (status r <=? 299).

(** [response.text()] and [response.json()]. *)
Definition response_text (r : response) : outcome text :=
  match body r with
  | inl s => Ok s
  | inr e => Throw (Rejected e)
  end.

Definition response_json (r : response) : outcome value :=
  obind (response_text r) JSON_parse.

(** [p.catch(() => placeholder)] on a body read. *)
Definition text_or (placeholder : text) (o : outcome text) : outcome text :=
  match o with
  | Throw _ => Ok placeholder
  | _ => o
  end.

(** ** src/protocol/utils.ts *)

(** Modelled from the spec: [ensureError] ([@/utils/ensure-error]) is not
    among the sources; the spec has the error "logged at debug level with its
    cause".  This is the text that [error.cause] gives in the log line. *)
Definition error_cause_text (err : thrown) : text :=
  match err with
  | Rejected e => failure_cause e
  | _ => (txt "undefined")
  end.

Definition prediction_request (url apiKey challenges : text) : request :=
  {| req_url := url;
     req_method := (txt "POST");
     req_headers := [((txt "Content-Type"), (txt "application/json"));
                     ((txt "Authorization"), (txt "Bearer ") ++ apiKey)];
     req_body := challenges;
     req_timeout := 120000 |}.

Definition prediction_failed : thrown :=
  PipeError INTERNAL_SERVER_ERROR
    (VObj [((txt "predictions"), VStr []); ((txt "message"), VStr (txt "Prediction is failed"))]).

Definition makePredictionRequest (w : world) (url apiKey challenges : text)
  : M value :=
  response <- catch (fetch w (prediction_request url apiKey challenges))
                (fun err =>
                   emit (Log LevelDebug ((txt "Fetch error cause: ") ++ error_cause_text err)) ;;;
                   throw err) ;;
  if negb (response_ok response) then
    text <- lift (text_or (txt "[body not available]") (response_text response)) ;;
    emit (Log LevelError ((txt "API call to ") ++ url ++ (txt " failed with status ")
                          ++ Z_to_string (status response) ++ (txt ": ") ++ text)) ;;;
    throw prediction_failed
  else
    text <- lift (text_or (txt "[not available]") (response_text response)) ;;
    emit (Log LevelDebug ((txt "Response got from ") ++ url ++ (txt ": ") ++ text)) ;;;
    lift (response_json response).

(** ** src/protocol/gateway-provider.ts *)

Record configuration : Type := {
  apiBaseURL : text;
  apiKey : text
}.

Record Agreement : Type := { offerId : Z }.

Inductive DeploymentStatus : Type :=
| Running | Deploying | Closed | Unknown | Failed.

Record ScorePredictionResourceDetails : Type := {
  details_status : DeploymentStatus;
  Predictions_Allowance_Count : value;
  Predictions_Count : Z
}.

Record Resource : Type := {
  deploymentStatus : DeploymentStatus;
  resource_details : ScorePredictionResourceDetails
}.

Record DetailedOffer : Type := { details : value }.

(** The provider object: [this.protocol.address], and
    [getVirtualProviderConfiguration] of the base class, which the program
    uses as a lookup that finds a configuration or none. *)
Record provider : Type := {
  protocol_address : text;
  getVirtualProviderConfiguration : Z -> text -> option configuration
}.

(** The result of [predictFixtureResults]; [predictions] is what
    [JSON.stringify] returned, a text or [undefined] ([None]). *)
Record prediction_result : Type := {
  predictions : option text;
  responseCode : PipeResponseCode
}.

Definition configuration_missing : thrown :=
  PipeError INTERNAL_SERVER_ERROR
    (VObj [((txt "message"), VStr (txt "Configuration of the Offer is not found"))]).

(** The body of the callback of [objChallenges.map]. *)
Definition without_milliseconds (w : world) (challenge : value) : outcome value :=
  let copy := spread challenge in
  obind (get challenge (txt "kickoffTime")) (fun kickoffTime =>
  obind (new_Date w kickoffTime) (fun date =>
  obind (toISOString date) (fun iso =>
  Ok (VObj (define (txt "kickoffTime") (VStr (split_dot_head iso ++ (txt "Z"))) copy))))).

(** Lines 79 to 89: the text handed to the downstream API. *)
Definition challengesToPredict (w : world) (challenges : text) : outcome text :=
  obind (JSON_parse challenges) (fun objChallenges =>
  obind (array_map (without_milliseconds w) objChallenges) (fun rewritten =>
  Ok (stringify_array rewritten))).

Definition predictFixtureResults (w : world) (this : provider)
    (agreement : Agreement) (resource : Resource) (challenges : text)
  : M prediction_result :=
  match getVirtualProviderConfiguration this (offerId agreement) (protocol_address this) with
  | None => throw configuration_missing
  | Some configuration =>
      body <- lift (challengesToPredict w challenges) ;;
      apiResponse <- makePredictionRequest w (apiBaseURL configuration)
                       (apiKey configuration) body ;;
      ret {| predictions := JSON_stringify apiResponse; responseCode := OK |}
  end.

Definition invalid_offer_details : thrown := PlainError (txt "Invalid offer details").

(** [offer.details?.params["Number of Predictions"]]: the optional chain
    stops the whole expression on [undefined] and [null]. *)
Definition number_of_predictions_entry (d : value) : outcome value :=
  match d with
  | VUndefined | VNull => Ok VUndefined
  | _ => obind (get d (txt "params")) (fun params => get params (txt "Number of Predictions"))
  end.

Definition optional_get (v : value) (k : text) : outcome value :=
  match v with
  | VUndefined | VNull => Ok VUndefined
  | _ => get v k
  end.

Definition create (agreement : Agreement) (offer : DetailedOffer)
  : outcome ScorePredictionResourceDetails :=
  if text_eqb (typeof (details offer)) (txt "object") then
    obind (number_of_predictions_entry (details offer)) (fun entry =>
    obind (optional_get entry (txt "value")) (fun v =>
    let numberOfPredictions := if truthy v then v else VNum (Zero false) in
    Ok {| details_status := Running;
          Predictions_Allowance_Count := numberOfPredictions;
          Predictions_Count := 0 |}))
  else Throw invalid_offer_details.

Definition getDetails (agreement : Agreement) (offer : DetailedOffer)
    (resource : Resource) : outcome ScorePredictionResourceDetails :=
  Ok {| details_status := deploymentStatus resource;
        Predictions_Allowance_Count :=
          Predictions_Allowance_Count (resource_details resource);
        Predictions_Count := Predictions_Count (resource_details resource) |}.

Definition delete (agreement : Agreement) (offer : DetailedOffer)
    (resource : Resource) : outcome unit := Ok tt.

(** ** Predicates of the statements *)

(** The requests of a trace, in order. *)
Fixpoint requests (t : list event) : list request :=
  match t with
  | [] => []
  | Fetch r :: t' => r :: requests t'
  | Log _ _ :: t' => requests t'
  end.

(** A challenge record as the data model has it: an object whose
    "kickoffTime" is a text that makes a valid date. *)
Definition valid_record (w : world) (x : value) : bool :=
  match x with
  | VObj ps =>
      match own ps (txt "kickoffTime") with
      | Some (VStr t) =>
          match clip (Date_parse w t) with Some _ => true | None => false end
      | _ => false
      end
  | _ => false
  end.

Definition valid_challenges (w : world) (challenges : text) : bool :=
  match JSON_parse challenges with
  | Ok (VArr xs) => forallb (valid_record w) xs
  | _ => false
  end.

(** An element on which the callback of [map] returns: reading its
    "kickoffTime" does not throw and what is read makes a valid date. *)
Definition dated (w : world) (x : value) : bool :=
  match obind (get x (txt "kickoffTime")) (new_Date w) with
  | Ok (Some _) => true
  | _ => false
  end.

(** Text patterns: a digit, or a given character. *)
Inductive slot : Type := Digit | Lit (n : Z).

Fixpoint matches (p : list slot) (s : text) : bool :=
  match p, s with
  | [], [] => true
  | Digit :: p', c :: s' => is_digit c && matches p' s'
  | Lit n :: p', c :: s' => (code c =? n) && matches p' s'
  | _, _ => false
  end.

Definition time_pattern : list slot :=
  [Lit 45; Digit; Digit; Lit 45; Digit; Digit; Lit 84; Digit; Digit;
   Lit 58; Digit; Digit; Lit 58; Digit; Digit; Lit 90].

(** YYYY-MM-DDTHH:MM:SSZ *)
Definition seconds_pattern : list slot :=
  [Digit; Digit; Digit; Digit] ++ time_pattern.

(** The same with a signed year of six digits. *)
Definition long_year_pattern (sign : Z) : list slot :=
  Lit sign :: [Digit; Digit; Digit; Digit; Digit; Digit] ++ time_pattern.

Definition whole_seconds_utc (s : text) : bool :=
  matches seconds_pattern s
  || matches (long_year_pattern 43) s
  || matches (long_year_pattern 45) s.

(** The values that [JSON.parse] builds: no [undefined], no NaN, every
    number a binary64, objects with their keys distinct and in enumeration
    order. *)
Fixpoint plain_keys (ks : list text) : bool :=
  match ks with
  | [] => true
  | k :: r =>
      match array_index k with
      | Some _ => false
      | None => negb (existsb (text_eqb k) r) && plain_keys r
      end
  end.

Fixpoint ordered_from (lo : Z) (ks : list text) : bool :=
  match ks with
  | [] => true
  | k :: r =>
      match array_index k with
      | Some i => (lo <=? i) && ordered_from (i + 1) r
      | None => plain_keys ks
      end
  end.

Definition ordered {A : Type} (ps : list (text * A)) : bool :=
  ordered_from 0 (map fst ps).

Fixpoint json_value (v : value) : bool :=
  match v with
  | VUndefined => false
  | VNull | VBool _ | VStr _ => true
  | VNum NaN => false
  | VNum x => number_ok x
  | VArr xs => forallb json_value xs
  | VObj ps => ordered ps && forallb (fun kv => json_value (snd kv)) ps
  end.

(** Fuel that [parse_value] needs on the text of a value. *)
Fixpoint size (v : value) : nat :=
  match v with
  | VArr xs => S (fold_right (fun x n => S (size x + n)) O xs)
  | VObj ps => S (fold_right (fun kv n => S (size (snd kv) + n)) O ps)
  | _ => 1
  end.


(** What [JSON.parse] reads back from the text that [JSON.stringify] wrote
    for a value: an infinite number was written as null, and zero without its
    sign. *)
Fixpoint settle (v : value) : value :=
  match v with
  | VNum (Infinite _) | VNum NaN => VNull
  | VNum (Zero _) => VNum (Zero false)
  | VArr xs => VArr (map settle xs)
  | VObj ps => VObj (map (fun kv => (fst kv, settle (snd kv))) ps)
  | _ => v
  end.

(** ** Definitions of the proofs and of the statements *)

(** What [toISOString] writes before its dot. *)
Definition iso_seconds (t : Z) : text :=
  let '(y, m, d) := civil_from_days (t / msPerDay) in
  let tod := t mod msPerDay in
  year_string y ++ (txt "-") ++ pad 2 m ++ (txt "-") ++ pad 2 d ++ (txt "T")
    ++ pad 2 (tod / 3600000) ++ (txt ":") ++ pad 2 (tod / 60000 mod 60) ++ (txt ":")
    ++ pad 2 (tod / 1000 mod 60).

Fixpoint no_dot (s : text) : bool :=
  match s with
  | [] => true
  | c :: r => negb (code c =? 46) && no_dot r
  end.

(** What may follow a number literal: no digit and no start of a fraction or
    of an exponent. *)
Definition number_stop (s : text) : bool :=
  match s with
  | c :: _ =>
      negb (is_digit c) && negb (code c =? 46) && negb (code c =? 101)
      && negb (code c =? 69)
  | [] => true
  end.

(** The exponent part that [Number::toString] writes. *)
Definition exponent_text (X : Z) : text :=
  txt "e" ++ (if 0 <=? X then txt "+" else txt "-")
    ++ pad (ndigits (Z.abs X)) (Z.abs X).

(** The rest of a number literal after its integer part. *)
Definition finish (negative : bool) (p : Z * text) : parsed number :=
  match read_fraction (fst p) (snd p) with
  | None => PSyntax
  | Some (D, places, s2) =>
      match read_exponent s2 with
      | None => PSyntax
      | Some (X, s3) => POk (of_decimal negative D (X - places)) s3
      end
  end.

(** The text of an array element. *)
Definition element_text (v : value) : text :=
  match stringify v with Some t => t | None => txt "null" end.

Definition member_text (kv : text * value) : text :=
  quote (fst kv) ++ txt ":" ++ element_text (snd kv).

(** The number that [JSON.parse] reads from the text of a finite number. *)
Definition settle_number (x : number) : number :=
  match x with
  | Zero _ => Zero false
  | _ => x
  end.

Definition elements_size (xs : list value) : nat :=
  fold_right (fun x n => S (size x + n)) O xs.

Definition members_size (ps : list (text * value)) : nat :=
  fold_right (fun kv n => S (size (snd kv) + n)) O ps.

Definition settle_member (kv : text * value) : text * value :=
  (fst kv, settle (snd kv)).

Definition reads_back (v : value) : Prop :=
  json_value v = true ->
  forall fuel rest, (size v <= fuel)%nat -> number_stop rest = true ->
  parse_value fuel (element_text v ++ rest) = POk (settle v) rest.

(** A value with neither an infinite number nor a negative zero in it is
    read back as it is. *)
Fixpoint kept (v : value) : bool :=
  match v with
  | VNum (Finite _ _ _) | VNum (Zero false) => true
  | VNum _ => false
  | VArr xs => forallb kept xs
  | VObj ps => forallb (fun kv => kept (snd kv)) ps
  | _ => true
  end.

(** The year of a time value, as [toISOString] writes it. *)
Definition year_of_time_value (t : Z) : Z :=
  fst (fst (civil_from_days (t / msPerDay))).

Definition kickoff : text := (txt "kickoffTime").

(** What the normalization does to one record, read from the text that
    goes in and from the text that comes out: the object keeps its keys and
    their order; every property but "kickoffTime" has the value that was
    read, as [JSON.stringify] writes it and [JSON.parse] reads it back (see
    [settle]), which is the value itself when it holds neither an infinite
    number nor a negative zero; and "kickoffTime" holds the text that the
    program makes of the time value [tv] of the text [t] it held. *)
Definition rewritten (w : world) (x y : value) (t : text) (tv : Z) : Prop :=
  exists ps ps',
    x = VObj ps /\ y = VObj ps'
    /\ own ps (txt "kickoffTime") = Some (VStr t)
    /\ clip (Date_parse w t) = Some tv
    /\ map fst ps' = map fst ps
    /\ (forall k, k <> txt "kickoffTime" -> own ps' k = option_map settle (own ps k))
    /\ (forall k v, k <> txt "kickoffTime" -> own ps k = Some v -> kept v = true ->
          own ps' k = Some v)
    /\ own ps' (txt "kickoffTime")
       = Some (VStr (split_dot_head (iso_string tv) ++ txt "Z")).

(** Sample data of the statements. *)
Definition unreachable : fetch_failure :=
  {| failure_name := (txt "TypeError");
     failure_message := (txt "fetch failed");
     failure_cause := (txt "Error: connect ECONNREFUSED") |}.

(** No engine-specific date formats, no network. *)
Definition quiet_world : world :=
  {| date_fallback := fun _ => None;
     fetch_reply := fun _ => inr unreachable |}.

(** The downstream endpoint sends the request body back. *)
Definition echo_world : world :=
  {| date_fallback := fun _ => None;
     fetch_reply := fun r => inl {| status := 200; body := inl (req_body r) |} |}.

(** The downstream endpoint answers 500. *)
Definition failing_world : world :=
  {| date_fallback := fun _ => None;
     fetch_reply := fun _ => inl {| status := 500; body := inl (txt "upstream exploded") |} |}.

Definition sample_configuration : configuration :=
  {| apiBaseURL := (txt "https://api.score-prediction.net");
     apiKey := (txt "4vXK8xf3wTYJzVk18ADtoRkhblC79gvgZ0XhEFPc") |}.

Definition configured : provider :=
  {| protocol_address := (txt "0x1");
     getVirtualProviderConfiguration := fun _ _ => Some sample_configuration |}.

Definition unconfigured : provider :=
  {| protocol_address := (txt "0x1");
     getVirtualProviderConfiguration := fun _ _ => None |}.

Definition sample_agreement : Agreement := {| offerId := 7 |}.

Definition sample_resource : Resource :=
  {| deploymentStatus := Running;
     resource_details := {| details_status := Running;
                            Predictions_Allowance_Count := VNum (number_of_Z 50);
                            Predictions_Count := 0 |} |}.

(** A challenge with a price of 1.50, a limit too large for a number and a
    name with a character above 255. *)
Definition rich_challenges : text :=
  txt "[{" ++ quote (txt "kickoffTime") ++ txt ":"
    ++ quote (txt "2024-05-01T12:00:00.123Z") ++ txt ","
    ++ quote (txt "odds") ++ txt ":1.50,"
    ++ quote (txt "limit") ++ txt ":1e400,"
    ++ quote (txt "name") ++ txt ":" ++ quote (txt "FC " ++ [char_of_code 8364])
    ++ txt "}]".

Definition rich_normalized : text :=
  txt "[{" ++ quote (txt "kickoffTime") ++ txt ":"
    ++ quote (txt "2024-05-01T12:00:00Z") ++ txt ","
    ++ quote (txt "odds") ++ txt ":1.5,"
    ++ quote (txt "limit") ++ txt ":null,"
    ++ quote (txt "name") ++ txt ":" ++ quote (txt "FC " ++ [char_of_code 8364])
    ++ txt "}]".

(** [{kickoffTime: "2024-05-01T12:00:00.123Z", home: "A", away: "B"}], as
    text. *)
Definition sample_challenges : text :=
  (txt "[{") ++ quote (txt "kickoffTime") ++ (txt ":") ++ quote (txt "2024-05-01T12:00:00.123Z") ++ (txt ",")
       ++ quote (txt "home") ++ (txt ":") ++ quote (txt "A") ++ (txt ",")
       ++ quote (txt "away") ++ (txt ":") ++ quote (txt "B") ++ (txt "}]").

Definition sample_normalized : text :=
  (txt "[{") ++ quote (txt "kickoffTime") ++ (txt ":") ++ quote (txt "2024-05-01T12:00:00Z") ++ (txt ",")
       ++ quote (txt "home") ++ (txt ":") ++ quote (txt "A") ++ (txt ",")
       ++ quote (txt "away") ++ (txt ":") ++ quote (txt "B") ++ (txt "}]").

(** A kick-off in the year 10000. *)
Definition far_challenges : text :=
  (txt "[{") ++ quote (txt "kickoffTime") ++ (txt ":") ++ quote (txt "+010000-01-01T00:00:00.000Z") ++ (txt "}]").

(** { params: { "Number of Predictions": { value: 50, unit: "count" } } } *)
Definition sample_offer : DetailedOffer :=
  {| details :=
       VObj [((txt "params"),
              VObj [((txt "Number of Predictions"),
                     VObj [((txt "value"), VNum (number_of_Z 50)); ((txt "unit"), VStr (txt "count"))])])] |}.

(** The answer arrives with the status 500 and the read of its body is
    aborted by the timeout. *)
Definition timed_out : fetch_failure :=
  {| failure_name := txt "TimeoutError";
     failure_message := txt "The operation was aborted due to timeout";
     failure_cause := txt "undefined" |}.

Definition stall_500 : world :=
  {| date_fallback := fun _ => None;
     fetch_reply := fun _ => inl {| status := 500; body := inr timed_out |} |}.

(** The same with the status 200. *)
Definition stall_200 : world :=
  {| date_fallback := fun _ => None;
     fetch_reply := fun _ => inl {| status := 200; body := inr timed_out |} |}.

(** The log lines of a trace, in order. *)
Fixpoint logs (t : list event) : list (level * text) :=
  match t with
  | [] => []
  | Fetch _ :: t' => logs t'
  | Log l m :: t' => (l, m) :: logs t'
  end.

(** The downstream endpoint answers 200 with a page that is not JSON. *)
Definition garbled_world : world :=
  {| date_fallback := fun _ => None;
     fetch_reply := fun _ => inl {| status := 200; body := inl (txt "<html>busy</html>") |} |}.

(** The downstream endpoint answers 200 and the body cannot be read. *)
Definition cut_world : world :=
  {| date_fallback := fun _ => None;
     fetch_reply := fun _ => inl {| status := 200; body := inr unreachable |} |}.

Definition prediction_outcome (o : outcome value) : outcome prediction_result :=
  match o with
  | Ok v => Ok {| predictions := JSON_stringify v; responseCode := OK |}
  | Throw e => Throw e
  end.

(** A record whose "kickoffTime" is [null]. *)
Definition undated_record : list (text * value) :=
  [((txt "home"), VStr (txt "A")); ((txt "kickoffTime"), VNull)].

(** { params: { "Number of Predictions": { value: "50", unit: "count" } } } *)
Definition text_offer : DetailedOffer :=
  {| details :=
       VObj [((txt "params"),
              VObj [((txt "Number of Predictions"),
                     VObj [((txt "value"), VStr (txt "50")); ((txt "unit"), VStr (txt "count"))])])] |}.

Definition initial_details (allowance : value) : ScorePredictionResourceDetails :=
  {| details_status := Running;
     Predictions_Allowance_Count := allowance;
     Predictions_Count := 0 |}.

Definition nullish (v : value) : bool :=
  match v with
  | VUndefined | VNull => true
  | _ => false
  end.

(** * Proofs *)

(** ** Text and decimal digits *)
Lemma char_eqb_eq (c d : char16) : char_eqb c d = true <-> c = d.
Proof.
  destruct c as [a b], d as [a' b']. unfold char_eqb. cbn [fst snd].
  rewrite andb_true_iff, !Ascii.eqb_eq. split; [intros [-> ->] | intros [= -> ->]]; auto.
Qed.

Lemma text_eqb_eq (s t : text) : text_eqb s t = true <-> s = t.
Proof.
  revert t. induction s as [|c s IH]; intros [|d t]; cbn [text_eqb];
    try (split; [discriminate | discriminate]); [split; reflexivity|].
  rewrite andb_true_iff, char_eqb_eq, IH. split; [intros [-> ->] | intros [= -> ->]]; auto.
Qed.

Lemma text_eqb_refl (s : text) : text_eqb s s = true.
Proof. now apply text_eqb_eq. Qed.

Lemma text_eqb_neq (s t : text) : text_eqb s t = false <-> s <> t.
Proof.
  rewrite <- text_eqb_eq. destruct (text_eqb s t); split; congruence.
Qed.

Lemma text_eqb_spec (s t : text) : reflect (s = t) (text_eqb s t).
Proof.
  destruct (text_eqb s t) eqn:H; constructor.
  - now apply text_eqb_eq.
  - now apply text_eqb_neq.
Qed.

Lemma text_eqb_sym (s t : text) : text_eqb s t = text_eqb t s.
Proof.
  destruct (text_eqb_spec s t) as [-> | H]; [now rewrite text_eqb_refl|].
  symmetry. apply text_eqb_neq. congruence.
Qed.

Lemma code_range (c : char16) : 0 <= code c < 65536.
Proof.
  destruct c as [a b]. unfold code. cbn [fst snd].
  pose proof (nat_ascii_bounded a). pose proof (nat_ascii_bounded b). lia.
Qed.

Lemma char_of_code_code (c : char16) : char_of_code (code c) = c.
Proof.
  destruct c as [a b]. unfold code, char_of_code. cbn [fst snd].
  pose proof (nat_ascii_bounded a). pose proof (nat_ascii_bounded b).
  replace ((256 * Z.of_nat (nat_of_ascii a) + Z.of_nat (nat_of_ascii b)) / 256)
    with (Z.of_nat (nat_of_ascii a))
    by (apply Z.div_unique with (Z.of_nat (nat_of_ascii b)); lia).
  replace ((256 * Z.of_nat (nat_of_ascii a) + Z.of_nat (nat_of_ascii b)) mod 256)
    with (Z.of_nat (nat_of_ascii b))
    by (apply Z.mod_unique with (Z.of_nat (nat_of_ascii a)); lia).
  now rewrite !Nat2Z.id, !ascii_nat_embedding.
Qed.

Lemma code_char_of_code (n : Z) : 0 <= n < 65536 -> code (char_of_code n) = n.
Proof.
  intros H. unfold code, char_of_code. cbn [fst snd].
  assert (0 <= n / 256 < 256)
    by (split; [apply Z.div_pos; lia | apply Z.div_lt_upper_bound; lia]).
  pose proof (Z.mod_pos_bound n 256 ltac:(lia)).
  rewrite !nat_ascii_embedding by lia. rewrite !Z2Nat.id by lia.
  pose proof (Z.div_mod n 256 ltac:(lia)). lia.
Qed.

Lemma code_inj (c d : char16) : code c = code d -> c = d.
Proof. intros H. rewrite <- (char_of_code_code c), <- (char_of_code_code d). now rewrite H. Qed.

Lemma code_digit_char (d : Z) : 0 <= d <= 9 -> code (digit_char d) = 48 + d.
Proof. intros H. unfold digit_char. apply code_char_of_code. lia. Qed.

Lemma digit_cases (d : Z) :
  0 <= d <= 9 ->
  d = 0 \/ d = 1 \/ d = 2 \/ d = 3 \/ d = 4 \/ d = 5 \/ d = 6 \/ d = 7 \/ d = 8 \/ d = 9.
Proof. lia. Qed.

Ltac each_digit H :=
  apply digit_cases in H;
  repeat (destruct H as [H | H]); subst.

Lemma digit_of_digit_char (d : Z) :
  0 <= d <= 9 -> digit_of_char (digit_char d) = Some d.
Proof. intros H. each_digit H; reflexivity. Qed.

Lemma mod10_range (n : Z) : 0 <= n mod 10 <= 9.
Proof. pose proof (Z.mod_pos_bound n 10); lia. Qed.

Lemma pow10_pos (w : nat) : 0 < 10 ^ Z.of_nat w.
Proof. apply Z.pow_pos_nonneg; lia. Qed.

Lemma pow10_succ (w : nat) : 10 ^ Z.of_nat (S w) = 10 ^ Z.of_nat w * 10.
Proof. rewrite Nat2Z.inj_succ, Z.pow_succ_r by lia. ring. Qed.

Lemma mod_pow10_succ (n : Z) (w : nat) :
  n mod 10 ^ Z.of_nat (S w)
  = (n / 10 ^ Z.of_nat w mod 10) * 10 ^ Z.of_nat w + n mod 10 ^ Z.of_nat w.
Proof.
  rewrite pow10_succ.
  pose proof (pow10_pos w).
  rewrite Z.rem_mul_r by lia. ring.
Qed.

Lemma read_fixed_pad (w : nat) (n : Z) (rest : text) :
  read_fixed w (pad w n ++ rest) = Some (n mod 10 ^ Z.of_nat w, rest).
Proof.
  induction w as [|w IH]; cbn [pad read_fixed app].
  - now rewrite Z.mod_1_r.
  - rewrite digit_of_digit_char by apply mod10_range.
    rewrite IH. now rewrite mod_pow10_succ.
Qed.

Lemma read_digits_pad (w : nat) (n : Z) (rest : text) (acc : Z) :
  read_digits (pad w n ++ rest) acc
  = read_digits rest (acc * 10 ^ Z.of_nat w + n mod 10 ^ Z.of_nat w).
Proof.
  revert acc. induction w as [|w IH]; intros acc; cbn [pad app read_digits].
  - f_equal. rewrite Z.mod_1_r. change (10 ^ Z.of_nat 0) with 1. lia.
  - rewrite digit_of_digit_char by apply mod10_range.
    rewrite IH. f_equal. rewrite mod_pow10_succ, pow10_succ. ring.
Qed.

Lemma ndigits_fuel_spec (fuel : nat) (n : Z) :
  0 <= n < 10 ^ Z.of_nat (S fuel) ->
  n < 10 ^ Z.of_nat (ndigits_fuel fuel n)
  /\ (10 <= n -> 10 ^ (Z.of_nat (ndigits_fuel fuel n) - 1) <= n).
Proof.
  revert n. induction fuel as [|f IH]; intros n Hn.
  - simpl in *. lia.
  - cbn [ndigits_fuel]. destruct (Z.ltb_spec n 10) as [Hlt | Hge].
    + simpl. lia.
    + assert (Hq : 0 <= n / 10 < 10 ^ Z.of_nat (S f)).
      { rewrite (pow10_succ (S f)) in Hn. split.
        - apply Z.div_pos; lia.
        - apply Z.div_lt_upper_bound; lia. }
      destruct (IH _ Hq) as [Hup Hlow].
      set (k := ndigits_fuel f (n / 10)) in *.
      rewrite pow10_succ.
      replace (Z.of_nat (S k) - 1) with (Z.of_nat k) by lia.
      pose proof (Z.div_mod n 10 ltac:(lia)) as Hdm.
      pose proof (Z.mod_pos_bound n 10 ltac:(lia)) as Hm.
      split; [lia | intros _].
      destruct (Z.ltb_spec (n / 10) 10) as [Hs | Hb].
      * assert (Hk : k = 1%nat).
        { unfold k. destruct f; cbn [ndigits_fuel]; [reflexivity|].
          destruct (Z.ltb_spec (n / 10) 10); [reflexivity | lia]. }
        rewrite Hk. simpl. lia.
      * specialize (Hlow Hb).
        assert (Hk1 : (1 <= k)%nat).
        { unfold k. destruct f; cbn [ndigits_fuel]; [lia|].
          destruct (n / 10 <? 10); lia. }
        replace (Z.of_nat k) with (Z.succ (Z.of_nat k - 1)) by lia.
        rewrite Z.pow_succ_r by lia. lia.
Qed.

Lemma ndigits_fuel_pos (fuel : nat) (n : Z) : (1 <= ndigits_fuel fuel n)%nat.
Proof. destruct fuel; cbn [ndigits_fuel]; [lia|]. destruct (n <? 10); lia. Qed.

Lemma ndigits_small (n : Z) : n < 10 -> ndigits n = 1%nat.
Proof.
  intros H. unfold ndigits. destruct (Z.to_nat (Z.log2 n)); cbn [ndigits_fuel].
  - reflexivity.
  - destruct (Z.ltb_spec n 10); [reflexivity | lia].
Qed.

Lemma ndigits_spec (n : Z) :
  0 <= n ->
  n < 10 ^ Z.of_nat (ndigits n)
  /\ (10 <= n -> 10 ^ (Z.of_nat (ndigits n) - 1) <= n).
Proof.
  intros Hn. unfold ndigits. apply ndigits_fuel_spec. split; [assumption|].
  destruct (Z.eq_dec n 0) as [-> | Hnz].
  - apply pow10_pos.
  - destruct (Z.log2_spec n ltac:(lia)) as [_ Hup].
    eapply Z.lt_le_trans; [exact Hup|].
    pose proof (Z.log2_nonneg n).
    rewrite Nat2Z.inj_succ, Z2Nat.id by assumption.
    apply Z.pow_le_mono_l. lia.
Qed.

Lemma pad_mod (w : nat) (n : Z) : 0 <= n < 10 ^ Z.of_nat w -> n mod 10 ^ Z.of_nat w = n.
Proof. intros H. now apply Z.mod_small. Qed.

(** Reading back a printed natural number. *)
Lemma read_digits_print (n : Z) (rest : text) :
  0 <= n ->
  read_digits (pad (ndigits n) n ++ rest) 0 = read_digits rest n.
Proof.
  intros Hn. rewrite read_digits_pad. f_equal.
  destruct (ndigits_spec n Hn) as [Hup _].
  rewrite Z.mod_small; lia.
Qed.

(** The first digit of a printed positive number is not zero. *)
Lemma leading_digit (n : Z) :
  0 < n ->
  exists d r, pad (ndigits n) n = digit_char d :: r /\ 1 <= d <= 9.
Proof.
  intros Hn.
  destruct (ndigits_spec n ltac:(lia)) as [Hup Hlow].
  pose proof (ndigits_fuel_pos (Z.to_nat (Z.log2 n)) n) as Hpos.
  fold (ndigits n) in Hpos.
  destruct (ndigits n) as [|k] eqn:Hk; [lia|].
  simpl pad. eexists _, _. split; [reflexivity|].
  replace (Z.of_nat (S k) - 1) with (Z.of_nat k) in Hlow by lia.
  rewrite pow10_succ in Hup.
  pose proof (pow10_pos k) as Hp.
  assert (Hq : 1 <= n / 10 ^ Z.of_nat k < 10).
  { split.
    - destruct (Z.ltb_spec n 10) as [Hs | Hb].
      + rewrite (ndigits_small n Hs) in Hk. injection Hk as <-.
        simpl. rewrite Z.div_1_r. lia.
      + apply Z.div_le_lower_bound; lia.
    - apply Z.div_lt_upper_bound; lia. }
  rewrite Z.mod_small; lia.
Qed.

Lemma app_assoc_r {A : Type} (a b c : list A) : (a ++ b) ++ c = a ++ b ++ c.
Proof. symmetry. apply app_assoc. Qed.

(** ** Calendar arithmetic *)
Lemma is_leap_shift (y k : Z) : is_leap (y + 400 * k) = is_leap y.
Proof.
  unfold is_leap.
  replace (y + 400 * k) with (y + (100 * k) * 4) at 1 by ring.
  replace (y + 400 * k) with (y + (4 * k) * 100) at 1 by ring.
  replace (y + 400 * k) with (y + k * 400) by ring.
  now rewrite !Z.mod_add by lia.
Qed.

Lemma days_in_month_shift (y m k : Z) :
  days_in_month (y + 400 * k) m = days_in_month y m.
Proof. unfold days_in_month. now rewrite is_leap_shift. Qed.

Lemma days_from_civil_shift (y m d k : Z) :
  days_from_civil (y + 400 * k) m d = days_from_civil y m d + 146097 * k.
Proof.
  unfold days_from_civil.
  set (y1 := if m <=? 2 then y - 1 else y).
  replace (if m <=? 2 then y + 400 * k - 1 else y + 400 * k) with (y1 + k * 400)
    by (unfold y1; destruct (m <=? 2); ring).
  cbv zeta. rewrite Z.div_add by lia.
  replace (y1 + k * 400 - (y1 / 400 + k) * 400) with (y1 - y1 / 400 * 400) by ring.
  ring.
Qed.

(** The year within the 400 years, and the day within the year. *)
Lemma year_of_era (doe : Z) :
  0 <= doe < 146097 ->
  let yoe := (doe - doe / 1460 + doe / 36524 - doe / 146096) / 365 in
  let doy := doe - (365 * yoe + yoe / 4 - yoe / 100) in
  0 <= yoe < 400 /\ 0 <= doy <= 365
  /\ (doy = 365 ->
      (yoe + 1) mod 4 = 0 /\ ((yoe + 1) mod 100 <> 0 \/ (yoe + 1) mod 400 = 0)).
Proof.
  intros H yoe doy. subst doy yoe. Z.div_mod_to_equations. lia.
Qed.

(** The month counted from March, and the day within the month. *)
Lemma month_of_year (doy : Z) :
  0 <= doy <= 365 ->
  let mp := (5 * doy + 2) / 153 in
  let d := doy - (153 * mp + 2) / 5 + 1 in
  0 <= mp <= 11 /\ 1 <= d <= 31
  /\ (mp = 11 -> d <= 29 /\ (d = 29 -> doy = 365))
  /\ (mp = 1 \/ mp = 3 \/ mp = 6 \/ mp = 8 -> d <= 30).
Proof.
  intros H mp d. subst d mp. Z.div_mod_to_equations. lia.
Qed.

(** The calendar date of a day number is a date of the calendar, and its day
    number is the one it came from. *)
Lemma civil_from_days_spec (z : Z) :
  forall y m d, civil_from_days z = (y, m, d) ->
  days_from_civil y m d = z
  /\ 1 <= m <= 12 /\ 1 <= d <= days_in_month y m
  /\ 400 * ((z + 719468) / 146097) <= y <= 400 * ((z + 719468) / 146097) + 400.
Proof.
  intros y m d. unfold civil_from_days.
  set (z1 := z + 719468). set (era := z1 / 146097).
  set (doe := z1 - era * 146097).
  assert (Hdoe : 0 <= doe < 146097).
  { unfold doe, era.
    pose proof (Z.div_mod z1 146097 ltac:(lia)).
    pose proof (Z.mod_pos_bound z1 146097 ltac:(lia)). lia. }
  destruct (year_of_era doe Hdoe) as (Hyoe & Hdoy & Hleap). cbv zeta in *.
  set (yoe := (doe - doe / 1460 + doe / 36524 - doe / 146096) / 365) in *.
  set (doy := doe - (365 * yoe + yoe / 4 - yoe / 100)) in *.
  destruct (month_of_year doy Hdoy) as (Hmp & Hd & Hfeb & H30). cbv zeta in *.
  set (mp := (5 * doy + 2) / 153) in *.
  set (dd := doy - (153 * mp + 2) / 5 + 1) in *.
  intros Hc.
  assert (Hy : y = yoe + era * 400
                   + (if (if mp <? 10 then mp + 3 else mp - 9) <=? 2 then 1 else 0)
               /\ m = (if mp <? 10 then mp + 3 else mp - 9) /\ d = dd)
    by (repeat split; congruence).
  destruct Hy as (-> & -> & ->). clear Hc.
  assert (Hz : era * 146097 + doe - 719468 = z) by (unfold doe, z1; ring).
  unfold days_from_civil, days_in_month.
  destruct (Z.ltb_spec mp 10) as [Hlt | Hge].
  - destruct (Z.leb_spec (mp + 3) 2); [lia|].
    destruct (Z.ltb_spec 2 (mp + 3)); [|lia].
    cbv zeta.
    replace (yoe + era * 400 + 0) with (yoe + era * 400) by ring.
    rewrite Z.div_add by lia. rewrite (Z.div_small yoe 400) by lia.
    replace (yoe + era * 400 - (0 + era) * 400) with yoe by ring.
    replace (mp + 3 - 3) with mp by ring.
    destruct (Z.eqb_spec (mp + 3) 2); [lia|].
    destruct (Z.eqb_spec (mp + 3) 4); destruct (Z.eqb_spec (mp + 3) 6);
      destruct (Z.eqb_spec (mp + 3) 9); destruct (Z.eqb_spec (mp + 3) 11);
      cbn [orb]; unfold dd, doy in *; lia.
  - destruct (Z.leb_spec (mp - 9) 2); [|lia].
    destruct (Z.ltb_spec 2 (mp - 9)); [lia|].
    cbv zeta.
    replace (yoe + era * 400 + 1 - 1) with (yoe + era * 400) by ring.
    rewrite Z.div_add by lia. rewrite (Z.div_small yoe 400) by lia.
    replace (yoe + era * 400 - (0 + era) * 400) with yoe by ring.
    replace (mp - 9 + 9) with mp by ring.
    replace (yoe + era * 400 + 1) with (yoe + 1 + 400 * era) by ring.
    rewrite is_leap_shift.
    destruct (Z.eqb_spec (mp - 9) 2) as [Hfebr | Hjan].
    + assert (Hmp11 : mp = 11) by lia.
      destruct (Hfeb Hmp11) as [Hd29 Hlast].
      destruct (is_leap (yoe + 1)) eqn:Hl.
      * unfold dd, doy in *. lia.
      * assert (Hne : dd <> 29).
        { intros Hdd. destruct (Hleap (Hlast Hdd)) as [H4 H100].
          unfold is_leap in Hl. rewrite H4 in Hl. cbn in Hl.
          destruct H100 as [H100 | H400].
          - destruct (Z.eqb_spec ((yoe + 1) mod 100) 0); [contradiction|].
            discriminate.
          - rewrite H400 in Hl. cbn in Hl.
            now rewrite orb_true_r in Hl. }
        unfold dd, doy in *. lia.
    + destruct (Z.eqb_spec (mp - 9) 4); [lia|].
      destruct (Z.eqb_spec (mp - 9) 6); [lia|].
      destruct (Z.eqb_spec (mp - 9) 9); [lia|].
      destruct (Z.eqb_spec (mp - 9) 11); [lia|].
      cbn [orb]. unfold dd, doy in *. lia.
Qed.

Lemma days_in_month_le (y m : Z) : days_in_month y m <= 31.
Proof.
  unfold days_in_month.
  destruct (m =? 2); [destruct (is_leap y); lia|].
  destruct ((m =? 4) || (m =? 6) || (m =? 9) || (m =? 11)); lia.
Qed.

(** Hours, minutes and seconds of a time within the day. *)
Lemma time_fields (tod : Z) :
  0 <= tod < msPerDay ->
  0 <= tod / 3600000 <= 23
  /\ tod / 3600000 * 3600000 + tod / 60000 mod 60 * 60000 + tod / 1000 mod 60 * 1000
     = tod - tod mod 1000.
Proof.
  unfold msPerDay. intros H.
  Z.div_mod_to_equations. lia.
Qed.

(** ** toISOString and the date-time format *)

Lemma split_dot_head_app (a b : text) :
  no_dot a = true -> split_dot_head (a ++ b) = a ++ split_dot_head b.
Proof.
  induction a as [|c a IH]; cbn [no_dot app split_dot_head]; intros H.
  - reflexivity.
  - apply andb_true_iff in H as [Hc Ha].
    destruct (code c =? 46); [discriminate|]. now rewrite IH.
Qed.

Lemma no_dot_app (a b : text) :
  no_dot a = true -> no_dot b = true -> no_dot (a ++ b) = true.
Proof.
  induction a as [|c a IH]; cbn [no_dot app]; intros Ha Hb; [assumption|].
  apply andb_true_iff in Ha as [Hc Ha]. rewrite Hc. now apply IH.
Qed.

Lemma digit_char_facts (d : Z) :
  0 <= d <= 9 ->
  is_digit (digit_char d) = true
  /\ (code (digit_char d) =? 46) = false
  /\ (code (digit_char d) =? 43) = false
  /\ (code (digit_char d) =? 45) = false.
Proof. intros H. each_digit H; repeat split; reflexivity. Qed.

Lemma no_dot_pad (w : nat) (n : Z) : no_dot (pad w n) = true.
Proof.
  induction w as [|w IH]; cbn [pad no_dot]; [reflexivity|].
  destruct (digit_char_facts _ (mod10_range (n / 10 ^ Z.of_nat w))) as (_ & -> & _).
  exact IH.
Qed.

Lemma no_dot_year (y : Z) : no_dot (year_string y) = true.
Proof.
  unfold year_string. destruct ((0 <=? y) && (y <=? 9999)).
  - apply no_dot_pad.
  - cbn [no_dot]. rewrite no_dot_pad. now destruct (y <? 0).
Qed.

Lemma split_dot_head_iso (t : Z) : split_dot_head (iso_string t) = iso_seconds t.
Proof.
  unfold iso_string, iso_seconds.
  destruct (civil_from_days (t / msPerDay)) as [[y m] d].
  cbv zeta.
  repeat (rewrite split_dot_head_app;
          [f_equal | first [apply no_dot_year | apply no_dot_pad | reflexivity]]).
  reflexivity.
Qed.

Lemma read_year_digits (d : Z) (r : text) :
  0 <= d <= 9 ->
  read_year (digit_char d :: r) = read_fixed 4 (digit_char d :: r).
Proof. intros H. each_digit H; reflexivity. Qed.

Lemma read_year_print (y : Z) (rest : text) :
  -999999 <= y <= 999999 ->
  read_year (year_string y ++ rest) = Some (y, rest).
Proof.
  intros Hy. unfold year_string.
  destruct (Z.leb_spec 0 y) as [H0 | H0]; cbn [andb].
  - destruct (Z.leb_spec y 9999) as [H1 | H1].
    + cbn [pad app]. rewrite read_year_digits by apply mod10_range.
      change (digit_char (y / 10 ^ Z.of_nat 3 mod 10)
                :: digit_char (y / 10 ^ Z.of_nat 2 mod 10)
                :: digit_char (y / 10 ^ Z.of_nat 1 mod 10)
                :: digit_char (y / 10 ^ Z.of_nat 0 mod 10) :: rest)
        with (pad 4 y ++ rest).
      rewrite read_fixed_pad. change (10 ^ Z.of_nat 4) with 10000.
      rewrite Z.mod_small by lia. reflexivity.
    + destruct (Z.ltb_spec y 0); [lia|].
      cbn [app]. unfold read_year. change (code (char_of_code 43) =? 43) with true.
      cbv iota. rewrite read_fixed_pad.
      change (10 ^ Z.of_nat 6) with 1000000.
      rewrite Z.mod_small by lia. f_equal. f_equal. lia.
  - destruct (Z.ltb_spec y 0); [|lia].
    cbn [app]. unfold read_year. change (code (char_of_code 45) =? 43) with false.
    change (code (char_of_code 45) =? 45) with true. cbv iota.
    rewrite read_fixed_pad.
    change (10 ^ Z.of_nat 6) with 1000000.
    rewrite Z.mod_small by lia.
    destruct (Z.eqb_spec (Z.abs y) 0); [lia|]. f_equal. f_equal. lia.
Qed.

Lemma expect_lit (n : Z) (c : string) (rest : text) :
  expect n (txt c) = Some [] -> expect n (txt c ++ rest) = Some rest.
Proof.
  destruct c as [|a [|b c]]; cbn [txt app expect]; try discriminate.
  all: destruct (code (zero, a) =? n); intros H; first [reflexivity | discriminate].
Qed.

Lemma read_two (n : Z) (rest : text) :
  0 <= n <= 99 -> read_fixed 2 (pad 2 n ++ rest) = Some (n, rest).
Proof.
  intros H. rewrite read_fixed_pad. change (10 ^ Z.of_nat 2) with 100.
  now rewrite Z.mod_small by lia.
Qed.

Lemma year_of_time (t : Z) :
  - maxTime <= t <= maxTime ->
  forall y m d, civil_from_days (t / msPerDay) = (y, m, d) ->
  -999999 <= y <= 999999.
Proof.
  unfold maxTime, msPerDay. intros Ht y m d Hc.
  destruct (civil_from_days_spec _ _ _ _ Hc) as (_ & _ & _ & Hy).
  revert Hy. Z.div_mod_to_equations. lia.
Qed.

(** Reading back what the program makes of a date: the time value, cut to
    whole seconds. *)
Lemma utc_date_time_seconds (t : Z) :
  - maxTime <= t <= maxTime ->
  utc_date_time (iso_seconds t ++ (txt "Z")) = Some (t - t mod 1000).
Proof.
  intros Ht. unfold iso_seconds.
  destruct (civil_from_days (t / msPerDay)) as [[y m] d] eqn:Hc.
  pose proof (year_of_time t Ht _ _ _ Hc) as Hy.
  destruct (civil_from_days_spec _ _ _ _ Hc) as (Hday & Hm & Hd & _).
  pose proof (days_in_month_le y m) as Hdim.
  assert (Htod : 0 <= t mod msPerDay < msPerDay)
    by (apply Z.mod_pos_bound; reflexivity).
  destruct (time_fields _ Htod) as [Hh Hsum].
  set (tod := t mod msPerDay) in *.
  pose proof (Z.mod_pos_bound (tod / 60000) 60 ltac:(lia)) as Hmi.
  pose proof (Z.mod_pos_bound (tod / 1000) 60 ltac:(lia)) as Hss.
  cbv zeta. rewrite !app_assoc_r. unfold utc_date_time.
  rewrite read_year_print by assumption. rewrite expect_lit by reflexivity.
  rewrite read_two by lia. rewrite expect_lit by reflexivity.
  rewrite read_two by lia. rewrite expect_lit by reflexivity.
  rewrite read_two by lia. rewrite expect_lit by reflexivity.
  rewrite read_two by lia. rewrite expect_lit by reflexivity.
  rewrite read_two by lia. change (read_millis (txt "Z")) with (Some 0).
  replace ((1 <=? m) && (m <=? 12) && (1 <=? d) && (d <=? days_in_month y m)
           && (tod / 3600000 <=? 23) && (tod / 60000 mod 60 <=? 59)
           && (tod / 1000 mod 60 <=? 59)) with true.
  - f_equal. rewrite Hday.
    pose proof (Z.div_mod t msPerDay ltac:(unfold msPerDay; lia)) as Hdm.
    fold tod in Hdm.
    assert (Hms : t mod 1000 = tod mod 1000).
    { unfold tod, msPerDay. Z.div_mod_to_equations. lia. }
    rewrite Hms. lia.
  - symmetry. repeat (apply andb_true_iff; split); apply Z.leb_le; lia.
Qed.

Lemma iso_seconds_floor (t : Z) : iso_seconds (t - t mod 1000) = iso_seconds t.
Proof.
  unfold iso_seconds.
  assert (Hd : (t - t mod 1000) / msPerDay = t / msPerDay)
    by (unfold msPerDay; Z.div_mod_to_equations; lia).
  assert (Hh : (t - t mod 1000) mod msPerDay / 3600000 = t mod msPerDay / 3600000)
    by (unfold msPerDay; Z.div_mod_to_equations; lia).
  assert (Hm : (t - t mod 1000) mod msPerDay / 60000 = t mod msPerDay / 60000)
    by (unfold msPerDay; Z.div_mod_to_equations; lia).
  assert (Hs : (t - t mod 1000) mod msPerDay / 1000 = t mod msPerDay / 1000)
    by (unfold msPerDay; Z.div_mod_to_equations; lia).
  rewrite Hd. destruct (civil_from_days (t / msPerDay)) as [[y m] d].
  cbv zeta. now rewrite Hh, Hm, Hs.
Qed.

Lemma TimeClip_floor (t : Z) :
  - maxTime <= t <= maxTime -> TimeClip (t - t mod 1000) = Some (t - t mod 1000).
Proof.
  intros H.
  assert (H' : - maxTime <= t - t mod 1000 <= maxTime)
    by (unfold maxTime in *; Z.div_mod_to_equations; lia).
  unfold TimeClip.
  destruct (Z.leb_spec (- maxTime) (t - t mod 1000)); [|lia].
  destruct (Z.leb_spec (t - t mod 1000) maxTime); [|lia].
  reflexivity.
Qed.

Lemma TimeClip_range (z t : Z) : TimeClip z = Some t -> z = t /\ - maxTime <= t <= maxTime.
Proof.
  unfold TimeClip.
  destruct (Z.leb_spec (- maxTime) z); [|discriminate].
  destruct (Z.leb_spec z maxTime); [|discriminate].
  intros [= <-]. lia.
Qed.

(** ** Property order of objects *)
Lemma array_index_text (k : text) (i : Z) :
  array_index k = Some i -> k = Z_to_string i.
Proof.
  unfold array_index. destruct (read_digits k 0) as [v rest].
  destruct (text_eqb_spec rest []); cbn [andb]; [|discriminate].
  destruct (text_eqb_spec (Z_to_string v) k); cbn [andb]; [|discriminate].
  destruct (v <=? max_array_index); [|discriminate].
  intros [= <-]. now symmetry.
Qed.

Lemma array_index_inj (k k' : text) (i : Z) :
  array_index k = Some i -> array_index k' = Some i -> k = k'.
Proof.
  intros H H'. apply array_index_text in H, H'. congruence.
Qed.

Section Order.
Context {A : Type}.
Implicit Types (ps : list (text * A)) (k : text) (v : A).

Lemma own_keys ps k :
  own ps k = None <-> existsb (text_eqb k) (map fst ps) = false.
Proof.
  induction ps as [|[k' v'] r IH]; cbn [own map fst existsb]; [tauto|].
  destruct (text_eqb k k'); cbn [orb]; [split; discriminate | exact IH].
Qed.

Lemma replace_keys k v ps : map fst (replace k v ps) = map fst ps.
Proof.
  induction ps as [|[k' v'] r IH]; cbn [replace map fst]; [reflexivity|].
  destruct (text_eqb k k'); cbn [map fst]; [reflexivity | now rewrite IH].
Qed.

Lemma replace_same k v ps : own ps k = Some v -> replace k v ps = ps.
Proof.
  induction ps as [|[k' v'] r IH]; cbn [own replace]; [reflexivity|].
  destruct (text_eqb k k'); [now intros [= ->] | intros H; now rewrite IH].
Qed.

Lemma own_replace k v ps k' :
  own (replace k v ps) k'
  = if text_eqb k' k then match own ps k with Some _ => Some v | None => None end
    else own ps k'.
Proof.
  induction ps as [|[k1 v1] r IH]; cbn [own replace].
  - now destruct (text_eqb k' k).
  - destruct (text_eqb_spec k k1) as [-> | Hne]; cbn [own].
    + destruct (text_eqb_spec k' k1); reflexivity.
    + rewrite IH. destruct (text_eqb_spec k' k1) as [-> | Hne'].
      * destruct (text_eqb_spec k1 k); [congruence | reflexivity].
      * reflexivity.
Qed.

Lemma own_app_new k v ps k' :
  own (ps ++ [(k, v)]) k'
  = match own ps k' with
    | Some x => Some x
    | None => if text_eqb k' k then Some v else None
    end.
Proof.
  induction ps as [|[k1 v1] r IH]; cbn [own app]; [reflexivity|].
  destruct (text_eqb k' k1); [reflexivity | exact IH].
Qed.
End Order.

Lemma plain_keys_ordered (lo : Z) (ks : list text) :
  plain_keys ks = true -> ordered_from lo ks = true.
Proof.
  destruct ks as [|k r]; [reflexivity|]. cbn [plain_keys ordered_from].
  destruct (array_index k); [discriminate | auto].
Qed.

Lemma ordered_from_weaken (lo lo' : Z) (ks : list text) :
  lo' <= lo -> ordered_from lo ks = true -> ordered_from lo' ks = true.
Proof.
  intros Hlo. destruct ks as [|k r]; [reflexivity|]. cbn [ordered_from].
  destruct (array_index k) as [i|]; [|auto].
  intros H. apply andb_true_iff in H as [Hi Hr]. apply Z.leb_le in Hi.
  apply andb_true_iff. split; [apply Z.leb_le; lia | assumption].
Qed.

Lemma plain_keys_index (ks : list text) (k : text) :
  plain_keys ks = true -> In k ks -> array_index k = None.
Proof.
  induction ks as [|k1 r IH]; cbn [plain_keys In]; [tauto|].
  destruct (array_index k1) eqn:E; [discriminate|].
  intros H [<- | Hin]; [assumption|].
  apply andb_true_iff in H as [_ H]. now apply IH.
Qed.

Lemma ordered_index_lower (ks : list text) :
  forall lo k j, ordered_from lo ks = true -> In k ks -> array_index k = Some j ->
  lo <= j.
Proof.
  induction ks as [|k1 r IH]; intros lo k j H Hin Hk; [destruct Hin|].
  cbn [ordered_from] in H. destruct (array_index k1) as [i|] eqn:E.
  - apply andb_true_iff in H as [Hi Hr]. apply Z.leb_le in Hi.
    destruct Hin as [<- | Hin].
    + rewrite E in Hk. injection Hk as <-. assumption.
    + specialize (IH _ _ _ Hr Hin Hk). lia.
  - rewrite (plain_keys_index _ _ H Hin) in Hk. discriminate.
Qed.

Lemma existsb_app_one (k k' : text) (r : list text) :
  existsb (text_eqb k') (r ++ [k])
  = existsb (text_eqb k') r || text_eqb k' k.
Proof. rewrite existsb_app. cbn [existsb]. now rewrite orb_false_r. Qed.

Lemma plain_keys_app (ks : list text) (k : text) :
  plain_keys ks = true -> array_index k = None ->
  existsb (text_eqb k) ks = false -> plain_keys (ks ++ [k]) = true.
Proof.
  induction ks as [|k1 r IH]; cbn [plain_keys app existsb]; intros H Hk Hn.
  - now rewrite Hk.
  - destruct (array_index k1); [discriminate|].
    apply andb_true_iff in H as [H1 Hr].
    apply orb_false_iff in Hn as [Hkk Hn].
    rewrite existsb_app_one, text_eqb_sym, Hkk, orb_false_r, H1.
    now apply IH.
Qed.

Lemma plain_keys_app_inv (ks : list text) (k : text) :
  plain_keys (ks ++ [k]) = true ->
  plain_keys ks = true /\ array_index k = None /\ existsb (text_eqb k) ks = false.
Proof.
  induction ks as [|k1 r IH]; cbn [plain_keys app existsb].
  - destruct (array_index k); [discriminate | auto].
  - destruct (array_index k1); [discriminate|].
    intros H. apply andb_true_iff in H as [H1 Hr].
    destruct (IH Hr) as (Hp & Hk & Hn).
    rewrite existsb_app_one in H1. apply negb_true_iff, orb_false_iff in H1 as [H1 H2].
    rewrite H1, Hp, Hn, text_eqb_sym, H2. auto.
Qed.

Lemma ordered_from_app (ks : list text) :
  forall lo k, ordered_from lo ks = true -> array_index k = None ->
  existsb (text_eqb k) ks = false -> ordered_from lo (ks ++ [k]) = true.
Proof.
  induction ks as [|k1 r IH]; intros lo k H Hk Hn.
  - cbn. now rewrite Hk.
  - cbn [app ordered_from] in *. destruct (array_index k1) as [i|] eqn:E.
    + apply andb_true_iff in H as [Hi Hr]. rewrite Hi. cbn [andb].
      cbn [existsb] in Hn. apply orb_false_iff in Hn as [_ Hn]. now apply IH.
    + change (k1 :: r ++ [k]) with ((k1 :: r) ++ [k]). now apply plain_keys_app.
Qed.

Section Define.
Context {A : Type}.
Implicit Types (ps : list (text * A)) (k : text) (v : A).

Lemma insert_index_ordered ps :
  forall lo lo' i k v,
  array_index k = Some i -> own ps k = None ->
  ordered_from lo (map fst ps) = true -> lo' <= lo -> lo' <= i ->
  ordered_from lo' (map fst (insert_index i k v ps)) = true.
Proof.
  induction ps as [|[k1 v1] r IH]; intros lo lo' i k v Hk Hown H Hlo Hi.
  - cbn. rewrite Hk. cbn. rewrite andb_true_r. apply Z.leb_le. lia.
  - cbn [insert_index]. cbn [map fst ordered_from] in H.
    cbn [own] in Hown. destruct (text_eqb_spec k k1) as [Heq | Hne]; [discriminate|].
    destruct (array_index k1) as [j|] eqn:E.
    + apply andb_true_iff in H as [Hj Hr]. apply Z.leb_le in Hj.
      destruct (Z.ltb_spec i j) as [Hlt | Hge].
      * cbn [map fst ordered_from]. rewrite Hk, E.
        apply andb_true_iff. split; [apply Z.leb_le; lia|].
        apply andb_true_iff. split; [apply Z.leb_le; lia | assumption].
      * assert (i <> j) by (intros ->; apply Hne; eapply array_index_inj; eassumption).
        cbn [map fst ordered_from]. rewrite E.
        apply andb_true_iff. split; [apply Z.leb_le; lia|].
        apply (IH (j + 1)); try assumption; lia.
    + cbn [map fst ordered_from]. rewrite Hk.
      apply andb_true_iff. split; [apply Z.leb_le; lia|].
      cbn [ordered_from]. rewrite E. assumption.
Qed.

(** Creating a property keeps the enumeration order. *)
Lemma define_ordered k v ps : ordered ps = true -> ordered (define k v ps) = true.
Proof.
  unfold ordered, define. intros H.
  destruct (own ps k) eqn:Hown.
  - now rewrite replace_keys.
  - destruct (array_index k) as [i|] eqn:Hk.
    + destruct (Z.leb_spec 0 i).
      * eapply insert_index_ordered; try eassumption; lia.
      * apply array_index_text in Hk as Hk'. exfalso.
        unfold array_index in Hk. destruct (read_digits k 0) as [n rest] eqn:Hr.
        assert (Hn : 0 <= n).
        { clear - Hr. assert (G : forall s acc n rest, 0 <= acc ->
              read_digits s acc = (n, rest) -> 0 <= n).
          { induction s as [|c s IH]; intros acc n0 rest0 Hacc; cbn [read_digits].
            - intros [= <- _]. assumption.
            - unfold digit_of_char.
              destruct ((48 <=? code c) && (code c <=? 57)) eqn:Hc.
              + apply andb_true_iff in Hc as [Hc1 Hc2].
                apply Z.leb_le in Hc1. apply IH. lia.
              + intros [= <- _]. assumption. }
          eapply G; [|exact Hr]. lia. }
        destruct (text_eqb (rest) [] && text_eqb (Z_to_string n) (k)
                  && (n <=? max_array_index)); [|discriminate].
        injection Hk as <-. lia.
    + rewrite map_app. cbn [map fst]. apply ordered_from_app; try assumption.
      now apply own_keys.
Qed.

Lemma define_all_ordered kvs : forall acc : list (text * A),
  ordered acc = true -> ordered (define_all kvs acc) = true.
Proof.
  unfold define_all. induction kvs as [|[k v] r IH]; intros acc H; cbn [fold_left].
  - assumption.
  - apply IH. now apply define_ordered.
Qed.

Lemma ordered_last_fresh (ks : list text) :
  forall lo k, ordered_from lo (ks ++ [k]) = true ->
  existsb (text_eqb k) ks = false.
Proof.
  induction ks as [|k1 r IH]; intros lo k H; [reflexivity|].
  cbn [app ordered_from] in H. cbn [existsb].
  destruct (array_index k1) as [j|] eqn:E.
  - apply andb_true_iff in H as [Hj Hr]. rewrite (IH _ _ Hr), orb_false_r.
    destruct (text_eqb_spec k k1) as [-> | Hne]; [|reflexivity].
    assert (j + 1 <= j); [|lia].
    eapply ordered_index_lower; [exact Hr | | exact E].
    apply in_or_app. right. now left.
  - change (k1 :: r ++ [k]) with ((k1 :: r) ++ [k]) in H.
    apply plain_keys_app_inv in H as (_ & _ & Hn). exact Hn.
Qed.

Lemma insert_index_last ps :
  forall lo i k v, array_index k = Some i ->
  ordered_from lo (map fst ps ++ [k]) = true ->
  insert_index i k v ps = (ps ++ [(k, v)]).
Proof.
  induction ps as [|[k1 v1] r IH]; intros lo i k v Hk H; [reflexivity|].
  cbn [map fst app ordered_from] in H. cbn [insert_index app].
  destruct (array_index k1) as [j|] eqn:E.
  - apply andb_true_iff in H as [Hj Hr].
    assert (j + 1 <= i).
    { eapply ordered_index_lower; [exact Hr | | exact Hk].
      apply in_or_app. right. now left. }
    destruct (Z.ltb_spec i j); [lia|]. f_equal. eapply IH; eassumption.
  - change (k1 :: map fst r ++ [k]) with ((k1 :: map fst r) ++ [k]) in H.
    apply plain_keys_app_inv in H as (_ & Hk' & _). congruence.
Qed.

Lemma define_last lo k v ps :
  ordered_from lo (map fst ps ++ [k]) = true ->
  define k v ps = (ps ++ [(k, v)]).
Proof.
  intros H. unfold define.
  pose proof (ordered_last_fresh _ _ _ H) as Hn. apply own_keys in Hn. rewrite Hn.
  destruct (array_index k) as [i|] eqn:Hk; [|reflexivity].
  eapply insert_index_last; eassumption.
Qed.

Lemma ordered_from_prefix (ks1 ks2 : list text) :
  forall lo, ordered_from lo (ks1 ++ ks2) = true -> ordered_from lo ks1 = true.
Proof.
  induction ks1 as [|k r IH]; intros lo H; [reflexivity|].
  cbn [app ordered_from] in *. destruct (array_index k) as [i|] eqn:E.
  - apply andb_true_iff in H as [Hi Hr]. rewrite Hi. cbn [andb]. eapply IH, Hr.
  - clear IH E. revert k H. induction r as [|k2 r IHr]; intros k H.
    + cbn [app plain_keys] in *. destruct (array_index k); [discriminate|reflexivity].
    + cbn [app plain_keys] in *.
      destruct (array_index k); [discriminate|].
      apply andb_true_iff in H as [H1 H2].
      cbn [existsb] in *. rewrite existsb_app in H1.
      apply negb_true_iff, orb_false_iff in H1 as [Hk2 H1].
      apply orb_false_iff in H1 as [H1 _].
      rewrite Hk2, H1. cbn [orb negb andb]. apply IHr. exact H2.
Qed.

(** Creating the properties of an object again, in their order, gives the
    same object. *)
Lemma define_all_app kvs : forall acc : list (text * A),
  ordered (acc ++ kvs) = true -> define_all kvs acc = (acc ++ kvs).
Proof.
  unfold define_all, ordered.
  induction kvs as [|[k v] r IH]; intros acc H; cbn [fold_left].
  - now rewrite app_nil_r.
  - cbn [fst snd].
    replace (acc ++ (k, v) :: r) with ((acc ++ [(k, v)]) ++ r) in *
      by now rewrite <- app_assoc.
    rewrite (define_last 0).
    + now apply IH.
    + rewrite map_app in H. apply ordered_from_prefix in H.
      now rewrite map_app in H.
Qed.

Lemma define_all_same (ps : list (text * A)) :
  ordered ps = true -> define_all ps [] = ps.
Proof. intros H. now apply (define_all_app ps []). Qed.

Lemma define_values (P : A -> bool) k v ps :
  P v = true -> forallb (fun kv => P (snd kv)) ps = true ->
  forallb (fun kv => P (snd kv)) (define k v ps) = true.
Proof.
  intros Hv H. unfold define. destruct (own ps k).
  - induction ps as [|[k1 v1] r IH]; cbn [replace forallb snd] in *; [reflexivity|].
    apply andb_true_iff in H as [H1 Hr].
    destruct (text_eqb k k1); cbn [forallb snd].
    + now rewrite Hv, Hr.
    + now rewrite H1, IH.
  - destruct (array_index k) as [i|].
    + induction ps as [|[k1 v1] r IH]; cbn [insert_index forallb snd] in *.
      * now rewrite Hv.
      * apply andb_true_iff in H as [H1 Hr].
        destruct (array_index k1) as [j|].
        -- destruct (i <? j); cbn [forallb snd].
           ++ now rewrite Hv, H1, Hr.
           ++ now rewrite H1, IH.
        -- cbn [forallb snd]. now rewrite Hv, H1, Hr.
    + rewrite forallb_app, H. cbn. now rewrite Hv.
Qed.

Lemma define_all_values (P : A -> bool) kvs : forall acc : list (text * A),
  forallb (fun kv => P (snd kv)) kvs = true ->
  forallb (fun kv => P (snd kv)) acc = true ->
  forallb (fun kv => P (snd kv)) (define_all kvs acc) = true.
Proof.
  unfold define_all. induction kvs as [|[k v] r IH]; intros acc H Hacc; cbn [fold_left].
  - assumption.
  - cbn [forallb snd fst] in *. apply andb_true_iff in H as [Hv Hr].
    apply IH; [assumption|]. now apply define_values.
Qed.

Lemma own_define k v ps k' :
  k' <> k -> own (define k v ps) k' = own ps k'.
Proof.
  intros Hne. unfold define. destruct (own ps k) eqn:Hown.
  - rewrite own_replace. destruct (text_eqb_spec k' k); [contradiction | reflexivity].
  - destruct (array_index k) as [i|].
    + induction ps as [|[k1 v1] r IH]; cbn [insert_index own] in *.
      * destruct (text_eqb_spec k' k); [contradiction | reflexivity].
      * destruct (text_eqb_spec k k1); [discriminate|].
        destruct (array_index k1) as [j|].
        -- destruct (i <? j); cbn [own].
           ++ destruct (text_eqb_spec k' k); [contradiction | reflexivity].
           ++ destruct (text_eqb k' k1); [reflexivity | now apply IH].
        -- cbn [own]. destruct (text_eqb_spec k' k); [contradiction | reflexivity].
    + rewrite own_app_new. destruct (own ps k'); [reflexivity|].
      destruct (text_eqb_spec k' k); [contradiction | reflexivity].
Qed.

Lemma own_define_same k v ps : own (define k v ps) k = Some v.
Proof.
  unfold define. destruct (own ps k) eqn:Hown.
  - rewrite own_replace, text_eqb_refl, Hown. reflexivity.
  - destruct (array_index k) as [i|].
    + induction ps as [|[k1 v1] r IH]; cbn [insert_index own] in *.
      * now rewrite text_eqb_refl.
      * destruct (text_eqb_spec k k1); [discriminate|].
        destruct (array_index k1) as [j|].
        -- destruct (i <? j); cbn [own].
           ++ now rewrite text_eqb_refl.
           ++ destruct (text_eqb_spec k k1); [contradiction | now apply IH].
        -- cbn [own]. now rewrite text_eqb_refl.
    + rewrite own_app_new, Hown, text_eqb_refl. reflexivity.
Qed.
End Define.

(** ** Numbers: rounding *)
Lemma div_eucl_pair (a b : Z) : Z.div_eucl a b = (a / b, a mod b).
Proof. unfold Z.div, Z.modulo. destruct (Z.div_eucl a b). reflexivity. Qed.

Lemma normalize_spec (p : positive) (u : Z) (m : positive) (e : Z) :
  normalize p u = (m, e) ->
  odd_mantissa m = true /\ u <= e /\ Z.pos p = Z.pos m * 2 ^ (e - u).
Proof.
  revert u. induction p as [p IH | p IH |]; intros u H; cbn [normalize] in H.
  - injection H as <- <-. rewrite Z.sub_diag. cbn [odd_mantissa]. lia.
  - apply IH in H as (Ho & Hu & Hp). repeat split; [assumption | lia |].
    replace (e - u) with (Z.succ (e - (u + 1))) by lia.
    rewrite Z.pow_succ_r by lia. lia.
  - injection H as <- <-. rewrite Z.sub_diag. cbn [odd_mantissa]. lia.
Qed.

Lemma odd_mantissa_odd (m : positive) : odd_mantissa m = true -> Z.odd (Z.pos m) = true.
Proof. destruct m; [reflexivity | discriminate | reflexivity]. Qed.

Lemma normalize_odd (m : positive) (e : Z) :
  odd_mantissa m = true -> normalize m e = (m, e).
Proof. destruct m; [reflexivity | discriminate | reflexivity]. Qed.

Lemma normalize_shift (m : positive) (j : nat) (u : Z) :
  forall p, Z.pos p = Z.pos m * 2 ^ Z.of_nat j ->
  normalize p u = normalize m (u + Z.of_nat j).
Proof.
  revert u. induction j as [|j IH]; intros u p Hp.
  - rewrite Z.mul_1_r in Hp. injection Hp as ->. now rewrite Z.add_0_r.
  - rewrite Nat2Z.inj_succ, Z.pow_succ_r in Hp by lia.
    destruct p as [p | p |]; try lia.
    cbn [normalize]. rewrite (IH (u + 1) p) by lia. f_equal. lia.
Qed.

(** The count of units is below [2 ^ 53] before it is rounded. *)
Lemma units_bound (Q : Z) :
  0 <= Q -> Q / 2 ^ Z.max (Z.log2 Q - 52) 0 < 2 ^ 53.
Proof.
  intros HQ. set (u := Z.max (Z.log2 Q - 52) 0).
  assert (Hu : 0 <= u) by (unfold u; lia).
  apply Z.div_lt_upper_bound; [apply Z.pow_pos_nonneg; lia|].
  rewrite <- Z.pow_add_r by lia.
  destruct (Z.eq_dec Q 0) as [-> | Hne]; [apply Z.pow_pos_nonneg; lia|].
  destruct (Z.log2_spec Q ltac:(lia)) as [_ Hhi].
  eapply Z.lt_le_trans; [exact Hhi|].
  apply Z.pow_le_mono_r; unfold u; lia.
Qed.

Lemma round_ratio_unfold (negative : bool) (N M : Z) :
  round_ratio negative N M
  = let u := Z.max (Z.log2 (N * 2 ^ 1074 / M) - 52) 0 in
    let q := N * 2 ^ 1074 / (M * 2 ^ u) in
    let r := (N * 2 ^ 1074) mod (M * 2 ^ u) in
    let q' := if (M * 2 ^ u <? 2 * r) || ((M * 2 ^ u =? 2 * r) && Z.odd q)
              then q + 1 else q in
    match q' with
    | Zpos p =>
        let '(m, e) := normalize p (u - 1074) in
        if e + Z.log2 (Z.pos m) + 1 <=? 1024 then Finite negative m e
        else Infinite negative
    | _ => Zero negative
    end.
Proof. unfold round_ratio. rewrite div_eucl_pair. reflexivity. Qed.

Lemma odd_below (m : positive) (j : Z) :
  odd_mantissa m = true -> 0 <= j -> Z.pos m * 2 ^ j <= 2 ^ 53 -> Z.pos m < 2 ^ 53.
Proof.
  intros Ho Hj Hle.
  destruct (Z.eq_dec j 0) as [-> | Hne].
  - rewrite Z.mul_1_r in Hle. apply odd_mantissa_odd in Ho.
    destruct (Z.eq_dec (Z.pos m) (2 ^ 53)) as [E | E]; [|lia].
    rewrite E in Ho. discriminate.
  - assert (2 <= 2 ^ j).
    { replace j with (Z.succ (j - 1)) by lia. rewrite Z.pow_succ_r by lia.
      pose proof (Z.pow_pos_nonneg 2 (j - 1) ltac:(lia) ltac:(lia)). lia. }
    change (2 ^ 53) with 9007199254740992 in *. nia.
Qed.

Theorem round_ratio_ok (negative : bool) (N M : Z) :
  0 < N -> 0 < M -> number_ok (round_ratio negative N M) = true.
Proof.
  intros HN HM. rewrite round_ratio_unfold. cbv zeta.
  set (Q := N * 2 ^ 1074 / M).
  set (u := Z.max (Z.log2 Q - 52) 0).
  assert (Hu : 0 <= u) by (unfold u; lia).
  assert (HQ : 0 <= Q) by (apply Z.div_pos; [|lia]; apply Z.mul_nonneg_nonneg; lia).
  assert (Hq : N * 2 ^ 1074 / (M * 2 ^ u) < 2 ^ 53).
  { rewrite <- Z.div_div by (try lia; apply Z.pow_pos_nonneg; lia).
    apply units_bound, HQ. }
  set (q := N * 2 ^ 1074 / (M * 2 ^ u)) in *.
  match goal with |- context [if ?c then q + 1 else q] => destruct c end.
  - destruct (q + 1) as [|p|p] eqn:Hp; try reflexivity.
    destruct (normalize p (u - 1074)) as [m e] eqn:Hn.
    destruct (e + Z.log2 (Z.pos m) + 1 <=? 1024) eqn:Hov; [|reflexivity].
    apply normalize_spec in Hn as (Ho & He & Hm).
    cbn [number_ok]. rewrite Ho, Hov.
    assert (Z.pos m < 2 ^ 53) by (apply (odd_below m (e - (u - 1074))); [assumption | lia | lia]).
    repeat (apply andb_true_iff; split); try reflexivity;
      first [apply Z.ltb_lt | apply Z.leb_le]; lia.
  - destruct q as [|p|p] eqn:Hp; try reflexivity.
    destruct (normalize p (u - 1074)) as [m e] eqn:Hn.
    destruct (e + Z.log2 (Z.pos m) + 1 <=? 1024) eqn:Hov; [|reflexivity].
    apply normalize_spec in Hn as (Ho & He & Hm).
    cbn [number_ok]. rewrite Ho, Hov.
    assert (Z.pos m < 2 ^ 53) by (apply (odd_below m (e - (u - 1074))); [assumption | lia | lia]).
    repeat (apply andb_true_iff; split); try reflexivity;
      first [apply Z.ltb_lt | apply Z.leb_le]; lia.
Qed.

Lemma number_ok_finite (s : bool) (m : positive) (e : Z) :
  number_ok (Finite s m e) = true ->
  odd_mantissa m = true /\ Z.pos m < 2 ^ 53 /\ -1074 <= e
  /\ e + Z.log2 (Z.pos m) + 1 <= 1024.
Proof.
  cbn [number_ok]. intros H.
  apply andb_true_iff in H as [H H4]. apply andb_true_iff in H as [H H3].
  apply andb_true_iff in H as [H1 H2].
  apply Z.ltb_lt in H2. apply Z.leb_le in H3. apply Z.leb_le in H4. auto.
Qed.

(** A rational that is a number is rounded to itself. *)
Theorem round_ratio_exact (s : bool) (N M : Z) (m : positive) (e : Z) :
  0 < M -> number_ok (Finite s m e) = true ->
  N * 2 ^ 1074 = Z.pos m * 2 ^ (e + 1074) * M ->
  round_ratio s N M = Finite s m e.
Proof.
  intros HM Hok HN. apply number_ok_finite in Hok as (Ho & Hm & He & Hov).
  rewrite round_ratio_unfold. cbv zeta. rewrite HN.
  assert (Hp2 : 0 < 2 ^ (e + 1074)) by (apply Z.pow_pos_nonneg; lia).
  rewrite Z.div_mul by lia.
  rewrite Z.log2_mul_pow2 by lia.
  assert (Hl : Z.log2 (Z.pos m) < 53) by (apply Z.log2_lt_pow2; lia).
  set (u := Z.max (e + 1074 + Z.log2 (Z.pos m) - 52) 0).
  assert (Hu : 0 <= u <= e + 1074) by (unfold u; lia).
  set (j := e + 1074 - u).
  assert (Hsplit : Z.pos m * 2 ^ (e + 1074) * M = Z.pos m * 2 ^ j * (M * 2 ^ u)).
  { replace (e + 1074) with (j + u) by (unfold j; lia).
    rewrite Z.pow_add_r by (unfold j; lia). ring. }
  rewrite Hsplit.
  assert (Hden : 0 < M * 2 ^ u)
    by (apply Z.mul_pos_pos; [lia | apply Z.pow_pos_nonneg; lia]).
  rewrite Z.div_mul, Z.mod_mul by lia.
  replace (M * 2 ^ u <? 2 * 0) with false by (symmetry; apply Z.ltb_ge; lia).
  replace (M * 2 ^ u =? 2 * 0) with false by (symmetry; apply Z.eqb_neq; lia).
  cbn [orb andb].
  assert (Hj : 0 <= j) by (unfold j; lia).
  assert (Hpos : 0 < Z.pos m * 2 ^ j)
    by (apply Z.mul_pos_pos; [lia | apply Z.pow_pos_nonneg; lia]).
  destruct (Z.pos m * 2 ^ j) as [|p|p] eqn:Hp; try lia.
  rewrite (normalize_shift m (Z.to_nat j) (u - 1074) p)
    by (rewrite Z2Nat.id by lia; congruence).
  rewrite Z2Nat.id by lia.
  replace (u - 1074 + j) with e by (unfold j; lia).
  rewrite (normalize_odd m e Ho).
  replace (e + Z.log2 (Z.pos m) + 1 <=? 1024) with true
    by (symmetry; apply Z.leb_le; lia).
  reflexivity.
Qed.

Lemma of_decimal_sign (D E : Z) :
  of_decimal true D E
  = match of_decimal false D E with
    | Zero _ => Zero true
    | Finite _ m e => Finite true m e
    | Infinite _ => Infinite true
    | NaN => NaN
    end.
Proof.
  unfold of_decimal. destruct (D <=? 0); [reflexivity|].
  destruct (0 <=? E); rewrite !round_ratio_unfold; cbv zeta;
    match goal with
    | |- context [match ?q with Z0 => _ | Zpos _ => _ | Zneg _ => _ end] =>
        destruct q as [|p|p]; try reflexivity;
        destruct (normalize p _) as [m e];
        destruct (_ <=? 1024); reflexivity
    end.
Qed.

Lemma of_decimal_ok (s : bool) (D E : Z) : number_ok (of_decimal s D E) = true.
Proof.
  unfold of_decimal. destruct (Z.leb_spec D 0); [reflexivity|].
  destruct (0 <=? E) eqn:HE.
  - apply round_ratio_ok; [|lia].
    apply Z.leb_le in HE. apply Z.mul_pos_pos; [lia | apply Z.pow_pos_nonneg; lia].
  - apply Z.leb_gt in HE. apply round_ratio_ok; [lia | apply Z.pow_pos_nonneg; lia].
Qed.

Lemma of_decimal_not_nan (s : bool) (D E : Z) : of_decimal s D E <> NaN.
Proof.
  unfold of_decimal. destruct (D <=? 0); [discriminate|].
  destruct (0 <=? E); rewrite round_ratio_unfold; cbv zeta;
    match goal with
    | |- context [match ?q with Z0 => _ | Zpos _ => _ | Zneg _ => _ end] =>
        destruct q as [|p|p]; try discriminate;
        destruct (normalize p _) as [m e];
        destruct (_ <=? 1024); discriminate
    end.
Qed.

(** ** Numbers: the digits of Number::toString read back as the number *)
Lemma number_eqb_eq (x y : number) : number_eqb x y = true -> x = y.
Proof.
  destruct x as [a | a m e | a |], y as [b | b m' e' | b |]; cbn [number_eqb];
    try discriminate; intros H.
  - now apply eqb_prop in H as ->.
  - apply andb_true_iff in H as [H He]. apply andb_true_iff in H as [Hs Hm].
    apply eqb_prop in Hs as ->. apply Pos.eqb_eq in Hm as ->.
    now apply Z.eqb_eq in He as ->.
  - now apply eqb_prop in H as ->.
  - reflexivity.
Qed.

Lemma reads_as_spec (m : positive) (e s n : Z) :
  reads_as (Finite false m e) s n = true ->
  0 < s /\ of_decimal false s (n - Z.of_nat (ndigits s)) = Finite false m e.
Proof.
  unfold reads_as. intros H. apply number_eqb_eq in H. split; [|assumption].
  unfold of_decimal in H. destruct (Z.leb_spec s 0); [discriminate | lia].
Qed.

Lemma exact_digits_reads (m : positive) (e : Z) :
  number_ok (Finite false m e) = true ->
  0 < fst (exact_digits m e)
  /\ of_decimal false (fst (exact_digits m e))
       (snd (exact_digits m e) - Z.of_nat (ndigits (fst (exact_digits m e))))
     = Finite false m e.
Proof.
  intros Hok. pose proof (number_ok_finite _ _ _ Hok) as (_ & _ & He & _).
  unfold exact_digits. destruct (Z.leb_spec 0 e) as [H0 | H0]; cbn [fst snd].
  - assert (Hs : 0 < Z.pos m * 2 ^ e)
      by (apply Z.mul_pos_pos; [lia | apply Z.pow_pos_nonneg; lia]).
    split; [assumption|]. rewrite Z.sub_diag. unfold of_decimal.
    destruct (Z.leb_spec (Z.pos m * 2 ^ e) 0); [lia|]. cbn [Z.leb].
    apply round_ratio_exact; [lia | assumption |].
    change (10 ^ 0) with 1. rewrite Z.pow_add_r by lia. ring.
  - assert (Hs : 0 < Z.pos m * 5 ^ (- e))
      by (apply Z.mul_pos_pos; [lia | apply Z.pow_pos_nonneg; lia]).
    split; [assumption|].
    replace (Z.of_nat (ndigits (Z.pos m * 5 ^ (- e))) + e
             - Z.of_nat (ndigits (Z.pos m * 5 ^ (- e)))) with e by lia.
    unfold of_decimal. destruct (Z.leb_spec (Z.pos m * 5 ^ (- e)) 0); [lia|].
    destruct (Z.leb_spec 0 e); [lia|].
    apply round_ratio_exact; [apply Z.pow_pos_nonneg; lia | assumption |].
    change 10 with (2 * 5). rewrite Z.pow_mul_l.
    replace 1074 with (e + 1074 + - e) at 1 by lia.
    rewrite Z.pow_add_r by lia. ring.
Qed.

Lemma pick_reads (x : number) (a b r : Z * Z) :
  (if reads_as x (fst a) (snd a) then Some a
   else if reads_as x (fst b) (snd b) then Some b else None) = Some r ->
  reads_as x (fst r) (snd r) = true.
Proof.
  destruct (reads_as x (fst a) (snd a)) eqn:Ha; [now intros [= <-]|].
  destruct (reads_as x (fst b) (snd b)) eqn:Hb; [now intros [= <-] | discriminate].
Qed.

Lemma digits_of_length_reads (m : positive) (e vn vd n0 k s n : Z) :
  digits_of_length (Finite false m e) vn vd n0 k = Some (s, n) ->
  0 < s /\ of_decimal false s (n - Z.of_nat (ndigits s)) = Finite false m e.
Proof.
  unfold digits_of_length. intros H. apply pick_reads in H.
  now apply reads_as_spec in H.
Qed.

Lemma shortest_digits_reads (fuel : nat) (m : positive) (e vn vd n0 k : Z) :
  number_ok (Finite false m e) = true ->
  0 < fst (shortest_digits fuel (Finite false m e) m e vn vd n0 k)
  /\ of_decimal false (fst (shortest_digits fuel (Finite false m e) m e vn vd n0 k))
       (snd (shortest_digits fuel (Finite false m e) m e vn vd n0 k)
        - Z.of_nat (ndigits (fst (shortest_digits fuel (Finite false m e) m e
                                    vn vd n0 k))))
     = Finite false m e.
Proof.
  intros Hok. revert k. induction fuel as [|fuel IH]; intros k; cbn [shortest_digits].
  - now apply exact_digits_reads.
  - destruct (digits_of_length (Finite false m e) vn vd n0 k) as [[s n]|] eqn:Hd.
    + cbn [fst snd]. eapply digits_of_length_reads, Hd.
    + apply IH.
Qed.

(** The digits of a number are a decimal that is read as the number. *)
Theorem digits_reads (m : positive) (e : Z) :
  number_ok (Finite false m e) = true ->
  0 < fst (digits m e)
  /\ of_decimal false (fst (digits m e))
       (snd (digits m e) - Z.of_nat (ndigits (fst (digits m e))))
     = Finite false m e.
Proof. intros Hok. unfold digits. now apply shortest_digits_reads. Qed.

(** ** JSON.parse after JSON.stringify: string literals *)
Lemma hex_value_hex_char (d : Z) : 0 <= d < 16 -> hex_value (hex_char d) = Some d.
Proof.
  intros H.
  assert (C : d = 0 \/ d = 1 \/ d = 2 \/ d = 3 \/ d = 4 \/ d = 5 \/ d = 6 \/ d = 7
              \/ d = 8 \/ d = 9 \/ d = 10 \/ d = 11 \/ d = 12 \/ d = 13 \/ d = 14
              \/ d = 15) by lia.
  repeat (destruct C as [C | C]); subst; reflexivity.
Qed.

Lemma hex_places (n : Z) :
  0 <= n < 65536 ->
  ((n / 4096 * 16 + n / 256 mod 16) * 16 + n / 16 mod 16) * 16 + n mod 16 = n
  /\ 0 <= n / 4096 < 16.
Proof. intros H. Z.div_mod_to_equations. lia. Qed.

Lemma parse_chars_escape (c : char16) (r : text) :
  parse_chars (unicode_escape c ++ r) = pmap (cons c) (parse_chars r).
Proof.
  pose proof (code_range c) as Hc.
  destruct (hex_places (code c) Hc) as [Hsum H1].
  unfold unicode_escape. cbn [app parse_chars].
  change (code backslash =? 34) with false. change (code backslash =? 92) with true.
  change (code (char_of_code 117)) with 117. cbn [Z.eqb Pos.eqb]. cbv iota.
  rewrite !hex_value_hex_char
    by (try assumption; apply Z.mod_pos_bound; lia).
  now rewrite Hsum, char_of_code_code.
Qed.

Lemma parse_chars_raw (c : char16) (r : text) :
  32 <= code c -> code c <> 34 -> code c <> 92 ->
  parse_chars (c :: r) = pmap (cons c) (parse_chars r).
Proof.
  intros H1 H2 H3. cbn [parse_chars].
  destruct (Z.eqb_spec (code c) 34); [contradiction|].
  destruct (Z.eqb_spec (code c) 92); [contradiction|].
  destruct (Z.ltb_spec (code c) 32); [lia | reflexivity].
Qed.

Lemma parse_chars_quote_char (c : char16) (r : text) :
  parse_chars (quote_char c ++ r) = pmap (cons c) (parse_chars r).
Proof.
  unfold quote_char.
  destruct (Z.eqb_spec (code c) 34) as [E|N1];
    [rewrite <- (char_of_code_code c), E; reflexivity|].
  destruct (Z.eqb_spec (code c) 92) as [E|N2];
    [rewrite <- (char_of_code_code c), E; reflexivity|].
  destruct (Z.eqb_spec (code c) 8) as [E|N3];
    [rewrite <- (char_of_code_code c), E; reflexivity|].
  destruct (Z.eqb_spec (code c) 12) as [E|N4];
    [rewrite <- (char_of_code_code c), E; reflexivity|].
  destruct (Z.eqb_spec (code c) 10) as [E|N5];
    [rewrite <- (char_of_code_code c), E; reflexivity|].
  destruct (Z.eqb_spec (code c) 13) as [E|N6];
    [rewrite <- (char_of_code_code c), E; reflexivity|].
  destruct (Z.eqb_spec (code c) 9) as [E|N7];
    [rewrite <- (char_of_code_code c), E; reflexivity|].
  destruct ((code c <? 32) || is_lead c || is_trail c) eqn:Hesc.
  - apply parse_chars_escape.
  - apply orb_false_iff in Hesc as [Hesc _]. apply orb_false_iff in Hesc as [Hlow _].
    apply Z.ltb_ge in Hlow. cbn [app]. now apply parse_chars_raw.
Qed.

Lemma parse_chars_pair (c d : char16) (r : text) :
  is_lead c = true -> is_trail d = true ->
  parse_chars (c :: d :: r) = pmap (cons c) (pmap (cons d) (parse_chars r)).
Proof.
  unfold is_lead, is_trail. intros Hc Hd.
  apply andb_true_iff in Hc as [Hc _]. apply andb_true_iff in Hd as [Hd _].
  apply Z.leb_le in Hc, Hd.
  rewrite (parse_chars_raw c) by lia. now rewrite (parse_chars_raw d) by lia.
Qed.

Lemma quote_chars_pair (c d : char16) (r : text) :
  quote_chars (c :: d :: r)
  = if is_lead c && is_trail d then c :: d :: quote_chars r
    else quote_char c ++ quote_chars (d :: r).
Proof. reflexivity. Qed.

Lemma parse_chars_quote_length (n : nat) (s rest : text) :
  (List.length s <= n)%nat ->
  parse_chars (quote_chars s ++ dquote :: rest) = POk s rest.
Proof.
  revert s. induction n as [|n IH]; intros s Hlen.
  - destruct s; [reflexivity | cbn [List.length] in Hlen; lia].
  - destruct s as [|c [|d r]].
    + reflexivity.
    + cbn [quote_chars]. rewrite parse_chars_quote_char. reflexivity.
    + cbn [List.length] in Hlen. rewrite quote_chars_pair. destruct (is_lead c && is_trail d) eqn:Hp.
      * apply andb_true_iff in Hp as [Hc Hd]. cbn [app].
        rewrite parse_chars_pair by assumption.
        rewrite (IH r) by lia. reflexivity.
      * rewrite app_assoc_r, parse_chars_quote_char.
        rewrite (IH (d :: r)) by (cbn [List.length]; lia). reflexivity.
Qed.

Lemma parse_chars_quote (s rest : text) :
  parse_chars (quote_chars s ++ dquote :: rest) = POk s rest.
Proof. now apply (parse_chars_quote_length (List.length s)). Qed.

(** ** JSON.parse after JSON.stringify: number literals *)

Lemma number_stop_digit (s : text) : number_stop s = true -> starts_with_digit s = false.
Proof.
  destruct s as [|c r]; [reflexivity|]. cbn [number_stop starts_with_digit].
  destruct (is_digit c); [discriminate | reflexivity].
Qed.

Lemma digit_code (c : char16) (d : Z) :
  digit_of_char c = Some d -> 48 <= code c <= 57 /\ d = code c - 48.
Proof.
  unfold digit_of_char.
  destruct (Z.leb_spec 48 (code c)); cbn [andb]; [|discriminate].
  destruct (Z.leb_spec (code c) 57); [|discriminate].
  intros [= <-]. lia.
Qed.

Lemma read_digits_stop (s : text) (acc : Z) :
  starts_with_digit s = false -> read_digits s acc = (acc, s).
Proof.
  destruct s as [|c r]; cbn [read_digits starts_with_digit]; [reflexivity|].
  unfold is_digit. destruct (digit_of_char c); [discriminate | reflexivity].
Qed.

Lemma read_places_stop (s : text) (acc p : Z) :
  starts_with_digit s = false -> read_places s acc p = (acc, p, s).
Proof.
  destruct s as [|c r]; cbn [read_places starts_with_digit]; [reflexivity|].
  unfold is_digit. destruct (digit_of_char c); [discriminate | reflexivity].
Qed.

Lemma read_places_pad (w : nat) (x : Z) (rest : text) (acc p : Z) :
  read_places (pad w x ++ rest) acc p
  = read_places rest (acc * 10 ^ Z.of_nat w + x mod 10 ^ Z.of_nat w) (p + Z.of_nat w).
Proof.
  revert acc p. induction w as [|w IH]; intros acc p; cbn [pad app read_places].
  - f_equal; [|lia]. rewrite Z.mod_1_r. change (10 ^ Z.of_nat 0) with 1. lia.
  - rewrite digit_of_digit_char by apply mod10_range.
    rewrite IH. f_equal; [|lia]. rewrite mod_pow10_succ, pow10_succ. ring.
Qed.

Lemma pad_split (a b : nat) (x : Z) :
  pad (a + b) x = pad a (x / 10 ^ Z.of_nat b) ++ pad b x.
Proof.
  induction a as [|a IH]; [reflexivity|].
  cbn [Nat.add pad app]. rewrite IH. f_equal.
  rewrite Z.div_div by (try apply pow10_pos; pose proof (pow10_pos b); lia).
  rewrite <- Z.pow_add_r, <- Nat2Z.inj_add by lia.
  now rewrite (Nat.add_comm b a).
Qed.

Lemma starts_with_digit_pad (w : nat) (x : Z) (rest : text) :
  (0 < w)%nat -> starts_with_digit (pad w x ++ rest) = true.
Proof.
  destruct w as [|w]; [lia|]. intros _. cbn [pad app starts_with_digit].
  unfold is_digit. now rewrite digit_of_digit_char by apply mod10_range.
Qed.

Lemma read_fraction_none (i : Z) (s : text) :
  number_stop s = true -> read_fraction i s = Some (i, 0, s).
Proof.
  destruct s as [|c r]; [reflexivity|]. cbn [number_stop read_fraction]. intros H.
  apply andb_true_iff in H as [H _]. apply andb_true_iff in H as [H _].
  apply andb_true_iff in H as [_ H]. apply negb_true_iff in H. now rewrite H.
Qed.

Lemma read_exponent_none (s : text) :
  number_stop s = true -> read_exponent s = Some (0, s).
Proof.
  destruct s as [|c r]; [reflexivity|]. cbn [number_stop read_exponent]. intros H.
  apply andb_true_iff in H as [H H4]. apply andb_true_iff in H as [_ H3].
  apply negb_true_iff in H3, H4. now rewrite H3, H4.
Qed.

Lemma read_fraction_pad (i : Z) (w : nat) (x : Z) (rest : text) :
  (0 < w)%nat -> starts_with_digit rest = false ->
  read_fraction i (txt "." ++ pad w x ++ rest)
  = Some (i * 10 ^ Z.of_nat w + x mod 10 ^ Z.of_nat w, Z.of_nat w, rest).
Proof.
  intros Hw Hrest. cbn [txt app read_fraction].
  change (code (zero, "."%char) =? 46) with true. cbv iota.
  rewrite starts_with_digit_pad by assumption.
  rewrite read_places_pad, read_places_stop by assumption. reflexivity.
Qed.

Lemma read_exponent_print (X : Z) (rest : text) :
  starts_with_digit rest = false ->
  read_exponent (exponent_text X ++ rest) = Some (X, rest).
Proof.
  intros Hrest. unfold exponent_text. rewrite !app_assoc_r.
  cbn [txt app read_exponent].
  change (code (zero, "e"%char) =? 101) with true. cbn [orb].
  pose proof (ndigits_fuel_pos (Z.to_nat (Z.log2 (Z.abs X))) (Z.abs X)) as Hpos.
  fold (ndigits (Z.abs X)) in Hpos.
  destruct (Z.leb_spec 0 X) as [H | H]; cbn [txt app].
  - change (code (zero, "+"%char) =? 43) with true. cbv iota.
    unfold read_signed. rewrite starts_with_digit_pad by lia.
    rewrite read_digits_print, read_digits_stop by (try assumption; lia).
    f_equal. f_equal. lia.
  - change (code (zero, "-"%char) =? 43) with false.
    change (code (zero, "-"%char) =? 45) with true. cbv iota.
    unfold read_signed. rewrite starts_with_digit_pad by lia.
    rewrite read_digits_print, read_digits_stop by (try assumption; lia).
    f_equal. f_equal. lia.
Qed.

Lemma ndigits_bounds (s : Z) :
  0 < s ->
  (0 < ndigits s)%nat
  /\ 10 ^ (Z.of_nat (ndigits s) - 1) <= s < 10 ^ Z.of_nat (ndigits s).
Proof.
  intros Hs. destruct (ndigits_spec s ltac:(lia)) as [Hup Hlow].
  pose proof (ndigits_fuel_pos (Z.to_nat (Z.log2 s)) s) as Hpos.
  fold (ndigits s) in Hpos. split; [lia|]. split; [|assumption].
  destruct (Z.ltb_spec s 10) as [Hsmall | Hbig]; [|now apply Hlow].
  rewrite (ndigits_small s Hsmall). change (10 ^ (Z.of_nat 1 - 1)) with 1. lia.
Qed.

Lemma pad_leading (n : nat) (x : Z) :
  (0 < n)%nat -> 10 ^ (Z.of_nat n - 1) <= x < 10 ^ Z.of_nat n ->
  exists d r, pad n x = digit_char d :: r /\ 1 <= d <= 9.
Proof.
  destruct n as [|n]; [lia|]. intros _ Hx.
  replace (Z.of_nat (S n) - 1) with (Z.of_nat n) in Hx by lia.
  rewrite pow10_succ in Hx. pose proof (pow10_pos n) as Hp.
  cbn [pad]. eexists _, _. split; [reflexivity|].
  assert (1 <= x / 10 ^ Z.of_nat n < 10).
  { split; [apply Z.div_le_lower_bound; lia | apply Z.div_lt_upper_bound; lia]. }
  rewrite Z.mod_small; lia.
Qed.

Lemma parse_unsigned_nonzero (negative : bool) (t : text) (d : Z) (r : text) :
  t = digit_char d :: r -> 1 <= d <= 9 ->
  parse_unsigned negative t = finish negative (read_digits t 0).
Proof.
  intros -> Hd. unfold parse_unsigned, finish.
  rewrite digit_of_digit_char by lia. destruct (Z.eqb_spec d 0); [lia|].
  destruct (read_digits (digit_char d :: r) 0) as [i s1]. reflexivity.
Qed.

Lemma parse_unsigned_zero (negative : bool) (r : text) :
  parse_unsigned negative (digit_char 0 :: r) = finish negative (0, r).
Proof. reflexivity. Qed.

Lemma of_decimal_scaled (negative : bool) (s j : Z) :
  0 <= j -> of_decimal negative (s * 10 ^ j) 0 = of_decimal negative s j.
Proof.
  intros Hj. unfold of_decimal. pose proof (Z.pow_pos_nonneg 10 j ltac:(lia) Hj).
  destruct (Z.leb_spec s 0); destruct (Z.leb_spec (s * 10 ^ j) 0); try nia;
    [reflexivity|].
  destruct (Z.leb_spec 0 j); [|lia]. cbn [Z.leb]. change (10 ^ 0) with 1.
  now rewrite Z.mul_1_r.
Qed.

Lemma pad_zero_high (z k : nat) (s : Z) :
  0 <= s < 10 ^ Z.of_nat k -> pad z 0 ++ pad k s = pad (z + k) s.
Proof.
  intros Hs. rewrite pad_split. now rewrite Z.div_small by assumption.
Qed.

Lemma integer_form (negative : bool) (s : Z) (j : nat) (rest : text) :
  0 < s -> number_stop rest = true ->
  parse_unsigned negative (pad (ndigits s) s ++ pad j 0 ++ rest)
  = POk (of_decimal negative s (Z.of_nat j)) rest.
Proof.
  intros Hs Hstop. destruct (ndigits_bounds s Hs) as (Hk & Hb).
  destruct (pad_leading _ s Hk Hb) as (d & r & Hpad & Hd).
  rewrite (parse_unsigned_nonzero negative _ d (r ++ pad j 0 ++ rest))
    by (try assumption; now rewrite Hpad).
  rewrite !read_digits_pad, read_digits_stop by now apply number_stop_digit.
  unfold finish. cbn [fst snd].
  rewrite read_fraction_none, read_exponent_none by assumption.
  rewrite Z.mod_small by lia. rewrite Z.mod_0_l by (pose proof (pow10_pos j); lia).
  cbn [Z.mul]. rewrite Z.add_0_r, Z.sub_0_r. cbn [Z.add].
  now rewrite of_decimal_scaled by lia.
Qed.

Lemma fraction_form (negative : bool) (s : Z) (a b : nat) (t : text) (X : Z)
    (rest : text) :
  0 < s -> ndigits s = (a + b)%nat -> (0 < a)%nat -> (0 < b)%nat ->
  starts_with_digit t = false -> read_exponent t = Some (X, rest) ->
  parse_unsigned negative (pad a (s / 10 ^ Z.of_nat b) ++ txt "." ++ pad b s ++ t)
  = POk (of_decimal negative s (X - Z.of_nat b)) rest.
Proof.
  intros Hs Hk Ha Hb Ht HX. destruct (ndigits_bounds s Hs) as (_ & Hlo & Hhi).
  rewrite Hk in Hlo, Hhi. pose proof (pow10_pos b) as Hpb.
  assert (Hsplit : 10 ^ Z.of_nat (a + b) = 10 ^ Z.of_nat a * 10 ^ Z.of_nat b)
    by (rewrite Nat2Z.inj_add, Z.pow_add_r by lia; reflexivity).
  assert (Hsplit' : 10 ^ (Z.of_nat (a + b) - 1)
                    = 10 ^ (Z.of_nat a - 1) * 10 ^ Z.of_nat b).
  { replace (Z.of_nat (a + b) - 1) with (Z.of_nat a - 1 + Z.of_nat b) by lia.
    rewrite Z.pow_add_r by lia. reflexivity. }
  assert (Hhi' : 10 ^ (Z.of_nat a - 1) <= s / 10 ^ Z.of_nat b < 10 ^ Z.of_nat a).
  { split; [apply Z.div_le_lower_bound | apply Z.div_lt_upper_bound]; lia. }
  destruct (pad_leading a _ Ha Hhi') as (d & r & Hpad & Hd).
  rewrite (parse_unsigned_nonzero negative _ d (r ++ txt "." ++ pad b s ++ t))
    by (try assumption; now rewrite Hpad).
  rewrite read_digits_pad.
  rewrite (read_digits_stop (txt "." ++ pad b s ++ t)) by reflexivity.
  unfold finish. cbn [fst snd].
  rewrite read_fraction_pad by assumption. rewrite HX.
  f_equal. f_equal. cbn [Z.mul Z.add]. rewrite (Z.mod_small _ (10 ^ Z.of_nat a)) by lia.
  pose proof (Z.div_mod s (10 ^ Z.of_nat b) ltac:(lia)). lia.
Qed.

Lemma small_form (negative : bool) (s : Z) (z : nat) (rest : text) :
  0 < s -> number_stop rest = true ->
  parse_unsigned negative (txt "0." ++ pad z 0 ++ pad (ndigits s) s ++ rest)
  = POk (of_decimal negative s (- Z.of_nat (z + ndigits s))) rest.
Proof.
  intros Hs Hstop. destruct (ndigits_bounds s Hs) as (Hk & Hlo & Hhi).
  change (txt "0." ++ pad z 0 ++ pad (ndigits s) s ++ rest)
    with (digit_char 0 :: txt "." ++ pad z 0 ++ pad (ndigits s) s ++ rest).
  rewrite parse_unsigned_zero. unfold finish. cbn [fst snd].
  rewrite (app_assoc (pad z 0)), pad_zero_high by lia.
  rewrite read_fraction_pad by (try lia; now apply number_stop_digit).
  rewrite read_exponent_none by assumption.
  f_equal. f_equal. cbn [Z.mul Z.add]. apply Z.mod_small.
  split; [lia|]. eapply Z.lt_le_trans; [exact Hhi|].
  apply Z.pow_le_mono_r; lia.
Qed.

Lemma exponent_form (negative : bool) (s X : Z) (rest : text) :
  0 < s -> ndigits s = 1%nat -> starts_with_digit rest = false ->
  parse_unsigned negative (pad 1 s ++ exponent_text X ++ rest)
  = POk (of_decimal negative s X) rest.
Proof.
  intros Hs Hk Hstop. destruct (ndigits_bounds s Hs) as (Hk' & Hb).
  rewrite Hk in Hb. destruct (pad_leading 1 s ltac:(lia) Hb) as (d & r & Hpad & Hd).
  rewrite (parse_unsigned_nonzero negative _ d (r ++ exponent_text X ++ rest))
    by (try assumption; now rewrite Hpad).
  rewrite read_digits_pad.
  rewrite (read_digits_stop (exponent_text X ++ rest)) by reflexivity.
  unfold finish. cbn [fst snd].
  change (read_fraction (0 * 10 ^ Z.of_nat 1 + s mod 10 ^ Z.of_nat 1)
            (exponent_text X ++ rest))
    with (Some (0 * 10 ^ Z.of_nat 1 + s mod 10 ^ Z.of_nat 1, 0,
                exponent_text X ++ rest)).
  cbv beta iota. rewrite read_exponent_print by assumption.
  f_equal. f_equal; [|lia]. cbn [Z.mul Z.add]. apply Z.mod_small. lia.
Qed.

Lemma layout_unfold (s n : Z) :
  layout s n
  = let k := ndigits s in
    let kz := Z.of_nat k in
    if (kz <=? n) && (n <=? 21) then pad k s ++ zeros (n - kz)
    else if (0 <? n) && (n <=? 21) then
      pad (Z.to_nat n) (s / 10 ^ (kz - n)) ++ txt "." ++ pad (Z.to_nat (kz - n)) s
    else if (-6 <? n) && (n <=? 0) then txt "0." ++ zeros (- n) ++ pad k s
    else if kz =? 1 then pad k s ++ exponent_text (n - 1)
    else pad 1 (s / 10 ^ (kz - 1)) ++ txt "." ++ pad (k - 1) s
           ++ exponent_text (n - 1).
Proof. reflexivity. Qed.

(** The text of the digits [s] with the point after [n] places is read as
    the decimal [s * 10 ^ (n - k)], [k] the number of digits of [s]. *)
Theorem layout_parse (negative : bool) (s n : Z) (rest : text) :
  0 < s -> number_stop rest = true ->
  parse_unsigned negative (layout s n ++ rest)
  = POk (of_decimal negative s (n - Z.of_nat (ndigits s))) rest.
Proof.
  intros Hs Hstop. rewrite layout_unfold. cbv zeta.
  destruct (ndigits_bounds s Hs) as (Hk & _).
  pose proof (number_stop_digit rest Hstop) as Hdig.
  set (k := ndigits s) in *.
  assert (Hexp :
    parse_unsigned negative
      ((if Z.of_nat k =? 1 then pad k s ++ exponent_text (n - 1)
        else pad 1 (s / 10 ^ (Z.of_nat k - 1)) ++ txt "." ++ pad (k - 1) s
               ++ exponent_text (n - 1)) ++ rest)
    = POk (of_decimal negative s (n - Z.of_nat k)) rest).
  { destruct (Z.eqb_spec (Z.of_nat k) 1) as [E | E].
    - rewrite app_assoc_r. replace k with 1%nat by lia.
      rewrite exponent_form by (try assumption; fold k; lia).
      f_equal; f_equal; lia.
    - rewrite !app_assoc_r.
      replace (10 ^ (Z.of_nat k - 1)) with (10 ^ Z.of_nat (k - 1))
        by (f_equal; lia).
      rewrite (fraction_form negative s 1 (k - 1) _ (n - 1) rest);
        try assumption; try reflexivity; try (fold k; lia).
      + f_equal; f_equal; lia.
      + now apply read_exponent_print. }
  destruct (Z.leb_spec (Z.of_nat k) n) as [H1 | H1]; cbn [andb].
  - destruct (Z.leb_spec n 21) as [H2 | H2].
    + unfold zeros. rewrite app_assoc_r. unfold k.
      rewrite integer_form by assumption. f_equal; f_equal; fold k; lia.
    + destruct (Z.ltb_spec 0 n); [|lia]. cbn [andb].
      destruct (Z.ltb_spec (-6) n); [|lia]. destruct (Z.leb_spec n 0); [lia|].
      cbn [andb]. exact Hexp.
  - destruct (Z.ltb_spec 0 n) as [H2 | H2]; cbn [andb].
    + destruct (Z.leb_spec n 21) as [H3 | H3].
      * rewrite !app_assoc_r.
        replace (10 ^ (Z.of_nat k - n))
          with (10 ^ Z.of_nat (Z.to_nat (Z.of_nat k - n))) by (f_equal; lia).
        rewrite (fraction_form negative s (Z.to_nat n) (Z.to_nat (Z.of_nat k - n))
                   rest 0 rest);
          try assumption; try lia; try (fold k; lia).
        -- f_equal; f_equal; lia.
        -- now apply read_exponent_none.
      * destruct (Z.ltb_spec (-6) n); [|lia]. destruct (Z.leb_spec n 0); [lia|].
        cbn [andb]. exact Hexp.
    + destruct (Z.ltb_spec (-6) n) as [H3 | H3]; cbn [andb].
      * destruct (Z.leb_spec n 0); [|lia]. unfold zeros. rewrite !app_assoc_r.
        unfold k. rewrite small_form by assumption. f_equal; f_equal; fold k; lia.
      * exact Hexp.
Qed.

(** ** JSON.parse after JSON.stringify: values *)

Lemma parse_unsigned_shape (negative : bool) (t : text) (x : number) (r : text) :
  parse_unsigned negative t = POk x r ->
  exists c t', t = c :: t' /\ 48 <= code c <= 57.
Proof.
  destruct t as [|c t']; [discriminate|]. cbn [parse_unsigned].
  destruct (digit_of_char c) as [d|] eqn:Hd; [|discriminate].
  intros _. apply digit_code in Hd as [Hd _]. eauto.
Qed.

Lemma parse_number_unsigned (t : text) (x : number) (r : text) :
  parse_unsigned false t = POk x r -> parse_number t = POk x r.
Proof.
  intros H. destruct (parse_unsigned_shape _ _ _ _ H) as (c & t' & -> & Hc).
  unfold parse_number. destruct (Z.eqb_spec (code c) 45); [lia | assumption].
Qed.

Theorem parse_number_print (x : number) (rest : text) :
  number_ok x = true -> number_stop rest = true ->
  match x with
  | Zero _ | Finite _ _ _ =>
      parse_number (number_to_string x ++ rest) = POk (settle_number x) rest
  | _ => True
  end.
Proof.
  intros Hok Hstop. destruct x as [s | s m e | s |]; try exact I.
  - cbn [number_to_string settle_number].
    change (txt "0" ++ rest) with (digit_char 0 :: rest).
    apply parse_number_unsigned. rewrite parse_unsigned_zero. unfold finish.
    cbn [fst snd]. now rewrite read_fraction_none, read_exponent_none by assumption.
  - cbn [number_to_string settle_number].
    assert (Hok' : number_ok (Finite false m e) = true) by exact Hok.
    destruct (digits_reads m e Hok') as [Hpos Hread].
    destruct (digits m e) as [d n]. cbn [fst snd] in Hpos, Hread.
    destruct s.
    + change ((txt "-" ++ layout d n) ++ rest)
        with (char_of_code 45 :: layout d n ++ rest).
      unfold parse_number. change (code (char_of_code 45) =? 45) with true.
      cbv iota. rewrite layout_parse by assumption.
      now rewrite of_decimal_sign, Hread.
    + cbn [app]. apply parse_number_unsigned.
      now rewrite layout_parse, Hread by assumption.
Qed.

Lemma number_start (c : char16) :
  code c = 45 \/ 48 <= code c <= 57 ->
  is_ws c = false /\ (code c =? 123) = false /\ (code c =? 91) = false
  /\ (code c =? 34) = false /\ (code c =? 93) = false
  /\ (code c =? 45) || is_digit c = true.
Proof.
  intros H. unfold is_ws, is_digit, digit_of_char.
  destruct (Z.eqb_spec (code c) 32); [lia|].
  destruct (Z.eqb_spec (code c) 9); [lia|].
  destruct (Z.eqb_spec (code c) 10); [lia|].
  destruct (Z.eqb_spec (code c) 13); [lia|].
  destruct (Z.eqb_spec (code c) 123); [lia|].
  destruct (Z.eqb_spec (code c) 91); [lia|].
  destruct (Z.eqb_spec (code c) 34); [lia|].
  destruct (Z.eqb_spec (code c) 93); [lia|].
  repeat split.
  destruct (Z.eqb_spec (code c) 45); [reflexivity|].
  destruct (Z.leb_spec 48 (code c)); [|lia].
  destruct (Z.leb_spec (code c) 57); [reflexivity | lia].
Qed.

Lemma parse_number_shape (t : text) (x : number) (r : text) :
  parse_number t = POk x r ->
  exists c t', t = c :: t' /\ (code c = 45 \/ 48 <= code c <= 57).
Proof.
  destruct t as [|c t']; [discriminate|]. cbn [parse_number].
  destruct (Z.eqb_spec (code c) 45); [eauto|].
  intros H. apply parse_unsigned_shape in H as (c' & t'' & [= <- <-] & Hc). eauto.
Qed.

Lemma parse_value_number (f : nat) (t : text) (x : number) (r : text) :
  parse_number t = POk x r -> parse_value (S f) t = POk (VNum x) r.
Proof.
  intros H. destruct (parse_number_shape _ _ _ H) as (c & t' & -> & Hc).
  destruct (number_start c Hc) as (Hws & H1 & H2 & H3 & _ & H4).
  cbn [parse_value skip_ws]. rewrite Hws, H1, H2, H3, H4, H. reflexivity.
Qed.

(** The text of a value starts with a character that is neither white space
    nor a closing bracket. *)
Lemma element_text_first (v : value) :
  json_value v = true ->
  exists c t, element_text v = c :: t
              /\ is_ws c = false /\ (code c =? 93) = false.
Proof.
  destruct v as [| |b|x|s|xs|ps]; unfold element_text; cbn [stringify]; intros Hj;
    try (eexists _, _; repeat split; reflexivity).
  - destruct b; eexists _, _; repeat split; reflexivity.
  - destruct x as [s | s m e | s |]; try discriminate;
      try (eexists _, _; repeat split; reflexivity).
    cbn [json_value] in Hj.
    pose proof (parse_number_print (Finite s m e) [] Hj eq_refl) as Hp.
    cbv beta iota in Hp. rewrite app_nil_r in Hp.
    destruct (parse_number_shape _ _ _ Hp) as (c & t & E & Hc).
    destruct (number_start c Hc) as (Hws & _ & _ & _ & H93 & _).
    exists c, t. cbn [number_text]. auto.
Qed.

Lemma stringify_text (v : value) :
  json_value v = true -> stringify v = Some (element_text v).
Proof.
  unfold element_text. destruct (stringify v) eqn:E; [reflexivity|].
  destruct v; cbn in E; try discriminate E. discriminate.
Qed.

Lemma array_text (xs : list value) :
  element_text (VArr xs) = txt "[" ++ join (txt ",") (map element_text xs) ++ txt "]".
Proof. reflexivity. Qed.

Lemma stringify_array_text (xs : list value) :
  stringify_array xs = element_text (VArr xs).
Proof. reflexivity. Qed.

Lemma object_text (ps : list (text * value)) :
  forallb (fun kv => json_value (snd kv)) ps = true ->
  element_text (VObj ps) = txt "{" ++ join (txt ",") (map member_text ps) ++ txt "}".
Proof.
  intros H. unfold element_text. cbn [stringify]. do 3 f_equal.
  induction ps as [|[k v] r IH]; cbn [flat_map map forallb snd fst] in *; [reflexivity|].
  apply andb_true_iff in H as [Hv Hr].
  rewrite (stringify_text v Hv), IH by assumption. reflexivity.
Qed.

Lemma join_cons (sep x y : text) (r : list text) :
  join sep (x :: y :: r) = x ++ sep ++ join sep (y :: r).
Proof. reflexivity. Qed.

Lemma parse_elements_text (xs : list value) :
  Forall reads_back xs -> forallb json_value xs = true -> xs <> [] ->
  forall fuel rest, (elements_size xs <= fuel)%nat ->
  parse_elements fuel (join (txt ",") (map element_text xs) ++ txt "]" ++ rest)
  = POk (map settle xs) rest.
Proof.
  induction xs as [|x r IH]; intros HF Hj Hne fuel rest Hfuel; [contradiction|].
  inversion HF as [|? ? Hx Hr]; subst.
  cbn [forallb] in Hj. apply andb_true_iff in Hj as [Hjx Hjr].
  cbn [elements_size fold_right] in Hfuel. fold (elements_size r) in Hfuel.
  destruct fuel as [|f]; [lia|].
  destruct r as [|y r'].
  - cbn [map join parse_elements].
    rewrite (Hx Hjx f (txt "]" ++ rest)) by (reflexivity || lia). reflexivity.
  - cbn [map]. rewrite join_cons, !app_assoc_r. cbn [parse_elements].
    rewrite (Hx Hjx f (txt "," ++ _)) by (reflexivity || lia).
    cbn [txt app skip_ws]. change (is_ws (zero, ","%char)) with false. cbv beta iota.
    change (code (zero, ","%char) =? 44) with true. cbv beta iota.
    pose proof (IH Hr Hjr ltac:(discriminate) f rest ltac:(lia)) as Hel.
    cbn [map txt app] in Hel. rewrite Hel. reflexivity.
Qed.

Lemma parse_members_text (ps : list (text * value)) :
  Forall (fun kv => reads_back (snd kv)) ps ->
  forallb (fun kv => json_value (snd kv)) ps = true -> ps <> [] ->
  forall fuel rest, (members_size ps <= fuel)%nat ->
  parse_members fuel (join (txt ",") (map member_text ps) ++ txt "}" ++ rest)
  = POk (map settle_member ps) rest.
Proof.
  induction ps as [|[k v] r IH]; intros HF Hj Hne fuel rest Hfuel; [contradiction|].
  inversion HF as [|? ? Hx Hr]; subst. cbn [snd] in Hx.
  cbn [forallb snd] in Hj. apply andb_true_iff in Hj as [Hjx Hjr].
  cbn [members_size fold_right snd] in Hfuel. fold (members_size r) in Hfuel.
  destruct fuel as [|f]; [lia|].
  assert (Hkey : forall tail,
    parse_members (S f) (member_text (k, v) ++ tail)
    = match parse_value f (element_text v ++ tail) with
      | POk v' rest1 =>
          match skip_ws rest1 with
          | c2 :: r2 =>
              if code c2 =? 44 then pmap (cons (k, v')) (parse_members f r2)
              else if code c2 =? 125 then POk [(k, v')] r2
              else PSyntax
          | [] => PSyntax
          end
      | PSyntax => PSyntax
      | PFuel => PFuel
      end).
  { intros tail. unfold member_text, quote. cbn [fst snd app].
    rewrite !app_assoc_r. cbn [app parse_members skip_ws].
    change (is_ws dquote) with false. cbv beta iota.
    change (code dquote =? 34) with true. cbv beta iota.
    rewrite parse_chars_quote. cbn [txt app skip_ws].
    change (is_ws (zero, ":"%char)) with false. cbv beta iota.
    change (code (zero, ":"%char) =? 58) with true. cbv beta iota. reflexivity. }
  destruct r as [|y r'].
  - cbn [map join]. rewrite Hkey.
    rewrite (Hx Hjx f (txt "}" ++ rest)) by (reflexivity || lia). reflexivity.
  - cbn [map]. rewrite join_cons, !app_assoc_r. rewrite Hkey.
    rewrite (Hx Hjx f (txt "," ++ _)) by (reflexivity || lia).
    cbn [txt app skip_ws]. change (is_ws (zero, ","%char)) with false. cbv beta iota.
    change (code (zero, ","%char) =? 44) with true. cbv beta iota.
    pose proof (IH Hr Hjr ltac:(discriminate) f rest ltac:(lia)) as Hel.
    cbn [map txt app] in Hel. rewrite Hel. reflexivity.
Qed.

Lemma ordered_settle (ps : list (text * value)) :
  ordered (map settle_member ps) = ordered ps.
Proof. unfold ordered. now rewrite map_map. Qed.

Lemma parse_value_start (f : nat) (c : char16) (r : text) :
  is_ws c = false ->
  parse_value (S f) (c :: r)
  = let n := code c in
    if n =? 123 then
      match skip_ws r with
      | c' :: r' =>
          if code c' =? 125 then POk (VObj []) r'
          else pmap (fun kvs => VObj (define_all kvs []))
                 (parse_members f (c' :: r'))
      | [] => PSyntax
      end
    else if n =? 91 then
      match skip_ws r with
      | c' :: r' =>
          if code c' =? 93 then POk (VArr []) r'
          else pmap VArr (parse_elements f (c' :: r'))
      | [] => PSyntax
      end
    else if n =? 34 then pmap VStr (parse_chars r)
    else if (n =? 45) || is_digit c then pmap VNum (parse_number (c :: r))
    else if n =? 116 then expect_word (txt "true") (VBool true) (c :: r)
    else if n =? 102 then expect_word (txt "false") (VBool false) (c :: r)
    else if n =? 110 then expect_word (txt "null") VNull (c :: r)
    else PSyntax.
Proof. intros H. cbn [parse_value skip_ws]. rewrite H. reflexivity. Qed.

(** Parsing the text of a value gives the value back, without what the text
    does not keep, and stops after it. *)
Lemma parse_value_text (v : value) : reads_back v.
Proof.
  induction v as [| |b|x|s|xs IH|ps IH] using value_ind;
    intros Hj fuel rest Hfuel Hstop; cbn [size] in Hfuel;
    (destruct fuel as [|f]; [lia|]).
  - discriminate.
  - reflexivity.
  - destruct b; reflexivity.
  - destruct x as [s | s m e | s |]; try discriminate; try reflexivity.
    + apply parse_value_number.
      exact (parse_number_print (Zero s) rest eq_refl Hstop).
    + apply parse_value_number.
      exact (parse_number_print (Finite s m e) rest Hj Hstop).
  - change (element_text (VStr s) ++ rest)
      with (dquote :: (quote_chars s ++ [dquote]) ++ rest).
    rewrite parse_value_start by reflexivity.
    change (code dquote) with 34. cbv beta iota zeta.
    change (34 =? 123) with false. change (34 =? 91) with false.
    change (34 =? 34) with true. cbv beta iota.
    rewrite app_assoc_r. cbn [app]. rewrite parse_chars_quote. reflexivity.
  - cbn [json_value] in Hj. fold (elements_size xs) in Hfuel.
    rewrite array_text, !app_assoc_r. cbn [txt app].
    rewrite parse_value_start by reflexivity.
    change (code (zero, "["%char)) with 91. cbv beta iota zeta.
    change (91 =? 123) with false. change (91 =? 91) with true. cbv beta iota.
    destruct xs as [|x r].
    + reflexivity.
    + assert (Hjx : json_value x = true)
        by (cbn [forallb] in Hj; now apply andb_true_iff in Hj as [Hjx _]).
      destruct (element_text_first x Hjx) as (c & t & E & Hws & H93).
      assert (Hshape : exists t',
        join (txt ",") (map element_text (x :: r)) ++ txt "]" ++ rest = c :: t').
      { destruct r; cbn [map join]; rewrite E; cbn [app]; eauto. }
      destruct Hshape as [t' Ht'].
      pose proof (parse_elements_text (x :: r) IH Hj ltac:(discriminate) f rest
                    ltac:(lia)) as Hel.
      cbn [txt app] in Ht', Hel.
      rewrite Ht' in *. cbn [skip_ws]. rewrite Hws, H93, Hel. reflexivity.
  - cbn [json_value] in Hj. apply andb_true_iff in Hj as [Hord Hj].
    fold (members_size ps) in Hfuel.
    rewrite (object_text ps Hj), !app_assoc_r. cbn [txt app].
    rewrite parse_value_start by reflexivity.
    change (code (zero, "{"%char)) with 123. cbv beta iota zeta.
    change (123 =? 123) with true. cbv beta iota.
    destruct ps as [|[k v] r].
    + reflexivity.
    + pose proof (parse_members_text ((k, v) :: r) IH Hj ltac:(discriminate) f rest
                    ltac:(lia)) as Hm.
      assert (Hshape : exists t',
        join (txt ",") (map member_text ((k, v) :: r)) ++ txt "}" ++ rest
        = dquote :: t').
      { destruct r; cbn [map join]; unfold member_text at 1, quote;
          cbn [app]; eauto. }
      destruct Hshape as [t' Ht'].
      cbn [txt app] in Ht', Hm.
      rewrite Ht' in *. cbn [skip_ws].
      change (is_ws dquote) with false. cbv beta iota.
      change (code dquote =? 125) with false. cbv beta iota.
      rewrite Hm. cbn [pmap]. rewrite define_all_same by now rewrite ordered_settle.
      reflexivity.
Qed.

Lemma join_length (f : value -> text) (xs : list value) :
  Forall (fun x => (size x <= List.length (f x))%nat) xs ->
  (elements_size xs <= S (List.length (join (txt ",") (map f xs))))%nat.
Proof.
  induction xs as [|x r IH]; intros HF; cbn [elements_size fold_right]; [cbn; lia|].
  fold (elements_size r). inversion HF as [|? ? Hx Hr]; subst.
  specialize (IH Hr). destruct r as [|y r'].
  - cbn [map join elements_size fold_right]. lia.
  - cbn [map] in *. rewrite join_cons, !length_app.
    change (List.length (txt ",")) with 1%nat. lia.
Qed.

Lemma members_length (ps : list (text * value)) :
  Forall (fun kv => (size (snd kv) <= List.length (element_text (snd kv)))%nat) ps ->
  (members_size ps <= S (List.length (join (txt ",") (map member_text ps))))%nat.
Proof.
  induction ps as [|[k v] r IH]; intros HF; cbn [members_size fold_right]; [cbn; lia|].
  fold (members_size r). inversion HF as [|? ? Hx Hr]; subst. cbn [snd] in *.
  specialize (IH Hr).
  assert (Hm : (size v <= List.length (member_text (k, v)))%nat).
  { unfold member_text. cbn [fst snd]. rewrite !length_app. lia. }
  destruct r as [|y r'].
  - cbn [map join members_size fold_right]. lia.
  - cbn [map] in *. rewrite join_cons, !length_app.
    change (List.length (txt ",")) with 1%nat. lia.
Qed.

(** The text of a value is at least as long as the fuel its parsing needs. *)
Lemma text_length (v : value) :
  json_value v = true -> (size v <= List.length (element_text v))%nat.
Proof.
  induction v as [| |b|z|s|xs IH|ps IH] using value_ind; intros Hj; cbn [size].
  - discriminate.
  - cbn. lia.
  - destruct b; cbn; lia.
  - destruct (element_text_first (VNum z) Hj) as (c & t & E & _).
    rewrite E. cbn [List.length]. lia.
  - cbn. lia.
  - cbn [json_value] in Hj. fold (elements_size xs).
    rewrite array_text, !length_app.
    change (List.length (txt "[")) with 1%nat. change (List.length (txt "]")) with 1%nat.
    assert (HF : Forall (fun x => (size x <= List.length (element_text x))%nat) xs).
    { rewrite Forall_forall in *. intros x Hx. apply IH; [assumption|].
      rewrite forallb_forall in Hj. now apply Hj. }
    pose proof (join_length element_text xs HF). lia.
  - cbn [json_value] in Hj. apply andb_true_iff in Hj as [_ Hj].
    fold (members_size ps).
    rewrite (object_text ps Hj), !length_app.
    change (List.length (txt "{")) with 1%nat. change (List.length (txt "}")) with 1%nat.
    assert (HF : Forall (fun kv => (size (snd kv) <= List.length (element_text (snd kv)))%nat) ps).
    { rewrite Forall_forall in *. intros kv Hkv. apply IH; [assumption|].
      rewrite forallb_forall in Hj. now apply Hj. }
    pose proof (members_length ps HF). lia.
Qed.

(** [JSON.parse(JSON.stringify(v))] is [v] up to what the text does not
    keep: an infinite number is read back as null, and zero without its
    sign. *)
Lemma JSON_parse_stringify (v : value) :
  json_value v = true ->
  JSON_stringify v = Some (element_text v)
  /\ JSON_parse (element_text v) = Ok (settle v).
Proof.
  intros Hj. split; [now apply stringify_text|].
  unfold JSON_parse, parse_fuel.
  pose proof (text_length v Hj) as Hlen.
  pose proof (parse_value_text v Hj
                (S (S (List.length (element_text v) + List.length (element_text v)))) []
                ltac:(lia) eq_refl) as H.
  rewrite app_nil_r in H. rewrite H. reflexivity.
Qed.

(** ** What JSON.parse builds *)
Lemma pmap_ok {A B : Type} (f : A -> B) (p : parsed A) (b : B) (rest : text) :
  pmap f p = POk b rest -> exists a, p = POk a rest /\ b = f a.
Proof. destruct p; cbn [pmap]; try discriminate. intros [= <- <-]. eauto. Qed.

Lemma read_digits_nonneg (s : text) :
  forall acc n rest, 0 <= acc -> read_digits s acc = (n, rest) -> 0 <= n.
Proof.
  induction s as [|c s IH]; intros acc n rest Hacc; cbn [read_digits].
  - intros [= <- _]. assumption.
  - destruct (digit_of_char c) as [d|] eqn:E.
    + apply digit_code in E. apply IH. lia.
    + intros [= <- _]. assumption.
Qed.

Lemma parse_number_value (s : text) (x : number) (rest : text) :
  parse_number s = POk x rest -> json_value (VNum x) = true.
Proof.
  assert (G : forall negative t, parse_unsigned negative t = POk x rest ->
              json_value (VNum x) = true).
  { intros negative t. unfold parse_unsigned. destruct t as [|c r]; [discriminate|].
    destruct (digit_of_char c) as [d|]; [|discriminate].
    destruct (if d =? 0 then (0, r) else read_digits (c :: r) 0) as [i s1].
    destruct (read_fraction i s1) as [[[D places] s2]|]; [|discriminate].
    destruct (read_exponent s2) as [[X s3]|]; [|discriminate].
    intros [= <- _]. cbn [json_value].
    pose proof (of_decimal_ok negative D (X - places)) as Hok.
    pose proof (of_decimal_not_nan negative D (X - places)) as Hnan.
    destruct (of_decimal negative D (X - places)); congruence. }
  unfold parse_number. destruct s as [|c r]; [discriminate|].
  destruct (code c =? 45); apply G.
Qed.

Lemma expect_word_value (w : text) (v v' : value) (s rest : text) :
  expect_word w v s = POk v' rest -> v' = v.
Proof.
  unfold expect_word. destruct (drop_prefix w s); [|discriminate].
  now intros [= <- _].
Qed.

(** Every value that the parser returns is one that prints and reads back. *)
Lemma parse_json_value (fuel : nat) :
  (forall s v rest, parse_value fuel s = POk v rest -> json_value v = true)
  /\ (forall s xs rest, parse_elements fuel s = POk xs rest ->
        forallb json_value xs = true)
  /\ (forall s ps rest, parse_members fuel s = POk ps rest ->
        forallb (fun kv => json_value (snd kv)) ps = true).
Proof.
  induction fuel as [|f (IHv & IHe & IHm)].
  - repeat split; intros; discriminate.
  - repeat split.
    + intros s v rest. cbn [parse_value].
      destruct (skip_ws s) as [|c r]; [discriminate|]. cbv zeta.
      destruct (code c =? 123).
      { destruct (skip_ws r) as [|c' r']; [discriminate|].
        destruct (code c' =? 125); [now intros [= <- _]|].
        intros H. apply pmap_ok in H as (kvs & H & ->).
        apply IHm in H. cbn [json_value].
        apply andb_true_iff. split.
        - now apply define_all_ordered.
        - now apply define_all_values. }
      destruct (code c =? 91).
      { destruct (skip_ws r) as [|c' r']; [discriminate|].
        destruct (code c' =? 93); [now intros [= <- _]|].
        intros H. apply pmap_ok in H as (xs & H & ->).
        apply IHe in H. exact H. }
      destruct (code c =? 34).
      { intros H. apply pmap_ok in H as (t & _ & ->). reflexivity. }
      destruct ((code c =? 45) || is_digit c).
      { intros H. apply pmap_ok in H as (z & H & ->).
        now apply parse_number_value in H. }
      destruct (code c =? 116).
      { intros H. apply expect_word_value in H as ->. reflexivity. }
      destruct (code c =? 102).
      { intros H. apply expect_word_value in H as ->. reflexivity. }
      destruct (code c =? 110).
      { intros H. apply expect_word_value in H as ->. reflexivity. }
      discriminate.
    + intros s xs rest. cbn [parse_elements].
      destruct (parse_value f s) as [v rest1| |] eqn:Ev; try discriminate.
      apply IHv in Ev.
      destruct (skip_ws rest1) as [|c r]; [discriminate|].
      destruct (code c =? 44).
      { intros H. apply pmap_ok in H as (ys & H & ->).
        apply IHe in H. cbn [forallb]. now rewrite Ev, H. }
      destruct (code c =? 93); [|discriminate].
      intros [= <- _]. cbn [forallb]. now rewrite Ev.
    + intros s ps rest. cbn [parse_members].
      destruct (skip_ws s) as [|q r]; [discriminate|].
      destruct (code q =? 34); [|discriminate].
      destruct (parse_chars r) as [k rest0| |]; try discriminate.
      destruct (skip_ws rest0) as [|c r1]; [discriminate|].
      destruct (code c =? 58); [|discriminate].
      destruct (parse_value f r1) as [v rest1| |] eqn:Ev; try discriminate.
      apply IHv in Ev.
      destruct (skip_ws rest1) as [|c2 r2]; [discriminate|].
      destruct (code c2 =? 44).
      { intros H. apply pmap_ok in H as (ys & H & ->).
        apply IHm in H. cbn [forallb snd]. now rewrite Ev, H. }
      destruct (code c2 =? 125); [|discriminate].
      intros [= <- _]. cbn [forallb snd]. now rewrite Ev.
Qed.

Lemma JSON_parse_json_value (s : text) (v : value) :
  JSON_parse s = Ok v -> json_value v = true.
Proof.
  unfold JSON_parse.
  destruct (parse_value (parse_fuel s) s) as [v' rest| |] eqn:E; try discriminate.
  destruct (text_eqb (skip_ws rest) []); [|discriminate].
  intros [= <-]. destruct (parse_json_value (parse_fuel s)) as [H _]. eauto.
Qed.

Lemma JSON_parse_throws (s : text) (e : thrown) :
  JSON_parse s = Throw e -> e = SyntaxError.
Proof.
  unfold JSON_parse.
  destruct (parse_value (parse_fuel s) s) as [v' rest| |].
  - destruct (text_eqb (skip_ws rest) []); [discriminate | now intros [= <-]].
  - now intros [= <-].
  - now intros [= <-].
Qed.

(** ** What the text does not keep *)
Lemma settle_json_value (v : value) : json_value v = true -> json_value (settle v) = true.
Proof.
  induction v as [| |b|x|s|xs IH|ps IH] using value_ind; cbn [settle json_value];
    intros Hj; try assumption.
  - destruct x; try reflexivity; assumption.
  - rewrite forallb_forall in *. intros y Hy. apply in_map_iff in Hy as (x & <- & Hx).
    rewrite Forall_forall in IH. apply IH; auto.
  - apply andb_true_iff in Hj as [Hord Hj]. apply andb_true_iff. split.
    + fold settle_member. now rewrite ordered_settle.
    + rewrite forallb_forall in *. intros kv Hkv.
      apply in_map_iff in Hkv as (kv' & <- & Hx). cbn [snd].
      rewrite Forall_forall in IH. apply IH; auto.
Qed.

Lemma settle_element_text (v : value) :
  json_value v = true -> element_text (settle v) = element_text v.
Proof.
  induction v as [| |b|x|s|xs IH|ps IH] using value_ind; cbn [settle json_value];
    intros Hj; try reflexivity.
  - destruct x; reflexivity.
  - rewrite !array_text. do 3 f_equal. rewrite map_map.
    apply map_ext_in. intros x Hx. rewrite Forall_forall in IH.
    rewrite forallb_forall in Hj. apply IH; auto.
  - apply andb_true_iff in Hj as [Hord Hj].
    assert (Hj' : forallb (fun kv => json_value (snd kv)) (map settle_member ps) = true).
    { rewrite forallb_forall in *. intros kv Hkv.
      apply in_map_iff in Hkv as (kv' & <- & Hx). cbn [snd settle_member].
      apply settle_json_value; auto. }
    fold settle_member. rewrite (object_text _ Hj'), (object_text _ Hj).
    do 3 f_equal. rewrite map_map. apply map_ext_in. intros [k v] Hkv.
    unfold member_text, settle_member. cbn [fst snd]. do 2 f_equal.
    rewrite Forall_forall in IH. rewrite forallb_forall in Hj.
    apply (IH (k, v)); [assumption|]. now apply (Hj (k, v)).
Qed.

Lemma settle_settle (v : value) : settle (settle v) = settle v.
Proof.
  induction v as [| |b|x|s|xs IH|ps IH] using value_ind; cbn [settle];
    try reflexivity.
  - destruct x; reflexivity.
  - f_equal. rewrite map_map. apply map_ext_in. intros x Hx.
    rewrite Forall_forall in IH. now apply IH.
  - f_equal. rewrite map_map. apply map_ext_in. intros [k v] Hkv. cbn [fst snd].
    f_equal. rewrite Forall_forall in IH. now apply (IH (k, v)).
Qed.

Lemma settle_kept (v : value) : kept v = true -> settle v = v.
Proof.
  induction v as [| |b|x|s|xs IH|ps IH] using value_ind; cbn [settle kept];
    intros Hk; try reflexivity.
  - destruct x as [[|] | | |]; try discriminate; reflexivity.
  - f_equal. rewrite <- (map_id xs) at 2. apply map_ext_in. intros x Hx.
    rewrite Forall_forall in IH. rewrite forallb_forall in Hk. apply IH; auto.
  - f_equal. rewrite <- (map_id ps) at 2. apply map_ext_in. intros [k v] Hkv.
    cbn [fst snd]. f_equal. rewrite Forall_forall in IH.
    rewrite forallb_forall in Hk. apply (IH (k, v)); [assumption|].
    now apply (Hk (k, v)).
Qed.

Lemma kept_settle (v : value) : json_value v = true -> kept (settle v) = true.
Proof.
  induction v as [| |b|x|s|xs IH|ps IH] using value_ind; cbn [settle json_value];
    intros Hj; try reflexivity.
  - destruct x; try reflexivity; discriminate.
  - cbn [kept]. rewrite forallb_forall in *. intros y Hy.
    apply in_map_iff in Hy as (x & <- & Hx).
    rewrite Forall_forall in IH. apply IH; auto.
  - apply andb_true_iff in Hj as [_ Hj]. cbn [kept].
    rewrite forallb_forall in *. intros kv Hkv.
    apply in_map_iff in Hkv as (kv' & <- & Hx). cbn [snd].
    rewrite Forall_forall in IH. apply IH; auto.
Qed.

(** ** The fuel of JSON.parse is enough *)
Lemma skip_ws_length (s : text) : (List.length (skip_ws s) <= List.length s)%nat.
Proof.
  induction s as [|c s IH]; cbn [skip_ws List.length]; [lia|].
  destruct (is_ws c); cbn [List.length]; lia.
Qed.

Lemma pmap_fuel {A B : Type} (f : A -> B) (p : parsed A) :
  pmap f p = PFuel -> p = PFuel.
Proof. destruct p; cbn [pmap]; congruence. Qed.

Lemma parse_chars_length (s : text) :
  forall k rest, parse_chars s = POk k rest -> (List.length rest < List.length s)%nat.
Proof.
  induction s as [s IH] using (well_founded_induction
                                (Wf_nat.well_founded_ltof _ (@List.length char16))).
  unfold Wf_nat.ltof in IH. intros k rest.
  destruct s as [|c r]; cbn [parse_chars]; [discriminate|].
  destruct (code c =? 34); [intros [= _ <-]; cbn [List.length]; lia|].
  destruct (code c =? 92).
  - destruct r as [|e r1]; [discriminate|].
    assert (Hstep : forall (g : text -> text) k' rest',
               pmap g (parse_chars r1) = POk k' rest' ->
               (List.length rest' < List.length (c :: e :: r1))%nat).
    { intros g k' rest' H. apply pmap_ok in H as (a & H & _).
      apply IH in H; cbn [List.length] in *; lia. }
    cbv zeta.
    repeat match goal with
           | |- (if ?b then _ else _) = _ -> _ => destruct b; [now apply Hstep|]
           end.
    destruct (code e =? 117); [|discriminate].
    destruct r1 as [|h1 [|h2 [|h3 [|h4 r2]]]]; try discriminate.
    destruct (hex_value h1); [|discriminate].
    destruct (hex_value h2); [|discriminate].
    destruct (hex_value h3); [|discriminate].
    destruct (hex_value h4); [|discriminate].
    intros H. apply pmap_ok in H as (a & H & _).
    apply IH in H; cbn [List.length] in *; lia.
  - destruct (code c <? 32); [discriminate|].
    intros H. apply pmap_ok in H as (a & H & _).
    apply IH in H; cbn [List.length] in *; lia.
Qed.

Lemma read_digits_length (s : text) :
  forall acc n rest, read_digits s acc = (n, rest) -> (List.length rest <= List.length s)%nat.
Proof.
  induction s as [|c s IH]; intros acc n rest; cbn [read_digits].
  - intros [= _ <-]. lia.
  - destruct (digit_of_char c).
    + intros H. apply IH in H. cbn [List.length]. lia.
    + intros [= _ <-]. lia.
Qed.

Lemma read_places_length (s : text) :
  forall acc p n q rest, read_places s acc p = (n, q, rest) ->
  (List.length rest <= List.length s)%nat.
Proof.
  induction s as [|c s IH]; intros acc p n q rest; cbn [read_places].
  - intros [= _ _ <-]. lia.
  - destruct (digit_of_char c).
    + intros H. apply IH in H. cbn [List.length]. lia.
    + intros [= _ _ <-]. lia.
Qed.

Lemma read_fraction_length (i : Z) (s : text) (D places : Z) (rest : text) :
  read_fraction i s = Some (D, places, rest) -> (List.length rest <= List.length s)%nat.
Proof.
  unfold read_fraction. destruct s as [|c r]; [intros [= _ _ <-]; lia|].
  destruct (code c =? 46); [|intros [= _ _ <-]; lia].
  destruct (starts_with_digit r); [|discriminate].
  intros [= H]. apply read_places_length in H. cbn [List.length]. lia.
Qed.

Lemma read_signed_length (negative : bool) (s : text) (X : Z) (rest : text) :
  read_signed negative s = Some (X, rest) -> (List.length rest <= List.length s)%nat.
Proof.
  unfold read_signed. destruct (starts_with_digit s); [|discriminate].
  destruct (read_digits s 0) as [v r] eqn:E. intros [= _ <-].
  now apply read_digits_length in E.
Qed.

Lemma read_exponent_length (s : text) (X : Z) (rest : text) :
  read_exponent s = Some (X, rest) -> (List.length rest <= List.length s)%nat.
Proof.
  unfold read_exponent. destruct s as [|c r]; [intros [= _ <-]; lia|].
  destruct ((code c =? 101) || (code c =? 69)); [|intros [= _ <-]; lia].
  destruct r as [|g r']; [discriminate|].
  destruct (code g =? 43); [|destruct (code g =? 45)];
    intros H; apply read_signed_length in H; cbn [List.length] in *; lia.
Qed.

Lemma parse_unsigned_length (negative : bool) (s : text) (x : number) (rest : text) :
  parse_unsigned negative s = POk x rest -> (List.length rest < List.length s)%nat.
Proof.
  unfold parse_unsigned. destruct s as [|c r]; [discriminate|].
  destruct (digit_of_char c) as [d|] eqn:Ed; [|discriminate].
  destruct (if d =? 0 then (0, r) else read_digits (c :: r) 0) as [i s1] eqn:E.
  assert (Hs1 : (List.length s1 <= List.length r)%nat).
  { destruct (d =? 0).
    - injection E as _ <-. lia.
    - cbn [read_digits] in E. rewrite Ed in E. now apply read_digits_length in E. }
  destruct (read_fraction i s1) as [[[D places] s2]|] eqn:Ef; [|discriminate].
  apply read_fraction_length in Ef.
  destruct (read_exponent s2) as [[X s3]|] eqn:Ee; [|discriminate].
  apply read_exponent_length in Ee.
  intros [= _ <-]. cbn [List.length]. lia.
Qed.

Lemma parse_number_length (s : text) (x : number) (rest : text) :
  parse_number s = POk x rest -> (List.length rest < List.length s)%nat.
Proof.
  unfold parse_number. destruct s as [|c r]; [discriminate|].
  destruct (code c =? 45).
  - intros H. apply parse_unsigned_length in H. cbn [List.length]. lia.
  - apply parse_unsigned_length.
Qed.

Lemma drop_prefix_length (w : text) :
  forall s rest, drop_prefix w s = Some rest ->
  (List.length rest + List.length w = List.length s)%nat.
Proof.
  induction w as [|a w IH]; intros s rest; cbn [drop_prefix].
  - intros [= <-]. cbn [List.length]. lia.
  - destruct s as [|b s']; [discriminate|].
    destruct (char_eqb a b); [|discriminate].
    intros H. apply IH in H. cbn [List.length]. lia.
Qed.

Lemma expect_word_length (w : text) (v v' : value) (s rest : text) :
  w <> [] -> expect_word w v s = POk v' rest -> (List.length rest < List.length s)%nat.
Proof.
  intros Hw. unfold expect_word.
  destruct (drop_prefix w s) as [r|] eqn:E; [|discriminate].
  intros [= _ <-]. apply drop_prefix_length in E.
  destruct w; [contradiction|]. cbn [List.length] in E. lia.
Qed.

(** A parser that returns has read at least one character. *)
Lemma parse_length (fuel : nat) :
  (forall s v rest, parse_value fuel s = POk v rest ->
     (List.length rest < List.length s)%nat)
  /\ (forall s xs rest, parse_elements fuel s = POk xs rest ->
        (List.length rest < List.length s)%nat)
  /\ (forall s ps rest, parse_members fuel s = POk ps rest ->
        (List.length rest < List.length s)%nat).
Proof.
  induction fuel as [|f (IHv & IHe & IHm)].
  - repeat split; intros; discriminate.
  - repeat split.
    + intros s v rest. cbn [parse_value].
      pose proof (skip_ws_length s) as Hs.
      destruct (skip_ws s) as [|c r]; [discriminate|]. cbn [List.length] in Hs. cbv zeta.
      pose proof (skip_ws_length r) as Hr.
      destruct (code c =? 123).
      { destruct (skip_ws r) as [|c' r'] eqn:E; [discriminate|]. cbn [List.length] in Hr.
        destruct (code c' =? 125); [intros [= _ <-]; lia|].
        intros H. apply pmap_ok in H as (kvs & H & _).
        apply IHm in H. cbn [List.length] in H. lia. }
      destruct (code c =? 91).
      { destruct (skip_ws r) as [|c' r'] eqn:E; [discriminate|]. cbn [List.length] in Hr.
        destruct (code c' =? 93); [intros [= _ <-]; lia|].
        intros H. apply pmap_ok in H as (xs & H & _).
        apply IHe in H. cbn [List.length] in H. lia. }
      destruct (code c =? 34).
      { intros H. apply pmap_ok in H as (t & H & _).
        apply parse_chars_length in H. lia. }
      destruct ((code c =? 45) || is_digit c).
      { intros H. apply pmap_ok in H as (z & H & _).
        apply parse_number_length in H. cbn [List.length] in H. lia. }
      destruct (code c =? 116).
      { intros H. apply expect_word_length in H; [|discriminate].
        cbn [List.length] in H. lia. }
      destruct (code c =? 102).
      { intros H. apply expect_word_length in H; [|discriminate].
        cbn [List.length] in H. lia. }
      destruct (code c =? 110).
      { intros H. apply expect_word_length in H; [|discriminate].
        cbn [List.length] in H. lia. }
      discriminate.
    + intros s xs rest. cbn [parse_elements].
      destruct (parse_value f s) as [v rest1| |] eqn:Ev; try discriminate.
      apply IHv in Ev. pose proof (skip_ws_length rest1) as Hs.
      destruct (skip_ws rest1) as [|c r]; [discriminate|]. cbn [List.length] in Hs.
      destruct (code c =? 44).
      { intros H. apply pmap_ok in H as (ys & H & _). apply IHe in H. lia. }
      destruct (code c =? 93); [|discriminate].
      intros [= _ <-]. lia.
    + intros s ps rest. cbn [parse_members].
      pose proof (skip_ws_length s) as Hs.
      destruct (skip_ws s) as [|q r]; [discriminate|]. cbn [List.length] in Hs.
      destruct (code q =? 34); [|discriminate].
      destruct (parse_chars r) as [k rest0| |] eqn:Ek; try discriminate.
      apply parse_chars_length in Ek.
      pose proof (skip_ws_length rest0) as Hs0.
      destruct (skip_ws rest0) as [|c r1]; [discriminate|]. cbn [List.length] in Hs0.
      destruct (code c =? 58); [|discriminate].
      destruct (parse_value f r1) as [v rest1| |] eqn:Ev; try discriminate.
      apply IHv in Ev. pose proof (skip_ws_length rest1) as Hs1.
      destruct (skip_ws rest1) as [|c2 r2]; [discriminate|]. cbn [List.length] in Hs1.
      destruct (code c2 =? 44).
      { intros H. apply pmap_ok in H as (ys & H & _). apply IHm in H. lia. }
      destruct (code c2 =? 125); [|discriminate].
      intros [= _ <-]. lia.
Qed.

Lemma parse_chars_fuel (s : text) : parse_chars s <> PFuel.
Proof.
  induction s as [s IH] using (well_founded_induction
                                (Wf_nat.well_founded_ltof _ (@List.length char16))).
  unfold Wf_nat.ltof in IH.
  destruct s as [|c r]; cbn [parse_chars]; [discriminate|].
  destruct (code c =? 34); [discriminate|].
  assert (Hstep : forall (g : text -> text) r',
             (List.length r' < List.length (c :: r))%nat ->
             pmap g (parse_chars r') <> PFuel).
  { intros g r' Hlen H. apply pmap_fuel in H. revert H. now apply IH. }
  destruct (code c =? 92).
  - destruct r as [|e r1]; [discriminate|]. cbv zeta.
    repeat match goal with
           | |- (if ?b then _ else _) <> _ =>
               destruct b; [apply Hstep; cbn [List.length]; lia|]
           end.
    destruct (code e =? 117); [|discriminate].
    destruct r1 as [|h1 [|h2 [|h3 [|h4 r2]]]]; try discriminate.
    destruct (hex_value h1); [|discriminate].
    destruct (hex_value h2); [|discriminate].
    destruct (hex_value h3); [|discriminate].
    destruct (hex_value h4); [|discriminate].
    apply Hstep. cbn [List.length]. lia.
  - destruct (code c <? 32); [discriminate|].
    apply Hstep. cbn [List.length]. lia.
Qed.

Lemma parse_number_fuel (s : text) : parse_number s <> PFuel.
Proof.
  assert (Hn : forall negative t, parse_unsigned negative t <> PFuel).
  { intros negative t. unfold parse_unsigned. destruct t as [|c r]; [discriminate|].
    destruct (digit_of_char c) as [d|]; [|discriminate].
    destruct (if d =? 0 then (0, r) else read_digits (c :: r) 0) as [i s1].
    destruct (read_fraction i s1) as [[[D places] s2]|]; [|discriminate].
    destruct (read_exponent s2) as [[X s3]|]; discriminate. }
  unfold parse_number. destruct s as [|c r]; [discriminate|].
  destruct (code c =? 45); apply Hn.
Qed.

Lemma expect_word_fuel (w : text) (v : value) (s : text) :
  expect_word w v s <> PFuel.
Proof. unfold expect_word. destruct (drop_prefix w s); discriminate. Qed.

(** With two units of fuel for each character, and two more, the parser does
    not stop for want of fuel. *)
Lemma parse_fuel_enough (fuel : nat) :
  (forall s, (List.length s + List.length s + 2 <= fuel)%nat -> parse_value fuel s <> PFuel)
  /\ (forall s, (List.length s + List.length s + 3 <= fuel)%nat ->
        parse_elements fuel s <> PFuel)
  /\ (forall s, (List.length s + List.length s + 3 <= fuel)%nat ->
        parse_members fuel s <> PFuel).
Proof.
  induction fuel as [|f (IHv & IHe & IHm)].
  - repeat split; intros; lia.
  - destruct (parse_length f) as (Lv & Le & Lm).
    repeat split.
    + intros s Hf. cbn [parse_value].
      pose proof (skip_ws_length s) as Hs.
      destruct (skip_ws s) as [|c r]; [discriminate|]. cbn [List.length] in Hs. cbv zeta.
      pose proof (skip_ws_length r) as Hr.
      destruct (code c =? 123).
      { destruct (skip_ws r) as [|c' r'] eqn:E; [discriminate|].
        destruct (code c' =? 125); [discriminate|].
        intros H. apply pmap_fuel in H. revert H. apply IHm. lia. }
      destruct (code c =? 91).
      { destruct (skip_ws r) as [|c' r'] eqn:E; [discriminate|].
        destruct (code c' =? 93); [discriminate|].
        intros H. apply pmap_fuel in H. revert H. apply IHe. lia. }
      destruct (code c =? 34).
      { intros H. apply pmap_fuel in H. revert H. apply parse_chars_fuel. }
      destruct ((code c =? 45) || is_digit c).
      { intros H. apply pmap_fuel in H. revert H. apply parse_number_fuel. }
      destruct (code c =? 116); [apply expect_word_fuel|].
      destruct (code c =? 102); [apply expect_word_fuel|].
      destruct (code c =? 110); [apply expect_word_fuel|].
      discriminate.
    + intros s Hf. cbn [parse_elements].
      destruct (parse_value f s) as [v rest1| |] eqn:Ev; try discriminate.
      * apply Lv in Ev. pose proof (skip_ws_length rest1) as Hs.
        destruct (skip_ws rest1) as [|c r]; [discriminate|]. cbn [List.length] in Hs.
        destruct (code c =? 44).
        { intros H. apply pmap_fuel in H. revert H. apply IHe. lia. }
        destruct (code c =? 93); discriminate.
      * exfalso. revert Ev. apply IHv. lia.
    + intros s Hf. cbn [parse_members].
      pose proof (skip_ws_length s) as Hs.
      destruct (skip_ws s) as [|q r]; [discriminate|]. cbn [List.length] in Hs.
      destruct (code q =? 34); [|discriminate].
      destruct (parse_chars r) as [k rest0| |] eqn:Ek; try discriminate.
      * apply parse_chars_length in Ek.
        pose proof (skip_ws_length rest0) as Hs0.
        destruct (skip_ws rest0) as [|c r1]; [discriminate|]. cbn [List.length] in Hs0.
        destruct (code c =? 58); [|discriminate].
        destruct (parse_value f r1) as [v rest1| |] eqn:Ev; try discriminate.
        -- apply Lv in Ev. pose proof (skip_ws_length rest1) as Hs1.
           destruct (skip_ws rest1) as [|c2 r2]; [discriminate|]. cbn [List.length] in Hs1.
           destruct (code c2 =? 44).
           { intros H. apply pmap_fuel in H. revert H. apply IHm. lia. }
           destruct (code c2 =? 125); discriminate.
        -- exfalso. revert Ev. apply IHv. lia.
      * exfalso. revert Ek. apply parse_chars_fuel.
Qed.

Lemma parse_value_fuel (s : text) : parse_value (parse_fuel s) s <> PFuel.
Proof.
  destruct (parse_fuel_enough (parse_fuel s)) as [H _]. apply H.
  unfold parse_fuel. lia.
Qed.

(** ** The shape of what the program writes for a date *)
Lemma matches_digit (d : Z) (p : list slot) (s : text) :
  matches (Digit :: p) (digit_char (d mod 10) :: s) = matches p s.
Proof.
  cbn [matches].
  destruct (digit_char_facts _ (mod10_range d)) as (-> & _). reflexivity.
Qed.

Lemma matches_pad (w : nat) (n : Z) (p : list slot) (s : text) :
  matches (repeat Digit w ++ p) (pad w n ++ s) = matches p s.
Proof.
  induction w as [|w IH]; [reflexivity|].
  cbn [repeat app pad app]. now rewrite matches_digit.
Qed.

Lemma matches_two (n : Z) (p : list slot) (s : text) :
  matches (Digit :: Digit :: p) (pad 2 n ++ s) = matches p s.
Proof. exact (matches_pad 2 n p s). Qed.

Lemma matches_four (n : Z) (p : list slot) (s : text) :
  matches (Digit :: Digit :: Digit :: Digit :: p) (pad 4 n ++ s) = matches p s.
Proof. exact (matches_pad 4 n p s). Qed.

Lemma matches_six (n : Z) (p : list slot) (s : text) :
  matches (Digit :: Digit :: Digit :: Digit :: Digit :: Digit :: p) (pad 6 n ++ s)
  = matches p s.
Proof. exact (matches_pad 6 n p s). Qed.

Lemma matches_lit (n : Z) (c : char16) (p : list slot) (s : text) :
  code c = n -> matches (Lit n :: p) (c :: s) = matches p s.
Proof. intros <-. cbn [matches]. now rewrite Z.eqb_refl. Qed.

Lemma matches_time (m d hh mi ss : Z) :
  matches time_pattern
    ((txt "-") ++ pad 2 m ++ (txt "-") ++ pad 2 d ++ (txt "T") ++ pad 2 hh ++ (txt ":") ++ pad 2 mi
         ++ (txt ":") ++ pad 2 ss ++ (txt "Z")) = true.
Proof.
  unfold time_pattern. cbn [app txt].
  repeat (first [rewrite matches_lit by reflexivity | rewrite matches_two]).
  reflexivity.
Qed.

Lemma iso_seconds_shape (t : Z) :
  whole_seconds_utc (iso_seconds t ++ (txt "Z")) = true
  /\ (matches seconds_pattern (iso_seconds t ++ (txt "Z")) = true
      <-> 0 <= year_of_time_value t <= 9999).
Proof.
  unfold whole_seconds_utc, year_of_time_value, iso_seconds.
  destruct (civil_from_days (t / msPerDay)) as [[y m] d]. cbn [fst]. cbv zeta.
  rewrite !app_assoc_r.
  pose proof (matches_time m d (t mod msPerDay / 3600000)
                (t mod msPerDay / 60000 mod 60) (t mod msPerDay / 1000 mod 60)) as Ht.
  unfold year_string.
  destruct (Z.leb_spec 0 y) as [H0 | H0]; cbn [andb].
  - destruct (Z.leb_spec y 9999) as [H1 | H1].
    + unfold seconds_pattern.
      cbn [app]. rewrite (matches_four y time_pattern), Ht. cbn [orb]. split; [reflexivity|].
      split; [lia | reflexivity].
    + destruct (Z.ltb_spec y 0); [lia|]. cbn [app].
      match goal with
      | |- context [matches (long_year_pattern 43) ?s] =>
          assert (Hlong : matches (long_year_pattern 43) s = true)
      end.
      { unfold long_year_pattern. rewrite matches_lit by reflexivity.
        cbn [app]. rewrite matches_six. exact Ht. }
      rewrite Hlong. split; [now rewrite orb_true_r|].
      split; [discriminate | lia].
  - destruct (Z.ltb_spec y 0); [|lia]. cbn [app].
    match goal with
    | |- context [matches (long_year_pattern 45) ?s] =>
        assert (Hlong : matches (long_year_pattern 45) s = true)
    end.
    { unfold long_year_pattern. rewrite matches_lit by reflexivity.
      cbn [app]. rewrite matches_six. exact Ht. }
    rewrite Hlong. split; [now rewrite !orb_true_r|].
    split; [discriminate | lia].
Qed.

(** ** The callback of map *)
Lemma map_outcome_ok {A B : Type} (f : A -> outcome B) (xs : list A) (ys : list B) :
  map_outcome f xs = Ok ys <-> Forall2 (fun x y => f x = Ok y) xs ys.
Proof.
  revert ys. induction xs as [|x r IH]; intros ys; cbn [map_outcome].
  - split.
    + intros [= <-]. constructor.
    + intros H. inversion H. reflexivity.
  - split.
    + destruct (f x) as [y|] eqn:E; cbn [obind]; try discriminate.
      destruct (map_outcome f r) as [ys'|] eqn:Er; cbn [obind]; try discriminate.
      intros [= <-]. constructor; [assumption|]. now apply IH.
    + intros H. inversion H as [|? y ? ys' Hx Hr]; subst.
      rewrite Hx. cbn [obind]. apply IH in Hr. rewrite Hr. reflexivity.
Qed.

Lemma new_Date_range (w : world) (k : value) (t : Z) :
  new_Date w k = Ok (Some t) -> - maxTime <= t <= maxTime.
Proof.
  assert (Hclip : forall o, clip o = Some t -> - maxTime <= t <= maxTime).
  { intros [z|]; cbn [clip]; [|discriminate]. intros H.
    now apply TimeClip_range in H. }
  assert (Hnum : forall z, @Ok (option Z) (TimeClip z) = Ok (Some t) ->
                            - maxTime <= t <= maxTime).
  { intros z H. apply (Hclip (Some z)). cbn [clip]. congruence. }
  destruct k as [| |b|z|s|xs|ps]; cbn [new_Date].
  - discriminate.
  - apply Hnum.
  - apply Hnum.
  - intros [= H]. now apply Hclip in H.
  - intros [= H]. now apply Hclip in H.
  - destruct (to_text (VArr xs)); cbn [obind]; try discriminate.
    intros [= H]. now apply Hclip in H.
  - destruct (to_text (VObj ps)); cbn [obind]; try discriminate.
    intros [= H]. now apply Hclip in H.
Qed.

(** When the callback returns, its argument is an object with a
    "kickoffTime" that makes a valid date, and the result is that object with
    the "kickoffTime" written again. *)
Lemma without_milliseconds_ok (w : world) (x y : value) :
  without_milliseconds w x = Ok y ->
  exists ps k t,
    x = VObj ps /\ own ps kickoff = Some k /\ new_Date w k = Ok (Some t)
    /\ y = VObj (define kickoff (VStr (split_dot_head (iso_string t) ++ (txt "Z")))
                   (define_all ps [])).
Proof.
  unfold without_milliseconds.
  assert (Hkey : forall xs, element xs (txt "kickoffTime") = VUndefined) by reflexivity.
  destruct x as [| |b|z|s|xs|ps]; cbn [get obind spread]; rewrite ?Hkey;
    cbn [new_Date obind toISOString]; try discriminate.
  fold kickoff. destruct (own ps kickoff) as [k|] eqn:Hk; [|discriminate].
    destruct (new_Date w k) as [[t|]|] eqn:Hd; cbn [obind toISOString];
      try discriminate.
  intros [= <-]. exists ps, k, t. auto.
Qed.

Lemma without_milliseconds_dated (w : world) (x : value) :
  dated w x = true -> exists y, without_milliseconds w x = Ok y.
Proof.
  unfold dated, without_milliseconds.
  destruct (get x (txt "kickoffTime")) as [k|]; cbn [obind]; try discriminate.
  destruct (new_Date w k) as [[t|]|]; cbn [obind toISOString]; try discriminate.
  eauto.
Qed.

Lemma valid_record_dated (w : world) (x : value) :
  valid_record w x = true -> dated w x = true.
Proof.
  unfold valid_record, dated.
  destruct x as [| |b|z|s|xs|ps]; try discriminate. cbn [get obind].
  destruct (own ps (txt "kickoffTime")) as [[| |b|z|t|xs|qs]|]; try discriminate.
  cbn [new_Date]. now destruct (clip (Date_parse w t)).
Qed.

(** A record that came out of the callback goes through it unchanged. *)
Lemma without_milliseconds_again (w : world) (ps : list (text * value)) (t : Z) :
  ordered ps = true -> - maxTime <= t <= maxTime ->
  let y := VObj (define kickoff (VStr (split_dot_head (iso_string t) ++ (txt "Z"))) ps) in
  without_milliseconds w y = Ok y.
Proof.
  intros Hord Ht y. unfold y, without_milliseconds. cbn [spread get].
  fold kickoff. rewrite own_define_same. cbn [obind new_Date].
  rewrite split_dot_head_iso. unfold Date_parse.
  rewrite utc_date_time_seconds by assumption. cbn [clip].
  rewrite TimeClip_floor by assumption. cbn [obind toISOString].
  rewrite split_dot_head_iso, iso_seconds_floor.
  rewrite define_all_same by now apply define_ordered.
  f_equal. f_equal. unfold define at 1. rewrite own_define_same.
  apply replace_same, own_define_same.
Qed.

(** ** Normalization of the challenges *)
Lemma challengesToPredict_ok (w : world) (s out : text) :
  challengesToPredict w s = Ok out ->
  exists xs ys,
    JSON_parse s = Ok (VArr xs)
    /\ Forall2 (fun x y => without_milliseconds w x = Ok y) xs ys
    /\ out = element_text (VArr ys).
Proof.
  unfold challengesToPredict.
  destruct (JSON_parse s) as [v|] eqn:Ep; cbn [obind]; try discriminate.
  destruct v as [| |b|z|t|xs|ps]; cbn [array_map]; try discriminate.
  destruct (map_outcome (without_milliseconds w) xs) as [ys|] eqn:Em;
    cbn [obind]; try discriminate.
  intros [= <-]. exists xs, ys. repeat split. now apply map_outcome_ok.
Qed.

Lemma challengesToPredict_array (w : world) (s : text) (xs ys : list value) :
  JSON_parse s = Ok (VArr xs) ->
  Forall2 (fun x y => without_milliseconds w x = Ok y) xs ys ->
  challengesToPredict w s = Ok (element_text (VArr ys)).
Proof.
  intros Hp Hm. unfold challengesToPredict. rewrite Hp. cbn [obind array_map].
  apply map_outcome_ok in Hm. rewrite Hm. reflexivity.
Qed.

(** The records that come out of the callback print and read back, and the
    callback leaves them as they are. *)
Lemma written_records (w : world) (xs ys : list value) :
  forallb json_value xs = true ->
  Forall2 (fun x y => without_milliseconds w x = Ok y) xs ys ->
  forallb json_value ys = true
  /\ Forall2 (fun x y => without_milliseconds w x = Ok y) ys ys.
Proof.
  intros Hj H. induction H as [|x y xs ys Hx Hr IH]; [split; constructor|].
  cbn [forallb] in Hj. apply andb_true_iff in Hj as [Hjx Hjr].
  destruct (IH Hjr) as [IH1 IH2].
  apply without_milliseconds_ok in Hx as (ps & k & t & -> & Hk & Hd & ->).
  cbn [json_value] in Hjx. apply andb_true_iff in Hjx as [Hord Hvals].
  rewrite define_all_same by assumption.
  split.
  - cbn [forallb json_value]. rewrite IH1, andb_true_r.
    apply andb_true_iff. split.
    + now apply define_ordered.
    + now apply (define_values json_value).
  - constructor; [|assumption].
    apply without_milliseconds_again; [assumption|].
    eapply new_Date_range, Hd.
Qed.

Lemma own_settle (ps : list (text * value)) (k : text) :
  own (map settle_member ps) k = option_map settle (own ps k).
Proof.
  induction ps as [|[k' v] r IH]; cbn [map own settle_member fst snd option_map];
    [reflexivity|].
  destruct (text_eqb k k'); [reflexivity | exact IH].
Qed.

Lemma replace_settle (k : text) (v : value) (ps : list (text * value)) :
  map settle_member (replace k v ps) = replace k (settle v) (map settle_member ps).
Proof.
  induction ps as [|[k' v'] r IH]; cbn [map replace settle_member fst snd];
    [reflexivity|].
  destruct (text_eqb k k'); cbn [map settle_member fst snd]; [reflexivity|].
  now rewrite <- IH.
Qed.

Lemma insert_index_settle (i : Z) (k : text) (v : value) (ps : list (text * value)) :
  map settle_member (insert_index i k v ps)
  = insert_index i k (settle v) (map settle_member ps).
Proof.
  induction ps as [|[k' v'] r IH]; cbn [map insert_index settle_member fst snd];
    [reflexivity|].
  destruct (array_index k') as [j|]; [|reflexivity].
  destruct (i <? j); cbn [map settle_member fst snd]; [reflexivity|].
  now rewrite <- IH.
Qed.

Lemma define_settle (k : text) (v : value) (ps : list (text * value)) :
  map settle_member (define k v ps) = define k (settle v) (map settle_member ps).
Proof.
  unfold define. rewrite own_settle.
  destruct (own ps k); cbn [option_map]; [apply replace_settle|].
  destruct (array_index k); [apply insert_index_settle|].
  now rewrite map_app.
Qed.

(** The records that came out of the callback, read back from their text,
    go through the callback of every engine unchanged. *)
Lemma written_records_settled (w w' : world) (xs ys : list value) :
  forallb json_value xs = true ->
  Forall2 (fun x y => without_milliseconds w x = Ok y) xs ys ->
  Forall2 (fun x y => without_milliseconds w' x = Ok y) (map settle ys) (map settle ys).
Proof.
  intros Hj H. induction H as [|x y xs ys Hx Hr IH]; [constructor|].
  cbn [forallb] in Hj. apply andb_true_iff in Hj as [Hjx Hjr].
  cbn [map]. constructor; [|now apply IH].
  apply without_milliseconds_ok in Hx as (ps & k & t & -> & Hk & Hd & ->).
  cbn [json_value] in Hjx. apply andb_true_iff in Hjx as [Hord _].
  rewrite define_all_same by assumption.
  cbn [settle]. fold settle_member. rewrite define_settle. cbn [settle].
  apply without_milliseconds_again; [now rewrite ordered_settle|].
  eapply new_Date_range, Hd.
Qed.

Lemma normalization_again (w : world) (s out : text) :
  challengesToPredict w s = Ok out ->
  forall w' : world, challengesToPredict w' out = Ok out.
Proof.
  intros H w'. apply challengesToPredict_ok in H as (xs & ys & Hp & Hm & ->).
  apply JSON_parse_json_value in Hp as Hj. cbn [json_value] in Hj.
  destruct (written_records w xs ys Hj Hm) as [Hjy _].
  destruct (JSON_parse_stringify (VArr ys) Hjy) as [_ Hback].
  rewrite (challengesToPredict_array w' _ (map settle ys) (map settle ys) Hback
             (written_records_settled w w' xs ys Hj Hm)).
  f_equal. exact (settle_element_text (VArr ys) Hjy).
Qed.

Lemma valid_challenges_ok (w : world) (s : text) :
  valid_challenges w s = true ->
  exists xs ys,
    JSON_parse s = Ok (VArr xs)
    /\ forallb (valid_record w) xs = true
    /\ Forall2 (fun x y => without_milliseconds w x = Ok y) xs ys
    /\ challengesToPredict w s = Ok (element_text (VArr ys)).
Proof.
  unfold valid_challenges.
  destruct (JSON_parse s) as [[| |b|z|t|xs|ps]|] eqn:Hp; try discriminate.
  intros Hv.
  assert (Hys : exists ys, Forall2 (fun x y => without_milliseconds w x = Ok y) xs ys).
  { clear Hp. induction xs as [|x r IH]; [exists []; constructor|].
    cbn [forallb] in Hv. apply andb_true_iff in Hv as [Hx Hr].
    destruct (IH Hr) as [ys Hys].
    destruct (without_milliseconds_dated w x (valid_record_dated w x Hx)) as [y Hy].
    exists (y :: ys). now constructor. }
  destruct Hys as [ys Hys]. exists xs, ys. repeat split; try assumption.
  now apply (challengesToPredict_array w s xs ys).
Qed.

(** C4.  Normalization is idempotent: on every valid challenge array the
    rewriting of the challenges returns a text, and applied to that text it
    returns the same text. *)
Theorem normalization_idempotent (w : world) (challenges : text) :
  valid_challenges w challenges = true ->
  exists once,
    challengesToPredict w challenges = Ok once
    /\ challengesToPredict w once = Ok once.
Proof.
  intros Hv. destruct (valid_challenges_ok w challenges Hv) as (xs & ys & _ & _ & _ & H).
  eexists. split; [exact H|]. exact (normalization_again w challenges _ H w).
Qed.

Lemma normalization_idempotent_witness :
  valid_challenges quiet_world rich_challenges = true
  /\ exists once,
       challengesToPredict quiet_world rich_challenges = Ok once
       /\ challengesToPredict quiet_world once = Ok once.
Proof.
  split; [vm_compute; reflexivity|].
  apply (normalization_idempotent quiet_world rich_challenges).
  vm_compute. reflexivity.
Defined.

Lemma rewritten_record (w : world) (x y : value) :
  json_value x = true -> valid_record w x = true ->
  without_milliseconds w x = Ok y ->
  exists t tv, rewritten w x (settle y) t tv.
Proof.
  intros Hj Hv Hy.
  apply without_milliseconds_ok in Hy as (ps & k & tv & -> & Hk & Hd & ->).
  unfold valid_record in Hv. fold kickoff in Hv. rewrite Hk in Hv.
  destruct k as [| |b|z|t|xs|qs]; try discriminate.
  cbn [new_Date] in Hd. injection Hd as Hd.
  cbn [json_value] in Hj. apply andb_true_iff in Hj as [Hord _].
  rewrite define_all_same by assumption.
  cbn [settle]. fold settle_member. rewrite define_settle. cbn [settle].
  assert (Hk' : own (map settle_member ps) kickoff = Some (VStr t))
    by (rewrite own_settle, Hk; reflexivity).
  assert (Hother : forall k', k' <> kickoff ->
            own (define kickoff (VStr (split_dot_head (iso_string tv) ++ txt "Z"))
                   (map settle_member ps)) k'
            = option_map settle (own ps k')).
  { intros k' Hne. rewrite own_define by assumption. apply own_settle. }
  exists t, tv. unfold rewritten. eexists ps, _.
  repeat split; try reflexivity; try assumption.
  - unfold define. rewrite Hk'. rewrite replace_keys.
    unfold settle_member. now rewrite map_map.
  - intros k' v Hne Hv' Hkept. fold kickoff in Hne.
    rewrite (Hother k' Hne), Hv'. cbn [option_map]. now rewrite settle_kept.
  - apply own_define_same.
Qed.

(** C5, as the code has it.  On every valid challenge array the rewriting
    returns the text of an array of as many records as were read; each
    record keeps its keys and their order; every property other than
    "kickoffTime" has the value that was read, an infinite number written as
    null and a negative zero as 0, every other value as it is; the new
    "kickoffTime" is the time of the old one in whole seconds with the "Z"
    suffix, of the form YYYY-MM-DDTHH:MM:SSZ exactly when the year is one of
    0..9999 and with a signed year of six digits otherwise. *)
Theorem normalization_frame (w : world) (challenges : text) :
  valid_challenges w challenges = true ->
  exists xs out ys,
    JSON_parse challenges = Ok (VArr xs)
    /\ challengesToPredict w challenges = Ok out
    /\ JSON_parse out = Ok (VArr ys)
    /\ List.length ys = List.length xs
    /\ Forall2 (fun x y =>
         exists t tv,
           rewritten w x y t tv
           /\ whole_seconds_utc (split_dot_head (iso_string tv) ++ (txt "Z")) = true
           /\ (matches seconds_pattern (split_dot_head (iso_string tv) ++ (txt "Z")) = true
               <-> 0 <= year_of_time_value tv <= 9999)) xs ys.
Proof.
  intros Hv.
  destruct (valid_challenges_ok w challenges Hv) as (xs & ys & Hp & Hrec & Hm & Hout).
  apply JSON_parse_json_value in Hp as Hj. cbn [json_value] in Hj.
  destruct (written_records w xs ys Hj Hm) as [Hjy _].
  destruct (JSON_parse_stringify (VArr ys) Hjy) as [_ Hback].
  exists xs, (element_text (VArr ys)), (map settle ys).
  repeat split; try assumption.
  - rewrite length_map. symmetry. eapply Forall2_length, Hm.
  - clear Hp Hout Hback Hjy Hv.
    induction Hm as [|x y xs ys Hx Hr IH]; [constructor|].
    cbn [forallb] in Hj, Hrec.
    apply andb_true_iff in Hj as [Hjx Hjr].
    apply andb_true_iff in Hrec as [Hvx Hvr].
    cbn [map]. constructor; [|now apply IH].
    destruct (rewritten_record w x y Hjx Hvx Hx) as (t & tv & Hrw).
    exists t, tv. split; [assumption|].
    rewrite split_dot_head_iso. apply iso_seconds_shape.
Qed.

Lemma normalization_frame_witness :
  valid_challenges echo_world rich_challenges = true
  /\ exists xs out ys,
    JSON_parse rich_challenges = Ok (VArr xs)
    /\ challengesToPredict echo_world rich_challenges = Ok out
    /\ JSON_parse out = Ok (VArr ys)
    /\ List.length ys = List.length xs
    /\ Forall2 (fun x y =>
         exists t tv,
           rewritten echo_world x y t tv
           /\ whole_seconds_utc (split_dot_head (iso_string tv) ++ (txt "Z")) = true
           /\ (matches seconds_pattern (split_dot_head (iso_string tv) ++ (txt "Z")) = true
               <-> 0 <= year_of_time_value tv <= 9999)) xs ys.
Proof.
  split; [vm_compute; reflexivity|].
  apply (normalization_frame echo_world rich_challenges).
  vm_compute. reflexivity.
Defined.

(** C5, as the claim has it, fails in two ways.  On a kick-off in the year
    10000 the challenge array is valid, and the "kickoffTime" that comes out
    has a signed year of six digits.  And a field other than "kickoffTime"
    does change when its number is too large: the literal 1e400 is read as
    Infinity and written as null. *)
Lemma four_digit_year_counterexample :
  valid_challenges quiet_world far_challenges = true
  /\ challengesToPredict quiet_world far_challenges
     = Ok (txt "[{" ++ quote (txt "kickoffTime") ++ txt ":"
             ++ quote (txt "+010000-01-01T00:00:00Z") ++ txt "}]")
  /\ matches seconds_pattern (txt "+010000-01-01T00:00:00Z") = false
  /\ valid_challenges quiet_world rich_challenges = true
  /\ challengesToPredict quiet_world rich_challenges = Ok rich_normalized.
Proof. do 4 (split; [vm_compute; reflexivity|]). vm_compute. reflexivity. Qed.

(** ** Failures of the normalization *)
Lemma to_text_outcome (v : value) :
  (exists s, to_text v = Ok s) \/ to_text v = Throw TypeError.
Proof.
  induction v as [| |b|z|s|xs IH|ps IH] using value_ind; cbn [to_text];
    try (left; eexists; reflexivity).
  - match goal with |- context [obind (?F xs) _] => set (each := F) end.
    assert (H : (exists ts, each xs = Ok ts) \/ each xs = Throw TypeError).
    { induction IH as [|x r Hx Hr IHr]; [left; now exists []|].
      cbn [each]. fold each.
      assert (Hx' : (exists s, match x with
                               | VUndefined | VNull => Ok []
                               | _ => to_text x
                               end = Ok s)
                    \/ match x with
                       | VUndefined | VNull => Ok []
                       | _ => to_text x
                       end = Throw TypeError).
      { destruct x; try exact Hx; left; eexists; reflexivity. }
      destruct Hx' as [[s ->] | ->]; cbn [obind]; [|now right].
      destruct IHr as [[ts ->] | ->]; cbn [obind]; [left; eauto | now right]. }
    destruct H as [[ts ->] | ->]; cbn [obind]; [left; eauto | now right].
  - destruct (own ps (txt "toString")); [now right | left; eauto].
Qed.

Lemma new_Date_outcome (w : world) (k : value) :
  (exists d, new_Date w k = Ok d) \/ new_Date w k = Throw TypeError.
Proof.
  destruct k as [| |b|z|s|xs|ps]; cbn [new_Date]; try (left; eexists; reflexivity).
  - destruct (to_text_outcome (VArr xs)) as [[s ->] | ->]; cbn [obind];
      [left; eauto | now right].
  - destruct (to_text_outcome (VObj ps)) as [[s ->] | ->]; cbn [obind];
      [left; eauto | now right].
Qed.

Lemma without_milliseconds_outcome (w : world) (x : value) :
  (dated w x = true /\ exists y, without_milliseconds w x = Ok y)
  \/ (dated w x = false
      /\ (without_milliseconds w x = Throw TypeError
          \/ without_milliseconds w x = Throw RangeError)).
Proof.
  unfold dated, without_milliseconds.
  assert (Hget : (exists k, get x (txt "kickoffTime") = Ok k)
                 \/ get x (txt "kickoffTime") = Throw TypeError).
  { destruct x; cbn [get]; eauto. }
  destruct Hget as [[k ->] | ->]; cbn [obind]; [|right; auto].
  destruct (new_Date_outcome w k) as [[[t|] ->] | ->]; cbn [obind toISOString].
  - left. eauto.
  - right. auto.
  - right. auto.
Qed.

Lemma map_outcome_dated (w : world) (xs : list value) :
  if forallb (dated w) xs
  then exists ys, map_outcome (without_milliseconds w) xs = Ok ys
  else map_outcome (without_milliseconds w) xs = Throw TypeError
       \/ map_outcome (without_milliseconds w) xs = Throw RangeError.
Proof.
  induction xs as [|x r IH]; cbn [forallb map_outcome]; [now exists []|].
  destruct (without_milliseconds_outcome w x) as [[-> [y ->]] | [-> [-> | ->]]];
    cbn [andb obind]; auto.
  destruct (forallb (dated w) r).
  - destruct IH as [ys ->]. cbn [obind]. eauto.
  - destruct IH as [-> | ->]; cbn [obind]; auto.
Qed.

(** C8, as the code has it.  The normalization step has no error of its
    own: a text that is not JSON fails with the [SyntaxError] of
    [JSON.parse]; a JSON value that is not an array fails with a
    [TypeError]; an array with an element whose "kickoffTime" cannot be read
    or makes no valid date fails with a [TypeError] or with the [RangeError]
    of [toISOString]; every other text is normalized, every valid challenge
    array among them. *)
Theorem normalization_failures (w : world) (challenges : text) :
  match JSON_parse challenges with
  | Throw e =>
      e = SyntaxError /\ challengesToPredict w challenges = Throw SyntaxError
  | Ok (VArr xs) =>
      if forallb (dated w) xs
      then exists out, challengesToPredict w challenges = Ok out
      else challengesToPredict w challenges = Throw TypeError
           \/ challengesToPredict w challenges = Throw RangeError
  | Ok _ => challengesToPredict w challenges = Throw TypeError
  end
  /\ (forall x, valid_record w x = true -> dated w x = true).
Proof.
  split; [|apply valid_record_dated].
  unfold challengesToPredict.
  destruct (JSON_parse challenges) as [v|e] eqn:Hp; cbn [obind].
  - destruct v as [| |b|z|s|xs|ps]; cbn [array_map]; try reflexivity.
    pose proof (map_outcome_dated w xs) as H.
    destruct (forallb (dated w) xs).
    + destruct H as [ys ->]. cbn [obind]. eexists. reflexivity.
    + destruct H as [-> | ->]; cbn [obind]; auto.
  - apply JSON_parse_throws in Hp as ->. auto.
Qed.

(** C8, as the claim has it, fails: a text that is not JSON and a record
    with no "kickoffTime" end in the untyped errors of the run time, not in
    an error that carries a response code. *)
Lemma typed_failure_counterexample :
  JSON_parse (txt "kickoff at noon") = Throw SyntaxError
  /\ challengesToPredict quiet_world (txt "kickoff at noon") = Throw SyntaxError
  /\ JSON_parse (txt "[{}]") = Ok (VArr [VObj []])
  /\ challengesToPredict quiet_world (txt "[{}]") = Throw RangeError
  /\ challengesToPredict quiet_world (txt "[null]") = Throw TypeError
  /\ ~ (forall s, valid_challenges quiet_world s = false ->
          exists code payload,
            challengesToPredict quiet_world s = Throw (PipeError code payload)).
Proof.
  do 5 (split; [vm_compute; reflexivity|]).
  intros H. destruct (H (txt "[{}]") ltac:(vm_compute; reflexivity)) as (c & p & Hc).
  vm_compute in Hc. discriminate.
Qed.

(** ** The outbound request *)
Lemma makePredictionRequest_success (w : world) (url key challenges : text)
    (resp : response) (text : text) :
  fetch_reply w (prediction_request url key challenges) = inl resp ->
  response_ok resp = true -> body resp = inl text ->
  makePredictionRequest w url key challenges
  = ([Fetch (prediction_request url key challenges);
      Log LevelDebug ((txt "Response got from ") ++ url ++ (txt ": ") ++ text)],
     JSON_parse text).
Proof.
  intros Hf Hok Hb. unfold makePredictionRequest, fetch, catch, bind.
  rewrite Hf, Hok. cbn [negb]. unfold response_json, response_text.
  rewrite Hb. cbn [text_or lift emit obind app].
  destruct (JSON_parse text); reflexivity.
Qed.

Lemma challengesToPredict_dated (w : world) (challenges : text) (xs : list value) :
  JSON_parse challenges = Ok (VArr xs) -> forallb (dated w) xs = true ->
  exists ys,
    Forall2 (fun x y => without_milliseconds w x = Ok y) xs ys
    /\ challengesToPredict w challenges = Ok (stringify_array ys).
Proof.
  intros Hp Hd. pose proof (map_outcome_dated w xs) as H. rewrite Hd in H.
  destruct H as [ys Hys]. exists ys. split; [now apply map_outcome_ok|].
  unfold challengesToPredict. rewrite Hp. cbn [obind array_map]. now rewrite Hys.
Qed.

(** C1, as the code has it.  With a configuration, challenges that are an
    array whose every record has a "kickoffTime" that makes a valid date,
    and a downstream answer of success whose body is a JSON array,
    [predictFixtureResults] makes the one request, returns the response code
    OK and, as predictions, the text that [JSON.stringify] makes of what
    [JSON.parse] made of the body.  For the challenge of the example and an
    endpoint that echoes, the one request carries the "kickoffTime"
    2024-05-01T12:00:00Z and the predictions are the echoed array as
    text. *)
Theorem predictFixtureResults_success :
  (forall (w : world) (this : provider) (agreement : Agreement)
          (resource : Resource) (challenges : text) (cfg : configuration)
          (xs : list value),
      getVirtualProviderConfiguration this (offerId agreement) (protocol_address this)
      = Some cfg ->
      JSON_parse challenges = Ok (VArr xs) ->
      forallb (dated w) xs = true ->
      exists outbound,
        challengesToPredict w challenges = Ok outbound
        /\ forall resp text ps,
            fetch_reply w (prediction_request (apiBaseURL cfg) (apiKey cfg) outbound)
            = inl resp ->
            response_ok resp = true -> body resp = inl text ->
            JSON_parse text = Ok (VArr ps) ->
            JSON_stringify (VArr ps) = Some (stringify_array ps)
            /\ predictFixtureResults w this agreement resource challenges
               = ([Fetch (prediction_request (apiBaseURL cfg) (apiKey cfg) outbound);
                   Log LevelDebug (txt "Response got from " ++ apiBaseURL cfg
                                     ++ txt ": " ++ text)],
                  Ok {| predictions := JSON_stringify (VArr ps);
                        responseCode := OK |}))
  /\ (requests (fst (predictFixtureResults echo_world configured sample_agreement
                       sample_resource sample_challenges))
      = [prediction_request (apiBaseURL sample_configuration)
           (apiKey sample_configuration) sample_normalized]
      /\ JSON_parse sample_normalized
         = Ok (VArr [VObj [(txt "kickoffTime", VStr (txt "2024-05-01T12:00:00Z"));
                           (txt "home", VStr (txt "A")); (txt "away", VStr (txt "B"))]])
      /\ snd (predictFixtureResults echo_world configured sample_agreement
                sample_resource sample_challenges)
         = Ok {| predictions := Some sample_normalized; responseCode := OK |}).
Proof.
  split.
  - intros w this agreement resource challenges cfg xs Hcfg Hp Hd.
    destruct (challengesToPredict_dated w challenges xs Hp Hd) as (ys & _ & Hout).
    exists (stringify_array ys). split; [assumption|].
    intros resp text ps Hf Hok Hb Hbody.
    split; [reflexivity|].
    unfold predictFixtureResults. rewrite Hcfg, Hout.
    unfold bind at 1. cbn [lift].
    rewrite (makePredictionRequest_success _ _ _ _ resp text Hf Hok Hb), Hbody.
    reflexivity.
  - do 2 (split; [vm_compute; reflexivity|]). vm_compute. reflexivity.
Qed.

Lemma predictFixtureResults_success_witness :
  exists outbound,
    challengesToPredict echo_world sample_challenges = Ok outbound
    /\ forall resp text ps,
        fetch_reply echo_world
          (prediction_request (apiBaseURL sample_configuration)
             (apiKey sample_configuration) outbound) = inl resp ->
        response_ok resp = true -> body resp = inl text ->
        JSON_parse text = Ok (VArr ps) ->
        JSON_stringify (VArr ps) = Some (stringify_array ps)
        /\ predictFixtureResults echo_world configured sample_agreement
             sample_resource sample_challenges
           = ([Fetch (prediction_request (apiBaseURL sample_configuration)
                        (apiKey sample_configuration) outbound);
               Log LevelDebug (txt "Response got from "
                                 ++ apiBaseURL sample_configuration
                                 ++ txt ": " ++ text)],
              Ok {| predictions := JSON_stringify (VArr ps); responseCode := OK |}).
Proof.
  apply (proj1 predictFixtureResults_success echo_world configured sample_agreement
           sample_resource sample_challenges sample_configuration
           [VObj [(txt "kickoffTime", VStr (txt "2024-05-01T12:00:00.123Z"));
                  (txt "home", VStr (txt "A")); (txt "away", VStr (txt "B"))]]).
  - reflexivity.
  - vm_compute. reflexivity.
  - vm_compute. reflexivity.
Defined.

(** C1, as the claim has it, fails on a challenge array with a record that
    has no "kickoffTime": with a configuration and an endpoint that would
    answer every request with a success and a JSON array,
    [predictFixtureResults] throws the [RangeError] of [toISOString] and
    makes no request. *)
Lemma undated_challenge_counterexample :
  JSON_parse (txt "[{}]") = Ok (VArr [VObj []])
  /\ getVirtualProviderConfiguration configured (offerId sample_agreement)
       (protocol_address configured) = Some sample_configuration
  /\ (forall r, fetch_reply echo_world r
                = inl {| status := 200; body := inl (req_body r) |})
  /\ predictFixtureResults echo_world configured sample_agreement sample_resource
       (txt "[{}]") = ([], Throw RangeError).
Proof.
  split; [vm_compute; reflexivity|]. split; [reflexivity|].
  split; [reflexivity|]. vm_compute. reflexivity.
Qed.

(** C2.  When the lookup finds no configuration for the offer of the
    agreement, [predictFixtureResults] throws the [PipeError] with the code
    INTERNAL_SERVER_ERROR and the message "Configuration of the Offer is not
    found", whatever the challenges are, and its trace is empty: no request
    was made. *)
Theorem predictFixtureResults_configuration_missing
    (w : world) (this : provider) (agreement : Agreement) (resource : Resource)
    (challenges : text) :
  getVirtualProviderConfiguration this (offerId agreement) (protocol_address this)
  = None ->
  predictFixtureResults w this agreement resource challenges
  = ([], Throw (PipeError INTERNAL_SERVER_ERROR
                  (VObj [((txt "message"), VStr (txt "Configuration of the Offer is not found"))]))).
Proof.
  intros H. unfold predictFixtureResults. rewrite H. reflexivity.
Qed.

Lemma predictFixtureResults_configuration_missing_witness :
  predictFixtureResults echo_world unconfigured sample_agreement sample_resource
    (txt "not even JSON")
  = ([], Throw (PipeError INTERNAL_SERVER_ERROR
                  (VObj [((txt "message"), VStr (txt "Configuration of the Offer is not found"))]))).
Proof.
  apply (predictFixtureResults_configuration_missing echo_world unconfigured
           sample_agreement sample_resource (txt "not even JSON")).
  reflexivity.
Defined.

(** C3.  On an answer whose status is not a success, [makePredictionRequest]
    writes one error line with the status and the body (the placeholder when
    the body cannot be read) and throws the [PipeError] with the code
    INTERNAL_SERVER_ERROR, empty predictions and the message "Prediction is
    failed": the same error for every status and every body. *)
Theorem makePredictionRequest_non_success
    (w : world) (url key challenges : text) (resp : response) :
  fetch_reply w (prediction_request url key challenges) = inl resp ->
  response_ok resp = false ->
  makePredictionRequest w url key challenges
  = ([Fetch (prediction_request url key challenges);
      Log LevelError
        ((txt "API call to ") ++ url ++ (txt " failed with status ") ++ Z_to_string (status resp)
           ++ (txt ": ") ++ match body resp with
                      | inl text => text
                      | inr _ => (txt "[body not available]")
                      end)],
     Throw (PipeError INTERNAL_SERVER_ERROR
              (VObj [((txt "predictions"), VStr []); ((txt "message"), VStr (txt "Prediction is failed"))]))).
Proof.
  intros Hf Hok. unfold makePredictionRequest, fetch, catch, bind.
  rewrite Hf, Hok. cbn [negb]. unfold response_text.
  destruct (body resp); reflexivity.
Qed.

Lemma makePredictionRequest_non_success_witness :
  makePredictionRequest failing_world (txt "https://api.score-prediction.net") (txt "key") (txt "[]")
  = ([Fetch (prediction_request (txt "https://api.score-prediction.net") (txt "key") (txt "[]"));
      Log LevelError
        (txt "API call to https://api.score-prediction.net failed with status 500: upstream exploded")],
     Throw (PipeError INTERNAL_SERVER_ERROR
              (VObj [((txt "predictions"), VStr []); ((txt "message"), VStr (txt "Prediction is failed"))]))).
Proof.
  apply (makePredictionRequest_non_success failing_world
           (txt "https://api.score-prediction.net") (txt "key") (txt "[]")
           {| status := 500; body := inl (txt "upstream exploded") |}).
  - reflexivity.
  - reflexivity.
Defined.

(** Every run of [makePredictionRequest]. *)
Lemma makePredictionRequest_run (w : world) (url key challenges : text) :
  makePredictionRequest w url key challenges
  = match fetch_reply w (prediction_request url key challenges) with
    | inr e =>
        ([Fetch (prediction_request url key challenges);
          Log LevelDebug (txt "Fetch error cause: " ++ failure_cause e)],
         Throw (Rejected e))
    | inl resp =>
        if response_ok resp then
          match body resp with
          | inl text =>
              ([Fetch (prediction_request url key challenges);
                Log LevelDebug (txt "Response got from " ++ url ++ txt ": " ++ text)],
               JSON_parse text)
          | inr e =>
              ([Fetch (prediction_request url key challenges);
                Log LevelDebug (txt "Response got from " ++ url
                                  ++ txt ": [not available]")],
               Throw (Rejected e))
          end
        else
          ([Fetch (prediction_request url key challenges);
            Log LevelError
              (txt "API call to " ++ url ++ txt " failed with status "
                 ++ Z_to_string (status resp) ++ txt ": "
                 ++ match body resp with
                    | inl text => text
                    | inr _ => txt "[body not available]"
                    end)],
           Throw prediction_failed)
    end.
Proof.
  unfold makePredictionRequest, fetch, catch, bind.
  destruct (fetch_reply w (prediction_request url key challenges)) as [resp|e];
    [|reflexivity].
  destruct (response_ok resp); cbn [negb]; unfold response_json, response_text;
    destruct (body resp) as [text|e]; try reflexivity;
    cbn [text_or lift emit obind app]; destruct (JSON_parse text); reflexivity.
Qed.

Lemma makePredictionRequest_one_request (w : world) (url key challenges : text) :
  requests (fst (makePredictionRequest w url key challenges))
  = [prediction_request url key challenges].
Proof.
  rewrite makePredictionRequest_run.
  destruct (fetch_reply w (prediction_request url key challenges)) as [resp|e];
    [|reflexivity].
  destruct (response_ok resp); destruct (body resp); reflexivity.
Qed.

(** C9, as the code has it.  Every invocation makes exactly one request.
    When [fetch] rejects, [makePredictionRequest] writes one debug line with
    the cause and throws what [fetch] rejected with, unchanged.  When the
    transport fails later, while the body of the answer is read: on a status
    of success the failure is thrown unchanged after a debug line that has a
    placeholder and not the cause; on another status the failure is
    swallowed into the error line and the [PipeError] "Prediction is failed"
    is thrown in its place. *)
Theorem makePredictionRequest_transport_failure
    (w : world) (url key challenges : text) :
  requests (fst (makePredictionRequest w url key challenges))
  = [prediction_request url key challenges]
  /\ (forall e,
        fetch_reply w (prediction_request url key challenges) = inr e ->
        makePredictionRequest w url key challenges
        = ([Fetch (prediction_request url key challenges);
            Log LevelDebug (txt "Fetch error cause: " ++ failure_cause e)],
           Throw (Rejected e)))
  /\ (forall resp e,
        fetch_reply w (prediction_request url key challenges) = inl resp ->
        body resp = inr e -> response_ok resp = true ->
        makePredictionRequest w url key challenges
        = ([Fetch (prediction_request url key challenges);
            Log LevelDebug (txt "Response got from " ++ url
                              ++ txt ": [not available]")],
           Throw (Rejected e)))
  /\ (forall resp e,
        fetch_reply w (prediction_request url key challenges) = inl resp ->
        body resp = inr e -> response_ok resp = false ->
        makePredictionRequest w url key challenges
        = ([Fetch (prediction_request url key challenges);
            Log LevelError (txt "API call to " ++ url ++ txt " failed with status "
                              ++ Z_to_string (status resp)
                              ++ txt ": [body not available]")],
           Throw (PipeError INTERNAL_SERVER_ERROR
                    (VObj [(txt "predictions", VStr []);
                           (txt "message", VStr (txt "Prediction is failed"))])))).
Proof.
  split; [apply makePredictionRequest_one_request|].
  split; [|split].
  - intros e Hf. now rewrite makePredictionRequest_run, Hf.
  - intros resp e Hf Hb Hok. now rewrite makePredictionRequest_run, Hf, Hok, Hb.
  - intros resp e Hf Hb Hok. now rewrite makePredictionRequest_run, Hf, Hok, Hb.
Qed.

(** C9, as the claim has it, fails when the transport fails while the body
    is read: on the status 500 the abort by the timeout is not thrown, the
    [PipeError] is, and no debug line is written; on the status 200 the
    abort is thrown, but the debug line does not have its cause. *)
Lemma body_read_failure_counterexample :
  makePredictionRequest stall_500 (txt "https://api.score-prediction.net") (txt "key")
    (txt "[]")
  = ([Fetch (prediction_request (txt "https://api.score-prediction.net") (txt "key")
               (txt "[]"));
      Log LevelError
        (txt "API call to https://api.score-prediction.net failed with status 500: [body not available]")],
     Throw prediction_failed)
  /\ prediction_failed <> Rejected timed_out
  /\ makePredictionRequest stall_200 (txt "https://api.score-prediction.net") (txt "key")
       (txt "[]")
     = ([Fetch (prediction_request (txt "https://api.score-prediction.net") (txt "key")
                  (txt "[]"));
         Log LevelDebug
           (txt "Response got from https://api.score-prediction.net: [not available]")],
        Throw (Rejected timed_out)).
Proof. split; [reflexivity|]. split; [discriminate | reflexivity]. Qed.

(** ** create *)
Lemma get_defined (v : value) (k : text) :
  v <> VUndefined -> v <> VNull -> exists x, get v k = Ok x.
Proof. destruct v; cbn [get]; intros H1 H2; try contradiction; eauto. Qed.

Lemma optional_get_ok (v : value) (k : text) : exists x, optional_get v k = Ok x.
Proof. destruct v; cbn [optional_get get]; eauto. Qed.

(** C6.  The details of the example give the allowance 50, and details that
    are [null] the allowance 0; on details that are an object with no
    "params" the default is not reached: the index into the missing "params"
    throws a [TypeError]. *)
Theorem create_without_params (agreement : Agreement) :
  create agreement sample_offer
  = Ok {| details_status := Running;
          Predictions_Allowance_Count := VNum (number_of_Z 50);
          Predictions_Count := 0 |}
  /\ typeof (VObj []) = txt "object"
  /\ create agreement {| details := VObj [] |} = Throw TypeError
  /\ create agreement
       {| details := VObj [(txt "params", VObj [])] |}
     = Ok {| details_status := Running;
             Predictions_Allowance_Count := VNum (Zero false);
             Predictions_Count := 0 |}.
Proof. repeat split. Qed.

Lemma get_outcome (v : value) (k : text) :
  (exists x, get v k = Ok x) \/ get v k = Throw TypeError.
Proof. destruct v; cbn [get]; eauto. Qed.

(** On details of type "object", [create] returns or throws a
    [TypeError]. *)
Lemma create_object_outcome (agreement : Agreement) (offer : DetailedOffer) :
  typeof (details offer) = txt "object" ->
  (exists r, create agreement offer = Ok r)
  \/ create agreement offer = Throw TypeError.
Proof.
  intros Hty. unfold create. rewrite Hty.
  change (text_eqb (txt "object") (txt "object")) with true. cbv iota.
  assert (Hentry : (exists en, number_of_predictions_entry (details offer) = Ok en)
                   \/ number_of_predictions_entry (details offer) = Throw TypeError).
  { unfold number_of_predictions_entry.
    destruct (get_outcome (details offer) (txt "params")) as [[p Hp] | Hp].
    - destruct (get_outcome p (txt "Number of Predictions")) as [[en He] | He].
      + left. destruct (details offer); eauto; rewrite Hp; cbn [obind]; eauto.
      + destruct (details offer); eauto; rewrite Hp; cbn [obind]; eauto.
    - destruct (details offer); eauto; rewrite Hp; cbn [obind]; eauto. }
  destruct Hentry as [[en ->] | ->]; cbn [obind]; [|now right].
  destruct (optional_get_ok en (txt "value")) as [v ->]. cbn [obind]. eauto.
Qed.

(** C7.  [create] throws the error "Invalid offer details" exactly on the
    offers whose details are not of type "object". *)
Theorem create_invalid_offer_details (agreement : Agreement) (offer : DetailedOffer) :
  typeof (details offer) <> txt "object"
  <-> create agreement offer = Throw (PlainError (txt "Invalid offer details")).
Proof.
  destruct (text_eqb_spec (typeof (details offer)) (txt "object")) as [E | E].
  - split; [contradiction|]. intros H. exfalso.
    destruct (create_object_outcome agreement offer E) as [[r Hr] | Hr];
      rewrite Hr in H; discriminate.
  - split; [|intros _; assumption]. intros _. unfold create.
    destruct (text_eqb_spec (typeof (details offer)) (txt "object")); [contradiction|].
    reflexivity.
Qed.

(** C10.  [create] is not total on details of type "object": on an object
    with no "params" it throws a [TypeError], which is neither its result
    nor the error "Invalid offer details"; on [null], of type "object" too,
    the optional chain stops and it returns the allowance 0. *)
Theorem create_not_total (agreement : Agreement) :
  typeof (VObj []) = txt "object"
  /\ create agreement {| details := VObj [] |} = Throw TypeError
  /\ typeof VNull = txt "object"
  /\ create agreement {| details := VNull |}
     = Ok {| details_status := Running;
             Predictions_Allowance_Count := VNum (Zero false);
             Predictions_Count := 0 |}.
Proof. repeat split. Qed.

(** ** The model of the run time at work *)
Example iso_string_epoch : iso_string 0 = txt "1970-01-01T00:00:00.000Z".
Proof. vm_compute. reflexivity. Qed.

Example iso_string_2024 :
  iso_string 1714564800123 = txt "2024-05-01T12:00:00.123Z".
Proof. vm_compute. reflexivity. Qed.

Example utc_date_time_2024 :
  utc_date_time (txt "2024-05-01T12:00:00.123Z") = Some 1714564800123.
Proof. vm_compute. reflexivity. Qed.

Example iso_string_before_epoch : iso_string (-1) = txt "1969-12-31T23:59:59.999Z".
Proof. vm_compute. reflexivity. Qed.

Example iso_string_year_10000 :
  iso_string 253402300800000 = txt "+010000-01-01T00:00:00.000Z".
Proof. vm_compute. reflexivity. Qed.

Example leap_day_2024 : utc_date_time (txt "2024-02-29T00:00:00Z") = Some 1709164800000.
Proof. vm_compute. reflexivity. Qed.

Example no_leap_day_1900 : utc_date_time (txt "1900-02-29T00:00:00Z") = None.
Proof. vm_compute. reflexivity. Qed.

Example first_date : iso_string (- maxTime) = txt "-271821-04-20T00:00:00.000Z".
Proof. vm_compute. reflexivity. Qed.

Example last_date : iso_string maxTime = txt "+275760-09-13T00:00:00.000Z".
Proof. vm_compute. reflexivity. Qed.

Example local_time_is_left_to_the_engine :
  utc_date_time (txt "2024-05-01T12:00:00") = None.
Proof. vm_compute. reflexivity. Qed.

(** Numbers: a fraction, an exponent, an integer past 2^53, a literal past
    the largest number, a negative zero. *)
Example number_texts :
  map (fun s => option_map number_text
                  (match JSON_parse (txt s) with
                   | Ok (VNum x) => Some x
                   | _ => None
                   end))
    ["1.50"; "0.1"; "1e21"; "1E+2"; "125e-2"; "1e-7"; "0.000001";
     "123456789012345680000"; "9007199254740993"; "1e400"; "-0"; "5e-324";
     "-2.5e-3"]
  = map (fun s => Some (txt s))
      ["1.5"; "0.1"; "1e+21"; "100"; "1.25"; "1e-7"; "0.000001";
       "123456789012345680000"; "9007199254740992"; "null"; "0"; "5e-324";
       "-0.0025"].
Proof. vm_compute. reflexivity. Qed.

Example parse_infinite : JSON_parse (txt "-1e400") = Ok (VNum (Infinite true)).
Proof. vm_compute. reflexivity. Qed.

Example parse_one_tenth :
  JSON_parse (txt "0.1") = Ok (VNum (Finite false 3602879701896397 (-55))).
Proof. vm_compute. reflexivity. Qed.

(** An escape of four hexadecimal digits is one code unit, whatever its
    value; written again, it is the character itself, and a surrogate on its
    own is an escape. *)
Example parse_escape :
  JSON_parse (dquote :: txt "\u20ac\ud83d" ++ [dquote])
  = Ok (VStr [char_of_code 8364; char_of_code 55357])
  /\ JSON_stringify (VStr [char_of_code 8364; char_of_code 55357])
     = Some (dquote :: char_of_code 8364 :: txt "\ud83d" ++ [dquote]).
Proof. split; vm_compute; reflexivity. Qed.

Example parse_keeps_first_place_and_last_value :
  JSON_parse (txt "{" ++ quote (txt "b") ++ txt ":1, " ++ quote (txt "1")
                ++ txt " : [true , null,-0] ," ++ quote (txt "b") ++ txt ":{ } } ")
  = Ok (VObj [(txt "1", VArr [VBool true; VNull; VNum (Zero true)]);
              (txt "b", VObj [])]).
Proof. vm_compute. reflexivity. Qed.

Example parse_trailing_comma : JSON_parse (txt "[1,]") = Throw SyntaxError.
Proof. vm_compute. reflexivity. Qed.

Example parse_unclosed : JSON_parse (txt "[[[[[[[[") = Throw SyntaxError.
Proof. vm_compute. reflexivity. Qed.

Example parse_leading_zero : JSON_parse (txt "01") = Throw SyntaxError.
Proof. vm_compute. reflexivity. Qed.

Example parse_point_without_digit : JSON_parse (txt "1.") = Throw SyntaxError.
Proof. vm_compute. reflexivity. Qed.

Example callback_keeps_other_fields :
  challengesToPredict quiet_world
    (txt "[{" ++ quote (txt "a") ++ txt ":1," ++ quote (txt "kickoffTime") ++ txt ":"
       ++ quote (txt "2024-02-29T23:59:59.999Z") ++ txt "," ++ quote (txt "0")
       ++ txt ":[1,{}]}]")
  = Ok (txt "[{" ++ quote (txt "0") ++ txt ":[1,{}]," ++ quote (txt "a") ++ txt ":1,"
          ++ quote (txt "kickoffTime") ++ txt ":" ++ quote (txt "2024-02-29T23:59:59Z")
          ++ txt "}]").
Proof. vm_compute. reflexivity. Qed.

Example callback_on_a_number :
  challengesToPredict quiet_world
    (txt "[{" ++ quote (txt "kickoffTime") ++ txt ": 1500.7 }]")
  = Ok (txt "[{" ++ quote (txt "kickoffTime") ++ txt ":"
          ++ quote (txt "1970-01-01T00:00:01Z") ++ txt "}]").
Proof. vm_compute. reflexivity. Qed.

Example getDetails_takes_the_status (a : Agreement) (o : DetailedOffer) :
  getDetails a o {| deploymentStatus := Closed;
                    resource_details := resource_details sample_resource |}
  = Ok {| details_status := Closed;
          Predictions_Allowance_Count := VNum (number_of_Z 50);
          Predictions_Count := 0 |}.
Proof. reflexivity. Qed.

(** ** Every run of predictFixtureResults *)

Lemma predictFixtureResults_run (w : world) (this : provider) (agreement : Agreement)
    (resource : Resource) (challenges : text) :
  predictFixtureResults w this agreement resource challenges
  = match getVirtualProviderConfiguration this (offerId agreement)
            (protocol_address this) with
    | None => ([], Throw configuration_missing)
    | Some cfg =>
        match challengesToPredict w challenges with
        | Ok outbound =>
            (fst (makePredictionRequest w (apiBaseURL cfg) (apiKey cfg) outbound),
             prediction_outcome
               (snd (makePredictionRequest w (apiBaseURL cfg) (apiKey cfg) outbound)))
        | Throw e => ([], Throw e)
        end
    end.
Proof.
  unfold predictFixtureResults.
  destruct (getVirtualProviderConfiguration this (offerId agreement)
              (protocol_address this)) as [cfg|]; [|reflexivity].
  destruct (challengesToPredict w challenges) as [outbound|e]; try reflexivity.
  unfold bind at 1. cbn [lift].
  destruct (makePredictionRequest w (apiBaseURL cfg) (apiKey cfg) outbound)
    as [t [v|e]]; cbn [bind fst snd prediction_outcome app ret]; try reflexivity.
  now rewrite ?app_nil_r.
Qed.

Lemma challengesToPredict_throws (w : world) (s : text) (e : thrown) :
  challengesToPredict w s = Throw e ->
  e = SyntaxError \/ e = TypeError \/ e = RangeError.
Proof.
  unfold challengesToPredict.
  destruct (JSON_parse s) as [v|e'] eqn:Hp; cbn [obind].
  - destruct v as [| |b|z|t|xs|ps]; cbn [array_map obind];
      try (intros [= <-]; now auto).
    pose proof (map_outcome_dated w xs) as H.
    destruct (forallb (dated w) xs).
    + destruct H as [ys ->]. cbn [obind]. discriminate.
    + destruct H as [-> | ->]; cbn [obind]; intros [= <-]; auto.
  - apply JSON_parse_throws in Hp as ->. intros [= <-]. auto.
Qed.

(** ** The outbound request: returns, failures, what is logged *)
(** X1.  [makePredictionRequest] returns a value only on an answer of status
    200..299 whose body can be read and is JSON: the value is what
    [JSON.parse] makes of the body, and the trace is the request and one
    debug line with the body. *)
Theorem makePredictionRequest_returns
    (w : world) (url key challenges : text) (t : list event) (v : value) :
  makePredictionRequest w url key challenges = (t, Ok v) ->
  exists resp text,
    fetch_reply w (prediction_request url key challenges) = inl resp
    /\ 200 <= status resp <= 299
    /\ body resp = inl text
    /\ JSON_parse text = Ok v
    /\ t = [Fetch (prediction_request url key challenges);
            Log LevelDebug ((txt "Response got from ") ++ url ++ (txt ": ") ++ text)].
Proof.
  rewrite makePredictionRequest_run.
  destruct (fetch_reply w (prediction_request url key challenges)) as [resp|e];
    [|discriminate].
  destruct (response_ok resp) eqn:Hok; [|discriminate].
  destruct (body resp) as [text|e] eqn:Hb; [|discriminate].
  intros [= <- Hp]. exists resp, text. repeat split; try assumption.
  - unfold response_ok in Hok. apply andb_true_iff in Hok as [H _].
    now apply Z.leb_le in H.
  - unfold response_ok in Hok. apply andb_true_iff in Hok as [_ H].
    now apply Z.leb_le in H.
Qed.

Lemma makePredictionRequest_returns_witness :
  exists resp text,
    fetch_reply echo_world (prediction_request (txt "https://api.score-prediction.net") (txt "key") (txt "[ ]"))
    = inl resp
    /\ 200 <= status resp <= 299
    /\ body resp = inl text
    /\ JSON_parse text = Ok (VArr [])
    /\ [Fetch (prediction_request (txt "https://api.score-prediction.net") (txt "key") (txt "[ ]"));
        Log LevelDebug (txt "Response got from https://api.score-prediction.net: [ ]")]
       = [Fetch (prediction_request (txt "https://api.score-prediction.net") (txt "key") (txt "[ ]"));
          Log LevelDebug ((txt "Response got from ") ++ (txt "https://api.score-prediction.net")
                            ++ (txt ": ") ++ text)].
Proof.
  apply (makePredictionRequest_returns echo_world (txt "https://api.score-prediction.net")
           (txt "key") (txt "[ ]")).
  vm_compute. reflexivity.
Defined.

(** X2.  On an answer of success whose body can be read, the only error of
    [makePredictionRequest] is the [SyntaxError] of [JSON.parse], thrown
    exactly when the body is not JSON and after the body was logged: a body
    that does not parse is not turned into a [PipeError]. *)
Theorem makePredictionRequest_body_not_json
    (w : world) (url key challenges : text) (resp : response) (text : text) :
  fetch_reply w (prediction_request url key challenges) = inl resp ->
  response_ok resp = true -> body resp = inl text ->
  fst (makePredictionRequest w url key challenges)
  = [Fetch (prediction_request url key challenges);
     Log LevelDebug ((txt "Response got from ") ++ url ++ (txt ": ") ++ text)]
  /\ forall e,
       snd (makePredictionRequest w url key challenges) = Throw e
       <-> e = SyntaxError /\ JSON_parse text = Throw SyntaxError.
Proof.
  intros Hf Hok Hb. rewrite makePredictionRequest_run, Hf, Hok, Hb. cbn [fst snd].
  split; [reflexivity|]. intros e. split.
  - intros H. apply JSON_parse_throws in H as He. subst e. auto.
  - intros [-> H]. exact H.
Qed.

Lemma makePredictionRequest_body_not_json_witness :
  fst (makePredictionRequest garbled_world (txt "https://api.score-prediction.net") (txt "key") (txt "[]"))
  = [Fetch (prediction_request (txt "https://api.score-prediction.net") (txt "key") (txt "[]"));
     Log LevelDebug ((txt "Response got from ") ++ (txt "https://api.score-prediction.net") ++ (txt ": ")
                       ++ (txt "<html>busy</html>"))]
  /\ forall e,
       snd (makePredictionRequest garbled_world (txt "https://api.score-prediction.net")
              (txt "key") (txt "[]")) = Throw e
       <-> e = SyntaxError /\ JSON_parse (txt "<html>busy</html>") = Throw SyntaxError.
Proof.
  apply (makePredictionRequest_body_not_json garbled_world
           (txt "https://api.score-prediction.net") (txt "key") (txt "[]")
           {| status := 200; body := inl (txt "<html>busy</html>") |} (txt "<html>busy</html>"));
    reflexivity.
Defined.

(** X3.  On an answer of success whose body cannot be read,
    [makePredictionRequest] logs the placeholder "[not available]" in place
    of the body (the failed read of the copy is swallowed) and then throws
    what the read of the body itself rejected with. *)
Theorem makePredictionRequest_body_unreadable
    (w : world) (url key challenges : text) (resp : response) (e : fetch_failure) :
  fetch_reply w (prediction_request url key challenges) = inl resp ->
  response_ok resp = true -> body resp = inr e ->
  makePredictionRequest w url key challenges
  = ([Fetch (prediction_request url key challenges);
      Log LevelDebug ((txt "Response got from ") ++ url ++ (txt ": [not available]"))],
     Throw (Rejected e)).
Proof.
  intros Hf Hok Hb. now rewrite makePredictionRequest_run, Hf, Hok, Hb.
Qed.

Lemma makePredictionRequest_body_unreadable_witness :
  makePredictionRequest cut_world (txt "https://api.score-prediction.net") (txt "key") (txt "[]")
  = ([Fetch (prediction_request (txt "https://api.score-prediction.net") (txt "key") (txt "[]"));
      Log LevelDebug ((txt "Response got from ") ++ (txt "https://api.score-prediction.net")
                        ++ (txt ": [not available]"))],
     Throw (Rejected unreachable)).
Proof.
  apply (makePredictionRequest_body_unreadable cut_world
           (txt "https://api.score-prediction.net") (txt "key") (txt "[]")
           {| status := 200; body := inr unreachable |} unreachable); reflexivity.
Defined.

(** X4.  The API key goes into the Authorization header and nowhere else:
    when the network answers two requests that differ only in the key in the
    same way, the two runs write the same log lines and end in the same
    result or error. *)
Theorem makePredictionRequest_key_not_logged
    (w : world) (url key key' challenges : text) :
  fetch_reply w (prediction_request url key challenges)
  = fetch_reply w (prediction_request url key' challenges) ->
  logs (fst (makePredictionRequest w url key challenges))
  = logs (fst (makePredictionRequest w url key' challenges))
  /\ snd (makePredictionRequest w url key challenges)
     = snd (makePredictionRequest w url key' challenges).
Proof.
  intros H. rewrite !makePredictionRequest_run, H.
  destruct (fetch_reply w (prediction_request url key' challenges)) as [resp|e];
    [|split; reflexivity].
  destruct (response_ok resp); destruct (body resp); split; reflexivity.
Qed.

Lemma makePredictionRequest_key_not_logged_witness :
  logs (fst (makePredictionRequest failing_world (txt "https://api.score-prediction.net")
               (txt "key one") (txt "[]")))
  = logs (fst (makePredictionRequest failing_world (txt "https://api.score-prediction.net")
                 (txt "key two") (txt "[]")))
  /\ snd (makePredictionRequest failing_world (txt "https://api.score-prediction.net")
            (txt "key one") (txt "[]"))
     = snd (makePredictionRequest failing_world (txt "https://api.score-prediction.net")
              (txt "key two") (txt "[]")).
Proof.
  apply (makePredictionRequest_key_not_logged failing_world
           (txt "https://api.score-prediction.net") (txt "key one") (txt "key two") (txt "[]")).
  reflexivity.
Defined.

(** ** predictFixtureResults from end to end *)
(** X5.  With a configuration, challenges that the normalization rejects end
    [predictFixtureResults] before any request: the trace is empty and the
    error is the untyped one of the normalization, a [SyntaxError], a
    [TypeError] or a [RangeError]. *)
Theorem predictFixtureResults_rejected_challenges
    (w : world) (this : provider) (agreement : Agreement) (resource : Resource)
    (challenges : text) (cfg : configuration) (e : thrown) :
  getVirtualProviderConfiguration this (offerId agreement) (protocol_address this)
  = Some cfg ->
  challengesToPredict w challenges = Throw e ->
  predictFixtureResults w this agreement resource challenges = ([], Throw e)
  /\ (e = SyntaxError \/ e = TypeError \/ e = RangeError).
Proof.
  intros Hcfg He. rewrite predictFixtureResults_run, Hcfg, He.
  split; [reflexivity|]. eapply challengesToPredict_throws, He.
Qed.

Lemma predictFixtureResults_rejected_challenges_witness :
  predictFixtureResults echo_world configured sample_agreement sample_resource (txt "[{}]")
  = ([], Throw RangeError)
  /\ (RangeError = SyntaxError \/ RangeError = TypeError \/ RangeError = RangeError).
Proof.
  apply (predictFixtureResults_rejected_challenges echo_world configured
           sample_agreement sample_resource (txt "[{}]") sample_configuration RangeError).
  - reflexivity.
  - vm_compute. reflexivity.
Defined.

(** X6.  A run of [predictFixtureResults] makes no request or one.  It
    makes none exactly when there is no configuration or the normalization
    of the challenges throws.  The one request is a POST to the configured
    URL, with the JSON content type, the configured key as bearer credential
    and the timeout of 120000 ms; its body is the normalized challenges, a
    text that the normalization leaves as it is. *)
Theorem predictFixtureResults_requests
    (w : world) (this : provider) (agreement : Agreement) (resource : Resource)
    (challenges : text) :
  (requests (fst (predictFixtureResults w this agreement resource challenges)) = []
   /\ (getVirtualProviderConfiguration this (offerId agreement) (protocol_address this)
       = None
       \/ exists e, challengesToPredict w challenges = Throw e))
  \/ exists cfg outbound,
       getVirtualProviderConfiguration this (offerId agreement) (protocol_address this)
       = Some cfg
       /\ challengesToPredict w challenges = Ok outbound
       /\ challengesToPredict w outbound = Ok outbound
       /\ requests (fst (predictFixtureResults w this agreement resource challenges))
          = [{| req_url := apiBaseURL cfg;
                req_method := txt "POST";
                req_headers := [(txt "Content-Type", txt "application/json");
                                (txt "Authorization", txt "Bearer " ++ apiKey cfg)];
                req_body := outbound;
                req_timeout := 120000 |}].
Proof.
  rewrite predictFixtureResults_run.
  destruct (getVirtualProviderConfiguration this (offerId agreement)
              (protocol_address this)) as [cfg|]; [|left; auto].
  destruct (challengesToPredict w challenges) as [outbound|e] eqn:Hn;
    [|left; eauto].
  right. exists cfg, outbound. repeat split.
  - now apply (normalization_again w challenges).
  - cbn [fst]. apply makePredictionRequest_one_request.
Qed.

(** X7.  When [predictFixtureResults] returns, the response code is OK and
    the predictions are the text that [JSON.stringify] makes of what
    [JSON.parse] made of the body of an answer of success, whether or not it
    is an array (the shape of the answer is not checked).  They are a text,
    not [undefined]; read again they give the value of the body with every
    infinite number as null and every negative zero as zero, and written
    again they are the same text. *)
Theorem predictFixtureResults_returns
    (w : world) (this : provider) (agreement : Agreement) (resource : Resource)
    (challenges : text) (t : list event) (result : prediction_result) :
  predictFixtureResults w this agreement resource challenges = (t, Ok result) ->
  responseCode result = OK
  /\ exists cfg outbound resp text v predicted,
       getVirtualProviderConfiguration this (offerId agreement) (protocol_address this)
       = Some cfg
       /\ challengesToPredict w challenges = Ok outbound
       /\ fetch_reply w (prediction_request (apiBaseURL cfg) (apiKey cfg) outbound)
          = inl resp
       /\ response_ok resp = true
       /\ body resp = inl text
       /\ JSON_parse text = Ok v
       /\ predictions result = JSON_stringify v
       /\ JSON_stringify v = Some predicted
       /\ JSON_parse predicted = Ok (settle v)
       /\ JSON_stringify (settle v) = Some predicted.
Proof.
  rewrite predictFixtureResults_run.
  destruct (getVirtualProviderConfiguration this (offerId agreement)
              (protocol_address this)) as [cfg|]; [|discriminate].
  destruct (challengesToPredict w challenges) as [outbound|e] eqn:Hn;
    try discriminate.
  rewrite makePredictionRequest_run.
  destruct (fetch_reply w (prediction_request (apiBaseURL cfg) (apiKey cfg) outbound))
    as [resp|e] eqn:Hf; [|discriminate].
  destruct (response_ok resp) eqn:Hok; [|discriminate].
  destruct (body resp) as [text|e] eqn:Hb; [|discriminate].
  cbn [fst snd]. destruct (JSON_parse text) as [v|e] eqn:Hp; try discriminate.
  cbn [prediction_outcome].
  pose proof (JSON_parse_json_value _ _ Hp) as Hj.
  destruct (JSON_parse_stringify v Hj) as [Hs Hback].
  intros [= <- <-]. split; [reflexivity|].
  exists cfg, outbound, resp, text, v, (element_text v). cbn [predictions].
  repeat split; try assumption.
  destruct (JSON_parse_stringify (settle v) (settle_json_value v Hj)) as [Hs' _].
  now rewrite Hs', settle_element_text.
Qed.

Lemma predictFixtureResults_returns_witness :
  responseCode {| predictions := Some rich_normalized; responseCode := OK |} = OK
  /\ exists cfg outbound resp text v predicted,
       getVirtualProviderConfiguration configured (offerId sample_agreement)
         (protocol_address configured) = Some cfg
       /\ challengesToPredict echo_world rich_challenges = Ok outbound
       /\ fetch_reply echo_world
            (prediction_request (apiBaseURL cfg) (apiKey cfg) outbound) = inl resp
       /\ response_ok resp = true
       /\ body resp = inl text
       /\ JSON_parse text = Ok v
       /\ predictions {| predictions := Some rich_normalized; responseCode := OK |}
          = JSON_stringify v
       /\ JSON_stringify v = Some predicted
       /\ JSON_parse predicted = Ok (settle v)
       /\ JSON_stringify (settle v) = Some predicted.
Proof.
  apply (predictFixtureResults_returns echo_world configured sample_agreement
           sample_resource rich_challenges
           (fst (predictFixtureResults echo_world configured sample_agreement
                   sample_resource rich_challenges))).
  vm_compute. reflexivity.
Defined.

(** X8.  Whatever [predictFixtureResults] throws is one of: the [PipeError]
    of the missing configuration, the [SyntaxError], [TypeError] or
    [RangeError] of the run time (from the challenges or from the body of
    the answer), the [PipeError] "Prediction is failed", or the rejection of
    [fetch] or of the body read.  Both [PipeError]s carry the code
    INTERNAL_SERVER_ERROR. *)
Theorem predictFixtureResults_throws
    (w : world) (this : provider) (agreement : Agreement) (resource : Resource)
    (challenges : text) (t : list event) (e : thrown) :
  predictFixtureResults w this agreement resource challenges = (t, Throw e) ->
  e = PipeError INTERNAL_SERVER_ERROR
        (VObj [((txt "message"), VStr (txt "Configuration of the Offer is not found"))])
  \/ e = SyntaxError \/ e = TypeError \/ e = RangeError
  \/ e = PipeError INTERNAL_SERVER_ERROR
           (VObj [((txt "predictions"), VStr []); ((txt "message"), VStr (txt "Prediction is failed"))])
  \/ exists failure, e = Rejected failure.
Proof.
  rewrite predictFixtureResults_run.
  destruct (getVirtualProviderConfiguration this (offerId agreement)
              (protocol_address this)) as [cfg|]; [|intros [= _ <-]; now left].
  destruct (challengesToPredict w challenges) as [outbound|e'] eqn:Hn;
    try discriminate.
  - rewrite makePredictionRequest_run.
    destruct (fetch_reply w (prediction_request (apiBaseURL cfg) (apiKey cfg) outbound))
      as [resp|f]; [|intros [= _ <-]; eauto 10].
    destruct (response_ok resp); [|intros [= _ <-]; auto 10].
    destruct (body resp) as [text|f]; [|intros [= _ <-]; eauto 10].
    cbn [fst snd]. destruct (JSON_parse text) as [v|e'] eqn:Hp;
      cbn [prediction_outcome].
    + discriminate.
    + apply JSON_parse_throws in Hp as ->. intros [= _ <-]. auto.
  - intros [= _ <-]. apply challengesToPredict_throws in Hn.
    destruct Hn as [-> | [-> | ->]]; auto 10.
Qed.

Lemma predictFixtureResults_throws_witness :
  PipeError INTERNAL_SERVER_ERROR
    (VObj [((txt "predictions"), VStr []); ((txt "message"), VStr (txt "Prediction is failed"))])
  = PipeError INTERNAL_SERVER_ERROR
      (VObj [((txt "message"), VStr (txt "Configuration of the Offer is not found"))])
  \/ PipeError INTERNAL_SERVER_ERROR
       (VObj [((txt "predictions"), VStr []); ((txt "message"), VStr (txt "Prediction is failed"))])
     = SyntaxError
  \/ PipeError INTERNAL_SERVER_ERROR
       (VObj [((txt "predictions"), VStr []); ((txt "message"), VStr (txt "Prediction is failed"))])
     = TypeError
  \/ PipeError INTERNAL_SERVER_ERROR
       (VObj [((txt "predictions"), VStr []); ((txt "message"), VStr (txt "Prediction is failed"))])
     = RangeError
  \/ PipeError INTERNAL_SERVER_ERROR
       (VObj [((txt "predictions"), VStr []); ((txt "message"), VStr (txt "Prediction is failed"))])
     = PipeError INTERNAL_SERVER_ERROR
         (VObj [((txt "predictions"), VStr []); ((txt "message"), VStr (txt "Prediction is failed"))])
  \/ exists failure,
       PipeError INTERNAL_SERVER_ERROR
         (VObj [((txt "predictions"), VStr []); ((txt "message"), VStr (txt "Prediction is failed"))])
       = Rejected failure.
Proof.
  apply (predictFixtureResults_throws failing_world configured sample_agreement
           sample_resource sample_challenges
           (fst (predictFixtureResults failing_world configured sample_agreement
                   sample_resource sample_challenges))).
  vm_compute. reflexivity.
Defined.

(** X9.  With an endpoint that answers every request with its body, the
    predictions of a valid challenge array are the normalized challenges, and
    sending the predictions as challenges gives the same predictions
    again. *)
Theorem predictFixtureResults_echo
    (w : world) (this : provider) (agreement : Agreement) (resource : Resource)
    (challenges : text) (cfg : configuration) :
  getVirtualProviderConfiguration this (offerId agreement) (protocol_address this)
  = Some cfg ->
  valid_challenges w challenges = true ->
  (forall q, fetch_reply w q = inl {| status := 200; body := inl (req_body q) |}) ->
  exists out,
    challengesToPredict w challenges = Ok out
    /\ snd (predictFixtureResults w this agreement resource challenges)
       = Ok {| predictions := Some out; responseCode := OK |}
    /\ snd (predictFixtureResults w this agreement resource out)
       = Ok {| predictions := Some out; responseCode := OK |}.
Proof.
  intros Hcfg Hv Hecho.
  destruct (valid_challenges_ok w challenges Hv) as (xs & ys & Hp & _ & Hm & Hout).
  apply JSON_parse_json_value in Hp as Hj. cbn [json_value] in Hj.
  destruct (written_records w xs ys Hj Hm) as [Hjy _].
  destruct (JSON_parse_stringify (VArr ys) Hjy) as [Hs Hback].
  destruct (JSON_parse_stringify (settle (VArr ys))
              (settle_json_value (VArr ys) Hjy)) as [Hs' _].
  rewrite (settle_element_text (VArr ys) Hjy) in Hs'.
  pose proof (normalization_again w challenges _ Hout w) as Hagain.
  exists (element_text (VArr ys)). split; [assumption|].
  assert (Hrun : forall s,
    challengesToPredict w s = Ok (element_text (VArr ys)) ->
    snd (predictFixtureResults w this agreement resource s)
    = Ok {| predictions := Some (element_text (VArr ys)); responseCode := OK |}).
  { intros s Hs0. rewrite predictFixtureResults_run, Hcfg, Hs0.
    rewrite makePredictionRequest_run, Hecho.
    change (response_ok {| status := 200;
                           body := inl (req_body (prediction_request (apiBaseURL cfg)
                                                    (apiKey cfg) (element_text (VArr ys)))) |})
      with true.
    cbv iota. cbn [body prediction_request req_body snd].
    rewrite Hback. cbn [prediction_outcome]. now rewrite Hs'. }
  split; apply Hrun; assumption.
Qed.

Lemma predictFixtureResults_echo_witness :
  exists out,
    challengesToPredict echo_world rich_challenges = Ok out
    /\ snd (predictFixtureResults echo_world configured sample_agreement
              sample_resource rich_challenges)
       = Ok {| predictions := Some out; responseCode := OK |}
    /\ snd (predictFixtureResults echo_world configured sample_agreement
              sample_resource out)
       = Ok {| predictions := Some out; responseCode := OK |}.
Proof.
  apply (predictFixtureResults_echo echo_world configured sample_agreement
           sample_resource rich_challenges sample_configuration).
  - reflexivity.
  - vm_compute. reflexivity.
  - intros q. reflexivity.
Defined.

(** X10.  With a configuration and challenges that the normalization
    accepts, an answer whose status is not a success ends
    [predictFixtureResults] in the [PipeError] "Prediction is failed" with
    the code INTERNAL_SERVER_ERROR, after the one request and one error
    line: the failure of the executor is passed on as it is. *)
Theorem predictFixtureResults_non_success
    (w : world) (this : provider) (agreement : Agreement) (resource : Resource)
    (challenges outbound : text) (cfg : configuration) (resp : response) :
  getVirtualProviderConfiguration this (offerId agreement) (protocol_address this)
  = Some cfg ->
  challengesToPredict w challenges = Ok outbound ->
  fetch_reply w (prediction_request (apiBaseURL cfg) (apiKey cfg) outbound) = inl resp ->
  response_ok resp = false ->
  predictFixtureResults w this agreement resource challenges
  = ([Fetch (prediction_request (apiBaseURL cfg) (apiKey cfg) outbound);
      Log LevelError
        ((txt "API call to ") ++ apiBaseURL cfg ++ (txt " failed with status ")
           ++ Z_to_string (status resp) ++ (txt ": ")
           ++ match body resp with
              | inl text => text
              | inr _ => (txt "[body not available]")
              end)],
     Throw (PipeError INTERNAL_SERVER_ERROR
              (VObj [((txt "predictions"), VStr []); ((txt "message"), VStr (txt "Prediction is failed"))]))).
Proof.
  intros Hcfg Hn Hf Hok.
  now rewrite predictFixtureResults_run, Hcfg, Hn, makePredictionRequest_run, Hf, Hok.
Qed.

Lemma predictFixtureResults_non_success_witness :
  predictFixtureResults failing_world configured sample_agreement sample_resource
    sample_challenges
  = ([Fetch (prediction_request (apiBaseURL sample_configuration)
               (apiKey sample_configuration) sample_normalized);
      Log LevelError
        ((txt "API call to ") ++ apiBaseURL sample_configuration ++ (txt " failed with status ")
           ++ Z_to_string 500 ++ (txt ": ") ++ (txt "upstream exploded"))],
     Throw (PipeError INTERNAL_SERVER_ERROR
              (VObj [((txt "predictions"), VStr []); ((txt "message"), VStr (txt "Prediction is failed"))]))).
Proof.
  apply (predictFixtureResults_non_success failing_world configured sample_agreement
           sample_resource sample_challenges sample_normalized sample_configuration
           {| status := 500; body := inl (txt "upstream exploded") |}).
  - reflexivity.
  - vm_compute. reflexivity.
  - reflexivity.
  - reflexivity.
Defined.

(** X11.  With a configuration and challenges that the normalization
    accepts, a rejection of [fetch] (network error, abort by the timeout)
    leaves [predictFixtureResults] as the same rejection, not wrapped in a
    [PipeError], after exactly one request and the debug line with the
    cause. *)
Theorem predictFixtureResults_transport_failure
    (w : world) (this : provider) (agreement : Agreement) (resource : Resource)
    (challenges outbound : text) (cfg : configuration) (failure : fetch_failure) :
  getVirtualProviderConfiguration this (offerId agreement) (protocol_address this)
  = Some cfg ->
  challengesToPredict w challenges = Ok outbound ->
  fetch_reply w (prediction_request (apiBaseURL cfg) (apiKey cfg) outbound)
  = inr failure ->
  predictFixtureResults w this agreement resource challenges
  = ([Fetch (prediction_request (apiBaseURL cfg) (apiKey cfg) outbound);
      Log LevelDebug ((txt "Fetch error cause: ") ++ failure_cause failure)],
     Throw (Rejected failure)).
Proof.
  intros Hcfg Hn Hf.
  now rewrite predictFixtureResults_run, Hcfg, Hn, makePredictionRequest_run, Hf.
Qed.

Lemma predictFixtureResults_transport_failure_witness :
  predictFixtureResults quiet_world configured sample_agreement sample_resource
    sample_challenges
  = ([Fetch (prediction_request (apiBaseURL sample_configuration)
               (apiKey sample_configuration) sample_normalized);
      Log LevelDebug ((txt "Fetch error cause: ") ++ failure_cause unreachable)],
     Throw (Rejected unreachable)).
Proof.
  apply (predictFixtureResults_transport_failure quiet_world configured
           sample_agreement sample_resource sample_challenges sample_normalized
           sample_configuration unreachable).
  - reflexivity.
  - vm_compute. reflexivity.
  - reflexivity.
Defined.

(** ** The callback of map: edges *)
(** X12.  A "kickoffTime" that is not a text is not refused.  [null],
    [false] and [true] are written as the epoch, 1970-01-01T00:00:00Z; a
    number is taken as a count of milliseconds since the epoch, its fraction
    cut off, and throws a [RangeError] only when it is not finite or outside
    the range of dates. *)
Theorem kickoffTime_not_a_text (w : world) (ps : list (text * value)) (k : value) :
  own ps (txt "kickoffTime") = Some k ->
  (k = VNull \/ k = VBool false \/ k = VBool true ->
   exists ps', without_milliseconds w (VObj ps) = Ok (VObj ps')
               /\ own ps' (txt "kickoffTime") = Some (VStr (txt "1970-01-01T00:00:00Z")))
  /\ (forall x z, k = VNum x -> trunc x = Some z -> - maxTime <= z <= maxTime ->
        exists ps', without_milliseconds w (VObj ps) = Ok (VObj ps')
                    /\ own ps' (txt "kickoffTime")
                       = Some (VStr (split_dot_head (iso_string z) ++ txt "Z")))
  /\ (forall x, k = VNum x ->
        match trunc x with
        | Some z => z < - maxTime \/ maxTime < z
        | None => True
        end ->
        without_milliseconds w (VObj ps) = Throw RangeError).
Proof.
  intros Hk. unfold without_milliseconds. cbn [get spread]. rewrite Hk. cbn [obind].
  split; [|split].
  - intros [-> | [-> | ->]]; cbn [new_Date obind].
    + change (TimeClip 0) with (Some 0). cbn [toISOString obind].
      change (split_dot_head (iso_string 0) ++ txt "Z") with (txt "1970-01-01T00:00:00Z").
      eexists. split; [reflexivity | apply own_define_same].
    + change (TimeClip 0) with (Some 0). cbn [toISOString obind].
      change (split_dot_head (iso_string 0) ++ txt "Z") with (txt "1970-01-01T00:00:00Z").
      eexists. split; [reflexivity | apply own_define_same].
    + change (TimeClip 1) with (Some 1). cbn [toISOString obind].
      change (split_dot_head (iso_string 1) ++ txt "Z") with (txt "1970-01-01T00:00:00Z").
      eexists. split; [reflexivity | apply own_define_same].
  - intros x z -> Hx Hz. cbn [new_Date obind]. rewrite Hx. cbn [clip].
    unfold TimeClip.
    destruct (Z.leb_spec (- maxTime) z); [|lia].
    destruct (Z.leb_spec z maxTime); [|lia].
    cbn [andb toISOString obind].
    eexists. split; [reflexivity | apply own_define_same].
  - intros x -> Hx. cbn [new_Date obind]. destruct (trunc x) as [z|]; cbn [clip].
    + unfold TimeClip.
      destruct (Z.leb_spec (- maxTime) z); destruct (Z.leb_spec z maxTime);
        try lia; reflexivity.
    + reflexivity.
Qed.

Lemma kickoffTime_not_a_text_witness :
  (VNull = VNull \/ VNull = VBool false \/ VNull = VBool true ->
   exists ps', without_milliseconds quiet_world (VObj undated_record) = Ok (VObj ps')
               /\ own ps' (txt "kickoffTime") = Some (VStr (txt "1970-01-01T00:00:00Z")))
  /\ (forall x z, VNull = VNum x -> trunc x = Some z -> - maxTime <= z <= maxTime ->
        exists ps', without_milliseconds quiet_world (VObj undated_record) = Ok (VObj ps')
                    /\ own ps' (txt "kickoffTime")
                       = Some (VStr (split_dot_head (iso_string z) ++ txt "Z")))
  /\ (forall x, VNull = VNum x ->
        match trunc x with
        | Some z => z < - maxTime \/ maxTime < z
        | None => True
        end ->
        without_milliseconds quiet_world (VObj undated_record) = Throw RangeError).
Proof.
  apply (kickoffTime_not_a_text quiet_world undated_record VNull). reflexivity.
Defined.

(** X13.  The "kickoffTime" that the callback writes is the instant of the
    one it read, cut down to the whole second: read as a date again it is
    never later than the original and less than a second earlier (59.999 s
    becomes 59 s, also before 1970). *)
Theorem kickoffTime_cut_to_the_second (w : world) (x y : value) :
  without_milliseconds w x = Ok y ->
  exists k tv t',
    get x (txt "kickoffTime") = Ok k
    /\ new_Date w k = Ok (Some tv)
    /\ get y (txt "kickoffTime") = Ok (VStr t')
    /\ new_Date w (VStr t') = Ok (Some (tv - tv mod 1000))
    /\ tv - 1000 < tv - tv mod 1000 <= tv.
Proof.
  intros H. apply without_milliseconds_ok in H as (ps & k & tv & -> & Hk & Hd & ->).
  exists k, tv, (split_dot_head (iso_string tv) ++ (txt "Z")).
  pose proof (new_Date_range w k tv Hd) as Hr.
  cbn [get]. fold kickoff. rewrite Hk, own_define_same.
  repeat split; try assumption.
  - cbn [new_Date]. rewrite split_dot_head_iso. unfold Date_parse.
    rewrite utc_date_time_seconds by assumption. cbn [clip].
    now rewrite TimeClip_floor.
  - pose proof (Z.mod_pos_bound tv 1000 ltac:(lia)). lia.
  - pose proof (Z.mod_pos_bound tv 1000 ltac:(lia)). lia.
Qed.

Lemma kickoffTime_cut_to_the_second_witness :
  exists k tv t',
    get (VObj [((txt "kickoffTime"), VStr (txt "1969-12-31T23:59:59.999Z"))]) (txt "kickoffTime") = Ok k
    /\ new_Date quiet_world k = Ok (Some tv)
    /\ get (VObj [((txt "kickoffTime"), VStr (txt "1969-12-31T23:59:59Z"))]) (txt "kickoffTime")
       = Ok (VStr t')
    /\ new_Date quiet_world (VStr t') = Ok (Some (tv - tv mod 1000))
    /\ tv - 1000 < tv - tv mod 1000 <= tv.
Proof.
  apply (kickoffTime_cut_to_the_second quiet_world
           (VObj [((txt "kickoffTime"), VStr (txt "1969-12-31T23:59:59.999Z"))])
           (VObj [((txt "kickoffTime"), VStr (txt "1969-12-31T23:59:59Z"))])).
  vm_compute. reflexivity.
Defined.

(** X14.  An element with no "kickoffTime" of its own makes the callback
    throw: a [TypeError] when the element is [null] (or [undefined]), whose
    property cannot be read, and the [RangeError] of [toISOString] on the
    invalid date for every other element, be it an object without the key,
    an array, a text, a number or a boolean. *)
Theorem record_without_kickoffTime (w : world) (x : value) :
  match x with
  | VObj ps => own ps (txt "kickoffTime") = None
  | _ => True
  end ->
  without_milliseconds w x
  = Throw match x with
          | VUndefined | VNull => TypeError
          | _ => RangeError
          end.
Proof.
  assert (Hkey : forall xs, element xs (txt "kickoffTime") = VUndefined) by reflexivity.
  unfold without_milliseconds.
  destruct x as [| |b|z|s|xs|ps]; cbn [get obind]; rewrite ?Hkey; intros H;
    try reflexivity.
  now rewrite H.
Qed.

Lemma record_without_kickoffTime_witness :
  without_milliseconds quiet_world (VObj [((txt "home"), VStr (txt "A"))]) = Throw RangeError.
Proof.
  apply (record_without_kickoffTime quiet_world (VObj [((txt "home"), VStr (txt "A"))])).
  reflexivity.
Defined.

(** ** The normalization as a whole: edges *)
(** X15.  The normalization returns only for an array whose every element is
    an object with a "kickoffTime" of its own.  What it returns is the text
    of an array of as many objects, each with the keys of its original in
    the same order, and a "kickoffTime" that is a text in whole seconds with
    the "Z" suffix.  Under every other key is the value that was read, as
    [JSON.stringify] writes it: an infinite number as null, a negative zero
    as zero, and a value with neither of these in it unchanged.  No record
    and no key is added or dropped. *)
Theorem normalization_returns (w : world) (challenges out : text) :
  challengesToPredict w challenges = Ok out ->
  exists xs ys,
    JSON_parse challenges = Ok (VArr xs)
    /\ JSON_parse out = Ok (VArr ys)
    /\ List.length ys = List.length xs
    /\ Forall2 (fun x y =>
         exists ps ps' k t',
           x = VObj ps /\ y = VObj ps'
           /\ own ps (txt "kickoffTime") = Some k
           /\ map fst ps' = map fst ps
           /\ (forall key, key <> txt "kickoffTime" ->
                own ps' key = option_map settle (own ps key))
           /\ (forall key v, key <> txt "kickoffTime" -> own ps key = Some v ->
                kept v = true -> own ps' key = Some v)
           /\ own ps' (txt "kickoffTime") = Some (VStr t')
           /\ whole_seconds_utc t' = true) xs ys.
Proof.
  intros H. apply challengesToPredict_ok in H as (xs & ys & Hp & Hm & ->).
  apply JSON_parse_json_value in Hp as Hj. cbn [json_value] in Hj.
  destruct (written_records w xs ys Hj Hm) as [Hjy _].
  destruct (JSON_parse_stringify (VArr ys) Hjy) as [_ Hback].
  exists xs, (map settle ys). repeat split; try assumption.
  - rewrite length_map. symmetry. eapply Forall2_length, Hm.
  - clear Hp Hback Hjy.
    induction Hm as [|x y xs ys Hx Hr IH]; [constructor|].
    cbn [forallb] in Hj. apply andb_true_iff in Hj as [Hjx Hjr].
    cbn [map]. constructor; [|now apply IH].
    apply without_milliseconds_ok in Hx as (ps & k & tv & -> & Hk & Hd & ->).
    cbn [json_value] in Hjx. apply andb_true_iff in Hjx as [Hord _].
    rewrite define_all_same by assumption.
    cbn [settle]. fold settle_member. rewrite define_settle. cbn [settle].
    assert (Hk' : own (map settle_member ps) kickoff = Some (settle k))
      by (rewrite own_settle, Hk; reflexivity).
    assert (Hother : forall key, key <> kickoff ->
              own (define kickoff (VStr (split_dot_head (iso_string tv) ++ txt "Z"))
                     (map settle_member ps)) key
              = option_map settle (own ps key)).
    { intros key Hne. rewrite own_define by assumption. apply own_settle. }
    eexists ps, _, k, _. repeat split; try reflexivity; try assumption.
    + unfold define. rewrite Hk', replace_keys.
      unfold settle_member. now rewrite map_map.
    + intros key v Hne Hv Hkept. fold kickoff in Hne.
      rewrite (Hother key Hne), Hv. cbn [option_map]. now rewrite settle_kept.
    + apply own_define_same.
    + rewrite split_dot_head_iso. apply iso_seconds_shape.
Qed.

Lemma normalization_returns_witness :
  exists xs ys,
    JSON_parse rich_challenges = Ok (VArr xs)
    /\ JSON_parse rich_normalized = Ok (VArr ys)
    /\ List.length ys = List.length xs
    /\ Forall2 (fun x y =>
         exists ps ps' k t',
           x = VObj ps /\ y = VObj ps'
           /\ own ps (txt "kickoffTime") = Some k
           /\ map fst ps' = map fst ps
           /\ (forall key, key <> txt "kickoffTime" ->
                own ps' key = option_map settle (own ps key))
           /\ (forall key v, key <> txt "kickoffTime" -> own ps key = Some v ->
                kept v = true -> own ps' key = Some v)
           /\ own ps' (txt "kickoffTime") = Some (VStr t')
           /\ whole_seconds_utc t' = true) xs ys.
Proof.
  apply (normalization_returns quiet_world rich_challenges rich_normalized).
  vm_compute. reflexivity.
Defined.

(** X16.  Whatever the normalization returns is a fixed point of it on
    every engine: the text it wrote is normalized to itself, also when the
    original "kickoffTime" was not a text or was in a format that only the
    engine's own date parser reads, and whatever numbers the other fields
    hold. *)
Theorem normalized_is_fixed (w : world) (challenges out : text) :
  challengesToPredict w challenges = Ok out ->
  forall w' : world, challengesToPredict w' out = Ok out.
Proof. intros H w'. exact (normalization_again w challenges out H w'). Qed.

Lemma normalized_is_fixed_witness :
  challengesToPredict quiet_world
    (txt "[{" ++ quote (txt "kickoffTime") ++ txt ": 1500.7, "
       ++ quote (txt "odds") ++ txt ": [2.50, -0, 1e999] }]")
  = Ok (txt "[{" ++ quote (txt "kickoffTime") ++ txt ":"
          ++ quote (txt "1970-01-01T00:00:01Z") ++ txt ","
          ++ quote (txt "odds") ++ txt ":[2.5,0,null]}]")
  /\ forall w' : world,
       challengesToPredict w'
         (txt "[{" ++ quote (txt "kickoffTime") ++ txt ":"
            ++ quote (txt "1970-01-01T00:00:01Z") ++ txt ","
            ++ quote (txt "odds") ++ txt ":[2.5,0,null]}]")
       = Ok (txt "[{" ++ quote (txt "kickoffTime") ++ txt ":"
               ++ quote (txt "1970-01-01T00:00:01Z") ++ txt ","
               ++ quote (txt "odds") ++ txt ":[2.5,0,null]}]").
Proof.
  split; [vm_compute; reflexivity|].
  apply (normalized_is_fixed quiet_world
           (txt "[{" ++ quote (txt "kickoffTime") ++ txt ": 1500.7, "
              ++ quote (txt "odds") ++ txt ": [2.50, -0, 1e999] }]")).
  vm_compute. reflexivity.
Defined.

Lemma map_outcome_first_failure (w : world) (pre : list value) (x : value)
    (post : list value) (e : thrown) :
  forallb (dated w) pre = true -> without_milliseconds w x = Throw e ->
  map_outcome (without_milliseconds w) (pre ++ x :: post) = Throw e.
Proof.
  intros Hpre Hx. induction pre as [|p pre IH]; cbn [app map_outcome].
  - now rewrite Hx.
  - cbn [forallb] in Hpre. apply andb_true_iff in Hpre as [Hp Hpre].
    destruct (without_milliseconds_dated w p Hp) as [y ->]. cbn [obind].
    now rewrite (IH Hpre).
Qed.

(** X17.  The elements are rewritten in order and the first one that fails
    decides: when every element before it has a "kickoffTime" that makes a
    valid date, the normalization throws what the callback throws on that
    element, whatever comes after it. *)
Theorem normalization_first_failure (w : world) (challenges : text)
    (pre : list value) (x : value) (post : list value) (e : thrown) :
  JSON_parse challenges = Ok (VArr (pre ++ x :: post)) ->
  forallb (dated w) pre = true ->
  without_milliseconds w x = Throw e ->
  challengesToPredict w challenges = Throw e.
Proof.
  intros Hp Hpre Hx. unfold challengesToPredict. rewrite Hp. cbn [obind array_map].
  now rewrite (map_outcome_first_failure w pre x post e Hpre Hx).
Qed.

Lemma normalization_first_failure_witness :
  challengesToPredict quiet_world
    ((txt "[{") ++ quote (txt "kickoffTime") ++ (txt ":0}, {}, null]")) = Throw RangeError.
Proof.
  apply (normalization_first_failure quiet_world
           ((txt "[{") ++ quote (txt "kickoffTime") ++ (txt ":0}, {}, null]"))
           [VObj [((txt "kickoffTime"), VNum (Zero false))]] (VObj []) [VNull] RangeError).
  - vm_compute. reflexivity.
  - vm_compute. reflexivity.
  - vm_compute. reflexivity.
Defined.

(** X18.  Challenges that are the empty array, with whatever white space,
    are normalized to the text "[]", and with a configuration
    [predictFixtureResults] still sends it: there is no shortcut for an
    empty request. *)
Theorem empty_challenges_are_sent (w : world) (challenges : text) :
  JSON_parse challenges = Ok (VArr []) ->
  challengesToPredict w challenges = Ok (txt "[]")
  /\ forall this agreement resource cfg,
       getVirtualProviderConfiguration this (offerId agreement) (protocol_address this)
       = Some cfg ->
       requests (fst (predictFixtureResults w this agreement resource challenges))
       = [prediction_request (apiBaseURL cfg) (apiKey cfg) (txt "[]")].
Proof.
  intros Hp.
  assert (Hn : challengesToPredict w challenges = Ok (txt "[]"))
    by (unfold challengesToPredict; rewrite Hp; reflexivity).
  split; [assumption|].
  intros this agreement resource cfg Hcfg.
  rewrite predictFixtureResults_run, Hcfg, Hn. cbn [fst].
  apply makePredictionRequest_one_request.
Qed.

Lemma empty_challenges_are_sent_witness :
  challengesToPredict quiet_world (txt " [ ] ") = Ok (txt "[]")
  /\ forall this agreement resource cfg,
       getVirtualProviderConfiguration this (offerId agreement) (protocol_address this)
       = Some cfg ->
       requests (fst (predictFixtureResults quiet_world this agreement resource (txt " [ ] ")))
       = [prediction_request (apiBaseURL cfg) (apiKey cfg) (txt "[]")].
Proof.
  apply (empty_challenges_are_sent quiet_world (txt " [ ] ")). vm_compute. reflexivity.
Defined.

(** ** create and getDetails: edges *)

Lemma get_params (d : value) :
  typeof d = (txt "object") -> d <> VNull -> exists p, get d (txt "params") = Ok p.
Proof. destruct d; cbn [typeof get]; intros H Hn; try discriminate; eauto. congruence. Qed.

Lemma create_with_params (agreement : Agreement) (offer : DetailedOffer) (p : value) :
  typeof (details offer) = (txt "object") -> get (details offer) (txt "params") = Ok p ->
  if nullish p then create agreement offer = Throw TypeError
  else exists allowance, create agreement offer = Ok (initial_details allowance).
Proof.
  intros Hty Hp. unfold create. rewrite Hty.
  change (text_eqb ((txt "object")) ((txt "object"))) with true. cbv iota.
  assert (Hentry : number_of_predictions_entry (details offer)
                   = get p (txt "Number of Predictions")).
  { unfold number_of_predictions_entry.
    destruct (details offer); try discriminate; rewrite Hp; reflexivity. }
  rewrite Hentry.
  destruct p as [| |b|z|s|xs|ps]; cbn [nullish get obind]; try reflexivity;
    match goal with
    | |- context [optional_get ?en (txt "value")] =>
        destruct (optional_get_ok en (txt "value")) as [v ->]; cbn [obind]; eexists;
        reflexivity
    end.
Qed.

Lemma create_not_object (agreement : Agreement) (offer : DetailedOffer) :
  typeof (details offer) <> (txt "object") ->
  create agreement offer = Throw (PlainError (txt "Invalid offer details")).
Proof.
  intros H. unfold create.
  destruct (text_eqb_spec (typeof (details offer)) (txt "object")); [contradiction|].
  reflexivity.
Qed.

(** X19.  [create] throws a [TypeError] exactly when the details are of type
    "object", are not [null], and have no "params" or a "params" that is
    [null]: an array, or an object that lacks the key or holds [null] or
    [undefined] under it. *)
Theorem create_type_error (agreement : Agreement) (offer : DetailedOffer) :
  create agreement offer = Throw TypeError
  <-> typeof (details offer) = (txt "object")
      /\ details offer <> VNull
      /\ (get (details offer) (txt "params") = Ok VUndefined
          \/ get (details offer) (txt "params") = Ok VNull).
Proof.
  split.
  - intros H.
    destruct (text_eqb_spec (typeof (details offer)) (txt "object")) as [Hty | Hty].
    + split; [assumption|].
      assert (Hn : details offer <> VNull).
      { intros Hnull. unfold create in H. rewrite Hnull in H. discriminate. }
      split; [assumption|].
      destruct (get_params _ Hty Hn) as [p Hp].
      pose proof (create_with_params agreement offer p Hty Hp) as Hc.
      destruct p; cbn [nullish] in Hc; auto;
        destruct Hc as [al Hc]; rewrite Hc in H; discriminate.
    + rewrite (create_not_object agreement offer Hty) in H. discriminate.
  - intros (Hty & Hn & [Hp | Hp]);
      exact (create_with_params agreement offer _ Hty Hp).
Qed.

(** X20.  Whenever [create] returns, the details were of type "object", the
    status is Running and the count is 0, and the allowance is the number 0
    or a value that counts as true: never [undefined], [null], [false] or
    the empty text. *)
Theorem create_returns (agreement : Agreement) (offer : DetailedOffer)
    (r : ScorePredictionResourceDetails) :
  create agreement offer = Ok r ->
  typeof (details offer) = (txt "object")
  /\ details_status r = Running
  /\ Predictions_Count r = 0
  /\ (Predictions_Allowance_Count r = VNum (Zero false)
      \/ truthy (Predictions_Allowance_Count r) = true).
Proof.
  intros H.
  destruct (text_eqb_spec (typeof (details offer)) (txt "object")) as [Hty | Hty];
    [|rewrite (create_not_object agreement offer Hty) in H; discriminate].
  split; [assumption|].
  unfold create in H. rewrite Hty in H.
  change (text_eqb ((txt "object")) ((txt "object"))) with true in H. cbv iota in H.
  destruct (number_of_predictions_entry (details offer)) as [en|];
    cbn [obind] in H; try discriminate.
  destruct (optional_get en (txt "value")) as [v|]; cbn [obind] in H; try discriminate.
  injection H as <-. cbn [details_status Predictions_Count Predictions_Allowance_Count].
  repeat split; try assumption.
  destruct (truthy v) eqn:Hv; auto.
Qed.

Lemma create_returns_witness :
  typeof (details sample_offer) = (txt "object")
  /\ details_status (initial_details (VNum (number_of_Z 50))) = Running
  /\ Predictions_Count (initial_details (VNum (number_of_Z 50))) = 0
  /\ (Predictions_Allowance_Count (initial_details (VNum (number_of_Z 50))) = VNum (Zero false)
      \/ truthy (Predictions_Allowance_Count (initial_details (VNum (number_of_Z 50)))) = true).
Proof.
  apply (create_returns sample_agreement sample_offer (initial_details (VNum (number_of_Z 50)))).
  reflexivity.
Defined.

(** X21.  The "value" of the entry is not checked to be a number: when the
    details have a "params" with an entry "Number of Predictions" that has a
    "value", [create] returns that value itself as the allowance if it
    counts as true (a text, a negative number) and the number 0 if it does
    not (0, the empty text, [false], [null]). *)
Theorem create_allowance_unchecked (agreement : Agreement) (offer : DetailedOffer)
    (params entry v : value) :
  typeof (details offer) = (txt "object") ->
  get (details offer) (txt "params") = Ok params ->
  get params (txt "Number of Predictions") = Ok entry ->
  get entry (txt "value") = Ok v ->
  create agreement offer
  = Ok {| details_status := Running;
          Predictions_Allowance_Count := if truthy v then v else VNum (Zero false);
          Predictions_Count := 0 |}.
Proof.
  intros Hty Hp He Hv. unfold create. rewrite Hty.
  change (text_eqb ((txt "object")) ((txt "object"))) with true. cbv iota.
  assert (Hentry : number_of_predictions_entry (details offer) = Ok entry).
  { unfold number_of_predictions_entry.
    destruct (details offer); try discriminate; rewrite Hp; cbn [obind]; exact He. }
  rewrite Hentry. cbn [obind].
  assert (Hv' : optional_get entry (txt "value") = Ok v)
    by (destruct entry; cbn [optional_get]; try assumption; discriminate).
  rewrite Hv'. reflexivity.
Qed.

Lemma create_allowance_unchecked_witness :
  create sample_agreement text_offer
  = Ok {| details_status := Running;
          Predictions_Allowance_Count := if truthy (VStr (txt "50")) then VStr (txt "50") else VNum (Zero false);
          Predictions_Count := 0 |}.
Proof.
  apply (create_allowance_unchecked sample_agreement text_offer
           (VObj [((txt "Number of Predictions"),
                   VObj [((txt "value"), VStr (txt "50")); ((txt "unit"), VStr (txt "count"))])])
           (VObj [((txt "value"), VStr (txt "50")); ((txt "unit"), VStr (txt "count"))]) (VStr (txt "50")));
    reflexivity.
Defined.

(** X22.  [getDetails] on a resource that holds what [create] returned for
    an offer gives the allowance of [create], the count 0 and the deployment
    status of the resource in place of Running; it does not fail and takes
    nothing from the agreement or from the offer it is given. *)
Theorem getDetails_after_create
    (agreement agreement' : Agreement) (offer offer' : DetailedOffer)
    (created : ScorePredictionResourceDetails) (current : DeploymentStatus) :
  create agreement offer = Ok created ->
  getDetails agreement' offer' {| deploymentStatus := current;
                                  resource_details := created |}
  = Ok {| details_status := current;
          Predictions_Allowance_Count := Predictions_Allowance_Count created;
          Predictions_Count := 0 |}.
Proof.
  intros H. unfold getDetails. cbn [deploymentStatus resource_details]. do 2 f_equal.
  unfold create in H.
  destruct (text_eqb (typeof (details offer)) (txt "object")); [|discriminate].
  destruct (number_of_predictions_entry (details offer)) as [en|];
    cbn [obind] in H; try discriminate.
  destruct (optional_get en (txt "value")) as [v|]; cbn [obind] in H; try discriminate.
  now injection H as <-.
Qed.

Lemma getDetails_after_create_witness :
  getDetails sample_agreement text_offer
    {| deploymentStatus := Closed; resource_details := initial_details (VNum (number_of_Z 50)) |}
  = Ok {| details_status := Closed;
          Predictions_Allowance_Count :=
            Predictions_Allowance_Count (initial_details (VNum (number_of_Z 50)));
          Predictions_Count := 0 |}.
Proof.
  apply (getDetails_after_create sample_agreement sample_agreement sample_offer
           text_offer (initial_details (VNum (number_of_Z 50))) Closed).
  reflexivity.
Defined.
